(** * DLWP: preprocessing and iterative time-series estimation

    A shallow embedding of [DLWP/model/preprocessing.py] and
    [DLWP/model/extensions.py].  NumPy arrays are flat row-major buffers
    with a shape and an element type, or nested lists of whole grids where
    the code only ever addresses whole axes; xarray objects carry their
    coordinate labels next to the values;
    the caller's arrays live in a finite map, dictionaries over a fixed set
    of keys are records of optional fields; exceptions are an error result. *)

From Stdlib Require Import ZArith SpecFloat.
From stdpp Require Import base numbers list sorting gmap strings pretty.

Open Scope nat_scope.

(** ** Python exceptions and the error monad *)

Inductive exn : Set :=
  | ValueError
  | IndexError
  | KeyError
  | TypeError
  | IOError
  | InvalidIndexError.

Inductive result (A : Type) : Type :=
  | Ok (a : A)
  | Raise (e : exn).
Arguments Ok {A} a.
Arguments Raise {A} e.

Global Instance result_ret : MRet result := λ A a, Ok a.
Global Instance result_bind : MBind result := λ A B k m,
  match m with
  | Ok a => k a
  | Raise e => Raise e
  end.

Global Instance result_fmap : FMap result := λ A B f m,
  match m with
  | Ok a => Ok (f a)
  | Raise e => Raise e
  end.

Definition getitem {A} (e : exn) (o : option A) : result A :=
  from_option Ok (Raise e) o.

Fixpoint foldM {A S} (f : S → A → result S) (s : S) (l : list A) : result S :=
  match l with
  | [] => Ok s
  | x :: l' => s' ← f s x; foldM f s' l'
  end.

(** ** Python and NumPy sequence helpers *)

(** Position of the first occurrence of a label on a coordinate axis. *)
Definition index_of `{EqDecision A} (x : A) (l : list A) : option nat :=
  fst <$> list_find (x =.) l.

(** Label-based selection with a list of labels: the position of every
    label, [KeyError] when one is missing; pandas refuses to look a list of
    labels up in an index that holds a value twice. *)
Definition positions `{EqDecision A} (labels coord : list A) : result (list nat) :=
  if decide (NoDup coord)
  then getitem KeyError (mapM (λ x, index_of x coord) labels)
  else Raise InvalidIndexError.

(** [l[-k:]] *)
Definition py_last {A} (k : nat) (l : list A) : list A :=
  if decide (k = 0) then l else drop (length l - k) l.

(** [range(n)] *)
Definition py_range (n : Z) : list nat := seq 0 (Z.to_nat n).

Definition ceil_div (a b : Z) : Z := (- ((- a) / b))%Z.

(** [np.arange(start, stop, step)] on NumPy integers (and on timedelta64);
    a zero step makes the length overflow, which NumPy reports as a
    [ValueError]. *)
Definition np_arange (start stop step : Z) : result (list Z) :=
  if decide (step = 0)%Z then Raise ValueError
  else Ok ((λ i : nat, start + Z.of_nat i * step)%Z
             <$> seq 0 (Z.to_nat (ceil_div (stop - start) step))).

(** [np.meshgrid(x, y)] with the default 'xy' indexing: both outputs have
    one row per entry of [y] and one column per entry of [x]. *)
Definition meshgrid {A B} (x : list A) (y : list B)
  : list (list A) * list (list B) :=
  ((λ _, x) <$> y, (λ b, (λ _, b) <$> x) <$> y).


(** ** IEEE binary64 values (NumPy's float64) *)

Module F64.
Definition prec : Z := 53.
Definition emax : Z := 1024.

Definition nan : spec_float := S754_nan.
Definition zero : spec_float := S754_zero false.
Definition one : spec_float := S754_finite false 4503599627370496 (-52).
(** The literal [1.e30], rounded to binary64: 0x1.93e5939a08ceap+99. *)
Definition c1e30 : spec_float := S754_finite false 7105427357601002 47.

Definition isnan (x : spec_float) : bool :=
  match x with S754_nan => true | _ => false end.
Definition ltb : spec_float → spec_float → bool := SFltb.
Definition leb : spec_float → spec_float → bool := SFleb.
Definition gtb (x y : spec_float) : bool := SFltb y x.
Definition geb (x y : spec_float) : bool := SFleb y x.
Definition opp : spec_float → spec_float := SFopp.
Definition div : spec_float → spec_float → spec_float := SFdiv prec emax.
Definition of_nat (n : nat) : spec_float :=
  binary_normalize prec emax (Z.of_nat n) 0 false.
End F64.

(** ** IEEE binary32 values (NumPy's float32), written as the binary64
    values they denote *)

Module F32.
Definition prec : Z := 24.
Definition emax : Z := 128.

(** A binary32 value written as the binary64 value it denotes. *)
Definition widen (x : spec_float) : spec_float :=
  match x with
  | S754_finite s m e =>
      binary_normalize F64.prec F64.emax (cond_Zopp s (Zpos m)) e s
  | _ => x
  end.

(** [np.float32(x)] of a float64 [x]: the nearest binary32 value, ties to
    even, overflow to infinity. *)
Definition round (x : spec_float) : spec_float :=
  match x with
  | S754_finite s m e =>
      widen (binary_normalize prec emax (cond_Zopp s (Zpos m)) e s)
  | _ => x
  end.

(** [np.float32(z)] of an integer. *)
Definition of_Z (z : Z) : spec_float :=
  widen (binary_normalize prec emax z 0 false).
End F32.

Global Instance spec_float_eq_dec : EqDecision spec_float.
Proof. solve_decision. Defined.

(** ** NumPy arrays: a shape, a flat row-major buffer and the element type *)

Inductive float_type : Set := float32 | float64.

Global Instance float_type_eq_dec : EqDecision float_type.
Proof. solve_decision. Defined.

(** A Python float converted to the element type of the array it meets in
    a comparison or an assignment. *)
Definition as_type (dt : float_type) (x : spec_float) : spec_float :=
  match dt with
  | float32 => F32.round x
  | float64 => x
  end.

Record ndarray : Type := NdArray {
  shape : list nat;
  data : list spec_float;
  dtype : float_type
}.

Global Instance ndarray_eq_dec : EqDecision ndarray.
Proof. solve_decision. Defined.

Global Instance ndarray_inhabited : Inhabited ndarray :=
  populate (NdArray [0] [] float64).

Definition size_of (sh : list nat) : nat := foldr Nat.mul 1 sh.

Definition wf_array (a : ndarray) : Prop := length (data a) = size_of (shape a).

(** [ndarray.reshape]: at most one dimension may be [-1]; it is inferred
    from the size, which fails when the known dimensions multiply to 0. *)
Definition fix_unknown_dimension (newshape : list Z) (s_original : nat)
  : result (list nat) :=
  let s_known := size_of (Z.to_nat <$> filter (λ d, 0 ≤ d)%Z newshape) in
  match length (filter (λ d, d < 0)%Z newshape) with
  | 0 => if decide (s_original = s_known)
         then Ok (Z.to_nat <$> newshape) else Raise ValueError
  | 1 => if decide (s_known = 0 ∨ s_original `mod` s_known ≠ 0)
         then Raise ValueError
         else Ok ((λ d, if decide (d < 0)%Z then s_original / s_known
                        else Z.to_nat d) <$> newshape)
  | _ => Raise ValueError
  end.

Definition reshape (newshape : list Z) (a : ndarray) : result ndarray :=
  sh ← fix_unknown_dimension newshape (length (data a));
  Ok (NdArray sh (data a) (dtype a)).

(** Row [i] of a buffer seen as a matrix with rows of [m] entries. *)
Definition row (m : nat) (buf : list spec_float) (i : nat) : list spec_float :=
  take m (drop (i * m) buf).

Definition rows_of (n m : nat) (buf : list spec_float) : list (list spec_float) :=
  row m buf <$> seq 0 n.

(** [np.where(mask)[0]] for a two-dimensional mask: the row index of every
    true entry, in row-major order (a row is listed once per true entry). *)
Fixpoint where_axis0 (i : nat) (mask : list (list bool)) : list nat :=
  match mask with
  | [] => []
  | r :: rs => ((λ _, i) <$> filter (λ b, b = true) r) ++ where_axis0 (S i) rs
  end.

(** [np.where(mask)[0]] for a one-dimensional mask. *)
Fixpoint where1 (i : nat) (mask : list bool) : list nat :=
  match mask with
  | [] => []
  | b :: bs => (if b then [i] else []) ++ where1 (S i) bs
  end.

(** [np.mean(mask, axis=1)] of a boolean matrix: the float64 quotient of
    the count of true entries by the row length (0/0 is NaN). *)
Definition mean_bool (r : list bool) : spec_float :=
  F64.div (F64.of_nat (length (filter (λ b, b = true) r))) (F64.of_nat (length r)).

(** [np.delete(rows, obj, axis=0)] for a list of row indices. *)
Definition np_delete (rows : list (list spec_float)) (obj : list nat)
  : result (list (list spec_float)) :=
  if decide (Exists (λ i, length rows ≤ i) obj) then Raise IndexError
  else Ok (snd <$> filter (λ ir, fst ir ∉ obj) (imap pair rows)).

(** ** [DLWP/model/preprocessing.py] *)

Module Preprocessing.

(** Line 17: netCDF's default fill value for 32-bit floats,
    9.969209968386869e+36, which is 15 * 2^119, as a float32. *)
Definition fill_value : spec_float :=
  Eval vm_compute in F32.round (binary_normalize F64.prec F64.emax 15 119 false).

(** *** [delete_nan_samples]

    The caller's arrays live in a store; the function receives references
    and may write through them. *)
Abbreviation heap := (gmap nat ndarray).

(** [(a > 1.e30) | (a < -1.e30)] for one element: NumPy compares an array
    with a Python float in the array's element type, so in a float32 array
    the bound is [np.float32(1.e30)]. *)
Definition is_large (dt : float_type) (x : spec_float) : bool :=
  F64.gtb x (as_type dt F64.c1e30) || F64.ltb x (as_type dt (F64.opp F64.c1e30)).

(** [a[(a > 1.e30) | (a < -1.e30)] = np.nan], in place. *)
Definition fill_large (a : ndarray) : ndarray :=
  NdArray (shape a)
          ((λ x, if is_large (dtype a) x then F64.nan else x) <$> data a)
          (dtype a).

(** [0 <= threshold <= 1] *)
Definition threshold_ok (threshold : option spec_float) : bool :=
  match threshold with
  | None => true
  | Some th => F64.leb F64.zero th && F64.leb th F64.one
  end.

Definition bad_rows (threshold : option spec_float) (rows : list (list spec_float))
  : list nat :=
  match threshold with
  | None => where_axis0 0 ((λ r : list spec_float, F64.isnan <$> r) <$> rows)
  | Some th =>
      where1 0 ((λ r : list spec_float, F64.geb (mean_bool (F64.isnan <$> r)) th) <$> rows)
  end.

Definition first_dim (a : ndarray) : result nat :=
  match shape a with
  | [] => Raise IndexError
  | n :: _ => Ok n
  end.

(** The part of the function after the in-place fill: it only reads. *)
Definition reduce (threshold : option spec_float) (predictors targets : ndarray)
  : result (ndarray * ndarray) :=
  let p_shape := shape predictors in
  let t_shape := shape targets in
  pn ← first_dim predictors;
  p2 ← reshape [Z.of_nat pn; -1]%Z predictors;
  tn ← first_dim targets;
  t2 ← reshape [Z.of_nat tn; -1]%Z targets;
  let p_rows := rows_of pn (shape p2 !!! 1) (data p2) in
  let t_rows := rows_of tn (shape t2 !!! 1) (data t2) in
  let p_ind := bad_rows threshold p_rows in
  let t_ind := bad_rows threshold t_rows in
  let bad_ind := elements (list_to_set (p_ind ++ t_ind) : gset nat) in
  p3 ← np_delete p_rows bad_ind;
  t3 ← np_delete t_rows bad_ind;
  let new_p_shape := length p3 :: tail p_shape in
  let new_t_shape := length t3 :: tail t_shape in
  p4 ← reshape (Z.of_nat <$> new_p_shape)
         (NdArray [length p3; shape p2 !!! 1] (concat p3) (dtype p2));
  t4 ← reshape (Z.of_nat <$> new_t_shape)
         (NdArray [length t3; shape t2 !!! 1] (concat t3) (dtype t2));
  Ok (p4, t4).

Definition delete_nan_samples (predictors targets : nat)
    (large_fill_value : bool) (threshold : option spec_float) (h : heap)
  : result (ndarray * ndarray) * heap :=
  if negb (threshold_ok threshold) then (Raise ValueError, h)
  else
    let h1 := if large_fill_value
              then alter fill_large targets (alter fill_large predictors h)
              else h in
    (reduce threshold (h1 !!! predictors) (h1 !!! targets), h1).

(** *** [Preprocessor.data_to_samples] *)

(** An argument that is ['all'], a single value, or a list of values. *)
Inductive selector (A : Type) : Type :=
  | All
  | Single (a : A)
  | Several (l : list A).
Arguments All {A}.
Arguments Single {A} a.
Arguments Several {A} l.

Definition as_list {A} (every : list A) (s : selector A) : list A :=
  match s with
  | All => every
  | Single a => [a]
  | Several l => l
  end.

(** What the code does with a whole latitude-by-longitude grid of one
    variable at one time and level: the grid [np.full] makes of NaN, an
    unwritten grid of a netCDF variable (it reads as the fill value), the
    conversion NumPy and netCDF4 make when a grid is assigned into a float32
    array or variable, the masking [xr.open_dataset] applies to a variable
    with a [_FillValue] (cells equal to it become NaN), and a scalar
    broadcast over a grid. *)
Class Grid (G : Type) : Type := {
  nan_grid : G;
  fill_grid : G;
  astype_float32 : G → G;
  mask_fill : G → G;
  full : Z → G
}.

(** The level coordinate of the result: the labels as they were given, or,
    read back from the file's float32 variable, as float32 values. *)
Inductive level_coord : Type :=
  | GivenLevels (l : list Z)
  | Float32Levels (l : list spec_float).

Section SampleBuilder.

Context {G : Type} `{!Grid G}.

(** The opened raw dataset: the time and level coordinates, and per data
    variable its values indexed by time then level.  The names of data
    variables differ from those of the coordinates. *)
Record Dataset : Type := MkDataset {
  ds_time : list Z;
  ds_level : list Z;
  data_vars : list (string * list (list G))
}.

Record DataObj : Type := MkDataObj {
  raw_Dataset : option Dataset;
  dataset_dates : list Z
}.

Definition gather {B} (pos : list nat) (l : list B) : list B :=
  omap (l !!.) pos.

(** [Dataset.sel(time=..., level=...)] *)
Definition sel (times levels : list Z) (ds : Dataset) : result Dataset :=
  tpos ← positions times (ds_time ds);
  lpos ← positions levels (ds_level ds);
  Ok (MkDataset times levels
        (prod_map id (λ vals, gather lpos <$> gather tpos vals) <$> data_vars ds)).

(** [Dataset.drop(v)] *)
Definition drop_var (v : string) (ds : Dataset) : Dataset :=
  MkDataset (ds_time ds) (ds_level ds)
            (filter (λ nv, fst nv ≠ v) (data_vars ds)).

(** [ds[var].isel(time=s).values]: [ds[var]] is a data variable or a
    coordinate.  The time coordinate at one time is a scalar, which the
    assignment that follows broadcasts over levels and grid; the
    coordinates [level], [lat] and [lon] have no time axis to index. *)
Definition values_at (ds : Dataset) (var : string) (s : nat) : result (list G) :=
  match snd <$> list_find (λ nv, fst nv = var) (data_vars ds) with
  | Some nv => getitem IndexError (snd nv !! s)
  | None =>
      if decide (var = "time") then
        t ← getitem IndexError (ds_time ds !! s);
        Ok (replicate (length (ds_level ds)) (full t))
      else if decide (var ∈ ["level"; "lat"; "lon"]) then Raise ValueError
      else Raise KeyError
  end.

Abbreviation samples := (list (list (list G))).

(** [a[s, v, ...] = block] on an in-memory float32 array. *)
Definition write_sample (s v : nat) (block : list G) (a : samples) : samples :=
  alter (<[v := astype_float32 <$> block]>) s a.

(** The same assignment on a float32 netCDF variable whose sample
    dimension is unlimited: the variable grows to hold index [s], new
    cells being unwritten. *)
Definition nc_write_sample (n_var n_level : nat) (s v : nat) (block : list G)
    (a : samples) : samples :=
  write_sample s v block
    (a ++ replicate (S s - length a) (replicate n_var (replicate n_level fill_grid))).

Record SampleData : Type := MkSampleData {
  sd_predictors : samples;
  sd_targets : samples;
  sd_variable : option (list string);
  sd_level : level_coord
}.

(** The dataset built in memory (lines 169-194). *)
Definition in_memory_dataset (variables : list string) (levels : list Z)
    (pt : samples * samples) : SampleData :=
  MkSampleData pt.1 pt.2 (Some variables) (GivenLevels levels).

(** [xr.open_dataset] on the file just written (line 167): values are
    masked, the level coordinate is the file's float32 variable, and the
    [variable] dimension, for which no variable was created, has no
    coordinate. *)
Definition open_dataset (levels : list Z) (pt : samples * samples) : SampleData :=
  let masked (a : samples) : samples :=
    (λ smp : list (list G), (λ blk : list G, mask_fill <$> blk) <$> smp) <$> a in
  MkSampleData (masked pt.1) (masked pt.2)
               None (Float32Levels (F32.of_Z <$> levels)).

Definition fill_sample (write : nat → nat → list G → samples → samples)
    (ds : Dataset) (variables : list string) (pt : samples * samples) (s : nat)
  : result (samples * samples) :=
  foldM (λ pt (vv : nat * string),
           let '(v, var) := vv in
           p_block ← values_at ds var s;
           t_block ← values_at ds var (s + 1);
           Ok (write s v p_block pt.1, write s v t_block pt.2))
        pt (imap pair variables).

Definition data_to_samples (raw_data : DataObj) (file_exists : bool)
    (variables : selector string) (levels : selector Z) (in_memory : bool)
  : result SampleData :=
  raw ← getitem IOError (raw_Dataset raw_data);
  let vars_available := fst <$> data_vars raw in
  let variables := as_list vars_available variables in
  let levels := as_list (ds_level raw) levels in
  let all_dates := dataset_dates raw_data in
  ds ← sel all_dates levels raw;
  let ds := foldl (λ ds v, if decide (v ∈ variables) then ds else drop_var v ds)
                  ds vars_available in
  let n_sample := (Z.of_nat (length all_dates) - 1)%Z in
  let n_var := length variables in
  let n_level := length levels in
  '(write, init, result_ds) ←
    (if in_memory then
       if decide (n_sample < 0)%Z then Raise ValueError
       else let predictors :=
              replicate (Z.to_nat n_sample)
                        (replicate n_var (replicate n_level nan_grid)) in
            Ok (write_sample, (predictors, predictors),
                in_memory_dataset variables levels)
     else
       if file_exists then Raise IOError
       else Ok (nc_write_sample n_var n_level, ([], []), open_dataset levels));
  pt ← foldM (fill_sample write ds variables) init (py_range n_sample);
  Ok (result_ds pt).

End SampleBuilder.

End Preprocessing.

(** *** The [Preprocessor] object

    [data_to_samples] once more, now as a method with the state it acts on:
    the instance's [data] attribute and the set of files that exist.
    [nc.Dataset(file, 'w')] (line 105) creates the file as soon as it is
    reached, and [self.data] is assigned on the last line only.  [to_file]
    and [close] act on the same state.  The attribute [_predictor_shape],
    which nothing in the module reads, is left out, and so are [__init__]
    and [open], which only call into [DLWP.data] and xarray's reader. *)
Module PreprocessorObject.
Import Preprocessing.

Section Method.
Context {G : Type} `{!Grid G}.

Record Preprocessor : Type := MkPreprocessor {
  raw_data : DataObj (G:=G);
  _predictor_file : string;
  data : option (SampleData (G:=G))
}.

(** [self.data = result_ds] *)
Definition set_data (sd : SampleData (G:=G)) (self : Preprocessor) : Preprocessor :=
  MkPreprocessor (raw_data self) (_predictor_file self) (Some sd).

Definition data_to_samples_method (self : Preprocessor)
    (variables : selector string) (levels : selector Z) (in_memory : bool)
    (files : gset string) : result unit * Preprocessor * gset string :=
  match raw_Dataset (raw_data self) with
  | None => (Raise IOError, self, files)
  | Some raw =>
      let vars_available := fst <$> data_vars raw in
      let variables := as_list vars_available variables in
      let levels := as_list (ds_level raw) levels in
      let all_dates := dataset_dates (raw_data self) in
      match sel all_dates levels raw with
      | Raise e => (Raise e, self, files)
      | Ok ds =>
          let ds := foldl (λ ds v, if decide (v ∈ variables) then ds
                                   else drop_var v ds) ds vars_available in
          let n_sample := (Z.of_nat (length all_dates) - 1)%Z in
          let n_var := length variables in
          let n_level := length levels in
          if in_memory then
            if decide (n_sample < 0)%Z then (Raise ValueError, self, files)
            else
              let predictors :=
                replicate (Z.to_nat n_sample)
                          (replicate n_var (replicate n_level nan_grid)) in
              match foldM (fill_sample write_sample ds variables)
                          (predictors, predictors) (py_range n_sample) with
              | Raise e => (Raise e, self, files)
              | Ok pt =>
                  (Ok (), set_data (in_memory_dataset variables levels pt) self,
                   files)
              end
          else
            if decide (_predictor_file self ∈ files)
            then (Raise IOError, self, files)
            else
              let files := {[ _predictor_file self ]} ∪ files in
              match foldM (fill_sample (nc_write_sample n_var n_level)
                                       ds variables)
                          ([], []) (py_range n_sample) with
              | Raise e => (Raise e, self, files)
              | Ok pt => (Ok (), set_data (open_dataset levels pt) self, files)
              end
      end
  end.

(** [Preprocessor.to_file]: the data is written to the given file, or to
    the instance's predictor file. *)
Definition to_file (self : Preprocessor) (predictor_file : option string)
    (files : gset string) : result unit * gset string :=
  match data self with
  | None => (Raise ValueError, files)
  | Some _ =>
      let predictor_file := default (_predictor_file self) predictor_file in
      (Ok (), {[ predictor_file ]} ∪ files)
  end.

(** [Preprocessor.close]; [None] is the [AttributeError] of calling
    [close] on the [None] that [self.data] holds when nothing is open. *)
Definition close (self : Preprocessor) : option Preprocessor :=
  match data self with
  | None => None
  | Some _ => Some (MkPreprocessor (raw_data self) (_predictor_file self) None)
  end.

End Method.

End PreprocessorObject.

(** ** [DLWP/model/extensions.py] *)

Module Extensions.

(** A dictionary (or coordinate collection) whose keys are among
    ['varlev'], ['variable'] and ['level']; [None] is an absent key. *)
Record coords : Type := Coords {
  c_varlev : option (list string);
  c_variable : option (list string);
  c_level : option (list Z)
}.

Definition is_empty (c : coords) : bool :=
  match c with
  | Coords None None None => true
  | _ => false
  end.

Definition only_varlev (l : list string) : coords := Coords (Some l) None None.

(** [str(l)] of a level. *)
Definition str (l : Z) : string := pretty l.

(** [[v for v in out if v in inp]] *)
Definition overlap `{EqDecision A} (out inp : list A) : list A :=
  filter (λ v, v ∈ inp) out.

(** Lines 107-108: the compound labels of a variable/level selection. *)
Definition flatten_varlev (variable : list string) (level : list Z) : list string :=
  let '(lev, var) := meshgrid level variable in
  (λ vl : string * Z, String.concat "/" [vl.1; str vl.2])
    <$> zip (concat var) (concat lev).

Definition string_le (a b : string) : Prop := String.leb a b = true.

Global Instance string_le_dec a b : Decision (string_le a b).
Proof. unfold string_le. apply _. Defined.

Inductive model_class : Set := DLWPNeuralNet | DLWPTorchNN | OtherModel.
Inductive generator_class : Set :=
  DataGenerator | SmartDataGenerator | SeriesDataGenerator | OtherGenerator.

Global Instance model_class_eq_dec : EqDecision model_class.
Proof. solve_decision. Defined.
Global Instance generator_class_eq_dec : EqDecision generator_class.
Proof. solve_decision. Defined.

Section Estimator.

(** One latitude-by-longitude grid of float32 values. *)
Context {V : Type}.
(** The all-NaN grid, [ndarray.mean(axis=0)] on a stack of grids, and
    [DLWP.util.insolation] at one time on the dataset's latitudes and
    longitudes (that module is not part of the sources at hand). *)
Variable nanV : V.
Variable mean0 : list V → V.
Variable insolation : Z → V.

(** Values indexed by sample, time step and feature. *)
Abbreviation tensor := (list (list (list V))).

Record Model : Type := MkModel {
  m_class : model_class;
  time_dim : nat;
  m_predict : tensor → tensor
}.

Record Generator : Type := MkGenerator {
  g_class : generator_class;
  g_add_insolation : option bool;
  ds_dims : list string;
  ds_variables : list string;
  ds_sample : list Z;
  ds_coords : coords;
  ds_predictors_coords : coords;
  ds_targets_coords : coords;
  g_input_sel : coords;
  g_output_sel : coords;
  g_input_time_steps : nat;
  g_output_time_steps : nat;
  g_n_sample : nat;
  g_generate : tensor
}.

Record TimeSeriesEstimator : Type := MkEstimator {
  model : Model;
  generator : Generator;
  _add_insolation : bool;
  _uses_varlev : bool;
  _has_targets : bool;
  _is_series : bool;
  _output_sel : coords;
  _input_sel : coords;
  _outputs_in_inputs : coords;
  _dt : Z;
  _input_time_steps : nat;
  _output_time_steps : nat
}.

(** *** [TimeSeriesEstimator.__init__] *)

Definition key {A} (o : option A) : result A := getitem KeyError o.

Definition variable_level_of (c : coords) : result coords :=
  v ← key (c_variable c);
  l ← key (c_level c);
  Ok (Coords None (Some v) (Some l)).

(** A user selection completed with the dataset's variables and levels. *)
Definition with_defaults (ds sel : coords) : result coords :=
  v ← (match c_variable sel with Some v => Ok v | None => key (c_variable ds) end);
  l ← (match c_level sel with Some l => Ok l | None => key (c_level ds) end);
  Ok (Coords (c_varlev sel) (Some v) (Some l)).

Definition init (model : Model) (generator : Generator)
  : result TimeSeriesEstimator :=
  if decide (m_class model = OtherModel) then Raise TypeError
  else if decide (g_class generator = OtherGenerator) then Raise TypeError
  else
    let add_insolation := default false (g_add_insolation generator) in
    let uses_varlev := bool_decide ("varlev" ∈ ds_dims generator) in
    let has_targets := bool_decide ("targets" ∈ ds_variables generator) in
    let is_series := bool_decide (g_class generator = SeriesDataGenerator) in
    let ds := ds_coords generator in
    s1 ← getitem IndexError (ds_sample generator !! 1);
    s0 ← getitem IndexError (ds_sample generator !! 0);
    let dt := (s1 - s0)%Z in
    '(output_sel, input_sel, outputs_in_inputs) ←
      (if uses_varlev then
         output_sel ←
           (if is_series then
              if is_empty (g_output_sel generator)
              then only_varlev <$> key (c_varlev ds)
              else Ok (g_output_sel generator)
            else if has_targets
                 then only_varlev <$> key (c_varlev (ds_targets_coords generator))
                 else only_varlev <$> key (c_varlev ds));
         input_sel ←
           (if is_series then
              if is_empty (g_input_sel generator)
              then only_varlev <$> key (c_varlev ds)
              else Ok (g_input_sel generator)
            else only_varlev <$> key (c_varlev (ds_predictors_coords generator)));
         out_vl ← key (c_varlev output_sel);
         ov ← (match out_vl with
               | [] => Ok []
               | _ => in_vl ← key (c_varlev input_sel); Ok (overlap out_vl in_vl)
               end);
         Ok (output_sel, input_sel, only_varlev ov)
       else
         output_sel ←
           (if is_series then
              if is_empty (g_output_sel generator)
              then variable_level_of ds
              else with_defaults ds (g_output_sel generator)
            else if has_targets
                 then variable_level_of (ds_targets_coords generator)
                 else variable_level_of ds);
         input_sel ←
           (if is_series then
              if is_empty (g_input_sel generator)
              then variable_level_of ds
              else with_defaults ds (g_input_sel generator)
            else variable_level_of (ds_predictors_coords generator));
         in_l ← key (c_level input_sel);
         in_v ← key (c_variable input_sel);
         let in_vl := flatten_varlev in_v in_l in
         out_l ← key (c_level output_sel);
         out_v ← key (c_variable output_sel);
         let out_vl := flatten_varlev out_v out_l in
         Ok (Coords (Some out_vl) (Some out_v) (Some out_l),
             Coords (Some in_vl) (Some in_v) (Some in_l),
             Coords (Some (overlap out_vl in_vl))
                    (Some (overlap out_v in_v))
                    (Some (overlap out_l in_l))));
    input_sel ←
      (if add_insolation then
         in_vl ← key (c_varlev input_sel);
         Ok (Coords (Some (in_vl ++ ["SOL"]))
                    (c_variable input_sel) (c_level input_sel))
       else Ok input_sel);
    Ok {| model := model;
          generator := generator;
          _add_insolation := add_insolation;
          _uses_varlev := uses_varlev;
          _has_targets := has_targets;
          _is_series := is_series;
          _output_sel := output_sel;
          _input_sel := input_sel;
          _outputs_in_inputs := outputs_in_inputs;
          _dt := dt;
          _input_time_steps :=
            if is_series then g_input_time_steps generator else time_dim model;
          _output_time_steps :=
            if is_series then g_output_time_steps generator else time_dim model |}.

(** *** Labelled arrays *)

Record DataArray : Type := MkDataArray {
  da_sample : list Z;
  da_time_step : list Z;
  da_varlev : list string;
  da_values : tensor
}.

Definition has_shape (n t f : nat) (x : tensor) : Prop :=
  length x = n ∧ Forall (λ s, length s = t ∧ Forall (λ r, length r = f) s) x.

Global Instance has_shape_dec n t f x : Decision (has_shape n t f x).
Proof. unfold has_shape. apply _. Defined.

(** [x.reshape((n, t, -1) + grid)]: the feature count is inferred, which
    NumPy refuses when [n * t] is 0; one coordinate list per axis is then
    attached, and [xr.DataArray] refuses coordinates whose length differs
    from the axis. *)
Definition labelled (sample time_step : list Z) (varlev : option (list string))
    (n t : nat) (x : tensor) : result DataArray :=
  if decide (n = 0 ∨ t = 0) then Raise ValueError
  else
    varlev ← getitem KeyError varlev;
    if decide (n = length sample ∧ t = length time_step
               ∧ has_shape n t (length varlev) x)
    then Ok (MkDataArray sample time_step varlev x)
    else Raise ValueError.

(** [a.reindex(sample=new_sample, method=None)]: nothing is done when the
    labels asked for are the array's own; otherwise rows follow their
    label, a label the array does not have gets a row of NaN, and an array
    whose own sample labels repeat cannot be reindexed. *)
Definition reindex (new_sample : list Z) (a : DataArray) : result DataArray :=
  let blank := replicate (length (da_time_step a))
                         (replicate (length (da_varlev a)) nanV) in
  if decide (new_sample = da_sample a) then Ok a
  else if decide (NoDup (da_sample a)) then
    Ok (MkDataArray new_sample (da_time_step a) (da_varlev a)
          ((λ lbl, default blank (i ← index_of lbl (da_sample a); da_values a !! i))
             <$> new_sample))
  else Raise ValueError.

(** [p.mean(axis=0)]: one grid per time step and feature. *)
Definition mean_axis0 (t f : nat) (p : tensor) : list (list V) :=
  (λ i, (λ j, mean0 ((λ smp : list (list V),
                        default nanV (r ← smp !! i; r !! j)) <$> p))
          <$> seq 0 f) <$> seq 0 t.

(** [a[-es:] = np.concatenate([p_mean[np.newaxis, ...]] * es)]: the slice
    runs along the first axis, which is [sample]. *)
Definition impute_write (es : nat) (p_mean : list (list V)) (a : DataArray)
  : result DataArray :=
  if decide (es = 0) then Raise ValueError
  else
    let target := py_last es (da_values a) in
    if decide (length target = es) then
      Ok (MkDataArray (da_sample a) (da_time_step a) (da_varlev a)
            (take (length (da_values a) - es) (da_values a)
               ++ replicate es p_mean))
    else Raise ValueError.

(** Lines 211-214: the ['SOL'] feature of the last [es] samples, at time
    step [n], becomes the insolation at the sample's time plus [n * dt].
    The assignment is chained, [a.loc[...][-es:] = ...]: it reaches the
    buffer when the label selects a single position, which makes
    [a.loc[...]] a view; a label that occurs more than once selects a copy,
    and the buffer stays as it was. *)
Definition insolation_write (es t : nat) (dt : Z) (a : DataArray)
  : result DataArray :=
  if decide (t = 0) then Raise ValueError
  else
    sol ← getitem KeyError (index_of "SOL" (da_varlev a));
    let n := length (da_values a) - length (py_last es (da_values a)) in
    if decide (1 < length (filter ("SOL" =.) (da_varlev a))) then Ok a
    else
    Ok (MkDataArray (da_sample a) (da_time_step a) (da_varlev a)
          (take n (da_values a)
             ++ zip_with
                  (λ (time : Z) (smp : list (list V)),
                     imap (λ (k : nat) (feats : list V),
                             if decide (k < t)
                             then <[sol := insolation (time + Z.of_nat k * dt)]> feats
                             else feats) smp)
                  (py_last es (da_sample a)) (py_last es (da_values a)))).

(** [feats[fpos] = vals] *)
Definition assign_features (fpos : list nat) (vals feats : list V) : list V :=
  foldl (λ acc (kv : nat * V), <[kv.1 := kv.2]> acc) feats (zip fpos vals).

(** [smp[tpos][:, fpos] = val] for one sample. *)
Definition assign_times (tpos fpos : list nat) (val smp : list (list V))
  : list (list V) :=
  foldl (λ acc (tv : nat * list V), alter (assign_features fpos tv.2) tv.1 acc)
        smp (zip tpos val).

(** [x.loc[dict(varlev=..., time_step=...)] = val], positions resolved. *)
Definition assign_loc (tpos fpos : list nat) (val x : tensor) : tensor :=
  zip_with (assign_times tpos fpos) val x.

(** [r.loc[{'varlev': labels}]] followed by a slice of the time-step axis. *)
Definition select (fpos : list nat) (time_slice : list (list V) → list (list V))
    (x : tensor) : tensor :=
  (λ smp, (λ feats : list V, (λ k, default nanV (feats !! k)) <$> fpos)
            <$> time_slice smp) <$> x.

(** Lines 218-227: model output replaces the overlapping features. *)
Definition feed_back (keep_inputs prefer_first_times : bool) (es t_in : nat)
    (ov : list string) (r_da p_da : DataArray) : result DataArray :=
  let all_times := seq 0 (length (da_time_step p_da)) in
  fout ← positions ov (da_varlev r_da);
  fin ← positions ov (da_varlev p_da);
  '(tpos, time_slice) ←
    (if keep_inputs then
       tpos ← positions (py_last es (da_time_step p_da)) (da_time_step p_da);
       Ok (tpos, id)
     else
       Ok (all_times,
           if prefer_first_times then take t_in else py_last t_in));
  Ok (MkDataArray (da_sample p_da) (da_time_step p_da) (da_varlev p_da)
        (assign_loc tpos fin (select fout time_slice (da_values r_da))
                    (da_values p_da))).

(** *** [TimeSeriesEstimator.predict] *)

(** Calls to the collaborators are recorded in a log. *)
Inductive event : Type :=
  | Generate
  | ModelPredict (x : tensor).

Definition io (A : Type) : Type := list event → result A * list event.

Global Instance io_ret : MRet io := λ A a log, (Ok a, log).
Global Instance io_bind : MBind io := λ A B k m log,
  match m log with
  | (Ok a, log') => k a log'
  | (Raise e, log') => (Raise e, log')
  end.

Definition lift {A} (r : result A) : io A := λ log, (r, log).
Definition emit (e : event) : io unit := λ log, (Ok (), log ++ [e]).

(** Lines 151-163: whether inputs are kept, the effective step, and the
    labels of the input time-step axis. *)
Definition step_size (t_in t_out : nat) (prefer_first_times : bool)
  : bool * nat * list Z :=
  if decide (t_out ≤ t_in) then
    (true, t_out,
     (λ i : nat, Z.of_nat i - (Z.of_nat t_in - Z.of_nat t_out))%Z <$> seq 0 t_in)
  else if prefer_first_times then
    (false, t_in, Z.of_nat <$> seq 0 t_in)
  else
    (false, t_out,
     (λ i : nat, Z.of_nat i + (Z.of_nat t_out - Z.of_nat t_in))%Z <$> seq 0 t_in).

(** The forecast as returned: dimensions (f_hour, time, time_step, varlev),
    (f_hour, time, varlev), or (f_hour, time, variable, level), each
    followed by lat and lon inside the grids. *)
Inductive Forecast : Type :=
  | ByStep (f_hour time time_step : list Z) (varlev : list string)
           (values : list tensor)
  | Series (f_hour time : list Z) (varlev : list string) (values : tensor)
  | SeriesVL (f_hour time : list Z) (variable : list string) (level : list Z)
             (values : list (list (list (list V)))).

Definition f_hour_of (fc : Forecast) : list Z :=
  match fc with
  | ByStep fh _ _ _ _ | Series fh _ _ _ | SeriesVL fh _ _ _ _ => fh
  end.

Definition leading_axis (fc : Forecast) : nat :=
  match fc with
  | ByStep _ _ _ _ v => length v
  | Series _ _ _ v => length v
  | SeriesVL _ _ _ _ v => length v
  end.

Section Predict.

Variable self : TimeSeriesEstimator.

Definition samples_used : list Z :=
  take (g_n_sample (generator self)) (ds_sample (generator self)).

(** One pass of the loop of lines 186-227. *)
Definition iteration (keep_inputs prefer_first_times impute : bool) (es : nat)
    (n : nat) (p_mean : list (list V)) (st : DataArray * list tensor)
  : io (DataArray * list tensor) :=
  let '(p_da, res) := st in
  _ ← emit (ModelPredict (da_values p_da));
  let out := m_predict (model self) (da_values p_da) in
  let res := res ++ [out] in
  r_da ← lift (labelled ((λ t, t + Z.of_nat es * _dt self)%Z <$> samples_used)
                        (Z.of_nat <$> seq 0 (_output_time_steps self))
                        (c_varlev (_output_sel self))
                        n (_output_time_steps self) out);
  p_da ← lift (reindex (da_sample r_da) p_da);
  p_da ← lift (if impute then impute_write es p_mean p_da else Ok p_da);
  p_da ← lift (if _add_insolation self
               then insolation_write es (_input_time_steps self) (_dt self) p_da
               else Ok p_da);
  ov ← lift (key (c_varlev (_outputs_in_inputs self)));
  p_da ← lift (feed_back keep_inputs prefer_first_times es
                         (_input_time_steps self) ov r_da p_da);
  mret (p_da, res).

Fixpoint loop (body : DataArray * list tensor → io (DataArray * list tensor))
    (steps : nat) (st : DataArray * list tensor)
  : io (DataArray * list tensor) :=
  match steps with
  | 0 => mret st
  | S k => st' ← body st; loop body k st'
  end.

(** [x.transpose((0, 2, 1, ...))] for one step: [t] time steps become the
    outer axis, samples the inner one. *)
Definition swap_sample_time (t : nat) (x : tensor) : tensor :=
  (λ j, (λ smp : list (list V), default [] (smp !! j)) <$> x) <$> seq 0 t.

(** [MultiIndex.from_product], [assign_coords] and [unstack('varlev')]:
    the new axes carry the sorted distinct variables and levels, and the
    cell of a pair is the feature at the pair's position in the index. *)
Definition unstack (variable : list string) (level : list Z)
    (varlev : list string) (values : tensor)
  : result (list string * list Z * list (list (list (list V)))) :=
  let vl := cprod variable level in
  if decide (length vl = length varlev ∧ NoDup vl) then
    let vs := merge_sort string_le (remove_dups variable) in
    let ls := merge_sort Z.le (remove_dups level) in
    Ok (vs, ls,
        (λ per_time : list (list V),
           (λ feats : list V,
              (λ v, (λ l, default nanV (k ← index_of (v, l) vl; feats !! k))
                      <$> ls) <$> vs) <$> per_time) <$> values)
  else Raise ValueError.

(** Lines 229-273. *)
Definition assemble (steps : nat) (keep_inputs prefer_first_times : bool)
    (es : nat) (keep_time_dim : bool) (res : list tensor)
  : result Forecast :=
  let dt := _dt self in
  let time := (λ t, t + (Z.of_nat (_input_time_steps self) - 1) * dt)%Z
                <$> samples_used in
  out_vl ← key (c_varlev (_output_sel self));
  fc ←
    (if keep_time_dim then
       f_hour ← np_arange dt ((Z.of_nat steps * Z.of_nat es + 1) * dt)
                          (Z.of_nat es * dt);
       if decide (length f_hour = length res) then
         Ok (ByStep f_hour time (Z.of_nat <$> seq 0 (_output_time_steps self))
                    out_vl res)
       else Raise ValueError
     else
       let t_out := _output_time_steps self in
       let '(res, t) :=
         (if negb keep_inputs && prefer_first_times
          then ((λ x : tensor, take es <$> x) <$> res, t_out `min` es)
          else (res, t_out)) in
       let res := concat (swap_sample_time t <$> res) in
       f_hour ← np_arange dt ((Z.of_nat steps * Z.of_nat es + 1) * dt) dt;
       if decide (length f_hour = length res) then
         Ok (Series f_hour time out_vl res)
       else Raise ValueError);
  if _uses_varlev self then Ok fc
  else
    var ← key (c_variable (_output_sel self));
    lev ← key (c_level (_output_sel self));
    match fc with
    | Series f_hour time varlev values =>
        '(vs, ls, values) ← unstack var lev varlev values;
        Ok (SeriesVL f_hour time vs ls values)
    | _ =>
        (* [transpose] is given six dimension names; with [time_step]
           still present the array has seven *)
        Raise ValueError
    end.

Definition predict (steps : Z) (impute keep_time_dim prefer_first_times : bool)
  : io Forecast :=
  if decide (steps < 1)%Z then lift (Raise ValueError)
  else
    let '(keep_inputs, es, in_times) :=
      step_size (_input_time_steps self) (_output_time_steps self)
                prefer_first_times in
    _ ← emit Generate;
    let p := g_generate (generator self) in
    let n := length p in
    p_da ← lift (labelled samples_used in_times (c_varlev (_input_sel self))
                          n (_input_time_steps self) p);
    let p_mean := mean_axis0 (_input_time_steps self)
                             (length (da_varlev p_da)) p in
    '(p_da, res) ←
      loop (iteration keep_inputs prefer_first_times impute es n p_mean)
           (Z.to_nat steps) (p_da, []);
    lift (assemble (Z.to_nat steps) keep_inputs prefer_first_times es
                   keep_time_dim res).

End Predict.

End Estimator.

End Extensions.

(** * Specification vocabulary *)

Import Preprocessing.
Import Extensions.

(** Whether one flattened sample counts as missing: some value is NaN
    (no threshold), or the NaN fraction reaches the threshold. *)
Definition row_bad (threshold : option spec_float) (r : list spec_float) : bool :=
  match threshold with
  | None => bool_decide (Exists (λ x, F64.isnan x = true) r)
  | Some th => F64.geb (mean_bool (F64.isnan <$> r)) th
  end.

(** Flattened sample [i] of an array whose first axis is the sample axis. *)
Definition sample_of (a : ndarray) (i : nat) : list spec_float :=
  row (size_of (tail (shape a))) (data a) i.

(** The sample indices that survive. *)
Definition kept (threshold : option spec_float) (p t : ndarray) (n : nat) : list nat :=
  filter (λ i, row_bad threshold (sample_of p i) = false
               ∧ row_bad threshold (sample_of t i) = false) (seq 0 n).

(** The array made of the given samples of [a]. *)
Definition take_samples (a : ndarray) (idx : list nat) : ndarray :=
  NdArray (length idx :: tail (shape a)) (concat (sample_of a <$> idx)) (dtype a).

Definition filled (large_fill_value : bool) (a : ndarray) : ndarray :=
  if large_fill_value then fill_large a else a.

(** The overlap lies in both selections, is no longer than the output
    selection, and is no longer than the input selection either when the
    output selection repeats no label. *)
Definition within {A} (ov inp out : list A) : Prop :=
  (∀ v, v ∈ ov → v ∈ inp ∧ v ∈ out)
  ∧ length ov ≤ length out
  ∧ (NoDup out → length ov ≤ length inp `min` length out).

Definition sel_varlev (c : coords) : list string := default [] (c_varlev c).
Definition sel_variable (c : coords) : list string := default [] (c_variable c).
Definition sel_level (c : coords) : list Z := default [] (c_level c).

(** The output time step that seeds input time step [j]. *)
Definition source_step (t_in t_out : nat) (prefer_first_times : bool) (j : nat)
  : nat :=
  if decide (t_out ≤ t_in) then j - (t_in - t_out)
  else if prefer_first_times then j
  else t_out - t_in + j.

Definition at2 {A} (x : list (list A)) (i j : nat) : option A :=
  r ← x !! i; r !! j.


Section ForecastVocabulary.
Context {V : Type}.

Definition cell (x : list (list (list V))) (i j f : nat) : option V :=
  smp ← x !! i; feats ← smp !! j; feats !! f.

(** What the caller owes: a non-zero time increment, at least one time
    step and one sample, distinct labels, a batch and a model whose shapes
    match the selections, and the reserved label when insolation is on. *)
Record valid_estimator (self : TimeSeriesEstimator (V:=V))
    (in_vl out_vl ov : list string) (n : nat) : Prop := {
  v_dt : _dt self ≠ 0%Z;
  v_in : 0 < _input_time_steps self;
  v_out : 0 < _output_time_steps self;
  v_in_sel : c_varlev (_input_sel self) = Some in_vl;
  v_out_sel : c_varlev (_output_sel self) = Some out_vl;
  v_ov : c_varlev (_outputs_in_inputs self) = Some ov;
  v_nd_in : NoDup in_vl;
  v_nd_out : NoDup out_vl;
  v_nd_ov : NoDup ov;
  v_ov_in : ov ⊆ in_vl;
  v_ov_out : ov ⊆ out_vl;
  v_n : 0 < n;
  v_len : length (g_generate (generator self)) = n;
  v_batch : has_shape n (_input_time_steps self) (length in_vl)
                      (g_generate (generator self));
  v_samples : length (samples_used self) = n;
  v_nd_samples : NoDup (samples_used self);
  v_model : ∀ x, has_shape n (_input_time_steps self) (length in_vl) x →
                 has_shape n (_output_time_steps self) (length out_vl)
                           (m_predict (model self) x);
  v_sol : _add_insolation self = true → "SOL" ∈ in_vl;
  v_unstack : _uses_varlev self = false →
              ∃ var lev, c_variable (_output_sel self) = Some var
                         ∧ c_level (_output_sel self) = Some lev
                         ∧ NoDup var ∧ NoDup lev
                         ∧ length (cprod var lev) = length out_vl
}.

(** The rolling buffer keeps its labels and its shape. *)
Definition buffer_ok (in_vl : list string) (in_times : list Z) (n t : nat)
    (a : DataArray (V:=V)) : Prop :=
  da_varlev a = in_vl ∧ da_time_step a = in_times ∧ length in_times = t
  ∧ NoDup (da_sample a) ∧ length (da_sample a) = n
  ∧ has_shape n t (length in_vl) (da_values a).

End ForecastVocabulary.

Section InputVocabulary.
Context {V : Type} (nanV : V) (mean0 : list V → V) (insolation : Z → V).

(** The buffer cell that re-indexing brings to sample [i]: on the first
    pass of the loop the cell of the sample whose time is [es * dt] later,
    NaN when there is none; on later passes, where the labels asked for are
    those the buffer already has, the cell of the sample itself. *)
Definition carried (self : TimeSeriesEstimator (V:=V)) (es : nat) (first : bool)
    (x : list (list (list V))) (i j f : nat) : option V :=
  if first then
    match time ← samples_used self !! i;
          index_of (time + Z.of_nat es * _dt self)%Z (samples_used self) with
    | Some i' => cell x i' j f
    | None => Some nanV
    end
  else cell x i j f.

(** The model input [x'] that follows the model input [x]: cell by cell,
    the model's output where it is fed back, else the insolation, else the
    mean of the batch, else what re-indexing carried over. *)
Definition next_input (self : TimeSeriesEstimator (V:=V))
    (in_vl out_vl ov : list string) (n : nat) (pft impute first : bool)
    (x x' : list (list (list V))) : Prop :=
  let t_in := _input_time_steps self in
  let t_out := _output_time_steps self in
  let es := (step_size t_in t_out pft).1.2 in
  ∀ i j f lbl, i < n → j < t_in → in_vl !! f = Some lbl →
    cell x' i j f
    = if decide (lbl ∈ ov ∧ (t_out ≤ t_in → t_in - t_out ≤ j)) then
        k ← index_of lbl out_vl;
        cell (m_predict (model self) x) i (source_step t_in t_out pft j) k
      else if decide (_add_insolation self = true ∧ lbl = "SOL" ∧ n - es ≤ i) then
        time ← samples_used self !! i;
        Some (insolation (time + Z.of_nat es * _dt self + Z.of_nat j * _dt self)%Z)
      else if decide (impute = true ∧ n - es ≤ i) then
        Some (mean0 ((λ smp : list (list V), default nanV (r ← smp !! j; r !! f))
                       <$> g_generate (generator self)))
      else carried self es first x i j f.

(** One pass of the loop of [predict], stage by stage, from the model input
    [x] to the next model input [x']: the buffer holding [x] is re-indexed
    to the sample times of the model's output ([b0]), the mean of the batch
    is written ([b1], when imputing), then the insolation ([b2], when the
    estimator adds it), and the model's output is fed back. *)
Definition one_pass (self : TimeSeriesEstimator (V:=V))
    (in_vl out_vl ov : list string) (pft impute first : bool)
    (x x' : list (list (list V))) (b0 b1 b2 : DataArray (V:=V)) : Prop :=
  let t_in := _input_time_steps self in
  let t_out := _output_time_steps self in
  let '(keep_inputs, es, in_times) := step_size t_in t_out pft in
  let later := (λ t, t + Z.of_nat es * _dt self)%Z <$> samples_used self in
  let p_da := MkDataArray (if first then samples_used self else later)
                          in_times in_vl x in
  let r_da := MkDataArray later (Z.of_nat <$> seq 0 t_out) out_vl
                          (m_predict (model self) x) in
  reindex nanV (da_sample r_da) p_da = Ok b0
  ∧ (if impute
     then impute_write es (mean_axis0 nanV mean0 t_in (length in_vl)
                                      (g_generate (generator self))) b0
     else Ok b0) = Ok b1
  ∧ (if _add_insolation self
     then insolation_write insolation es t_in (_dt self) b1
     else Ok b1) = Ok b2
  ∧ ∃ b3, feed_back nanV keep_inputs pft es t_in ov r_da b2 = Ok b3
          ∧ da_values b3 = x'.

End InputVocabulary.

Section SampleVocabulary.
Context {G : Type} `{!Grid G}.

(** The raw values of a variable: the first data variable of that name. *)
Definition raw_values (raw : Dataset (G:=G)) (var : string) : option (list (list G)) :=
  snd <$> (snd <$> list_find (λ nv : string * list (list G), nv.1 = var) (data_vars raw)).

(** The source grid of a variable at a time and level, by label. *)
Definition source (raw : Dataset (G:=G)) (var : string) (time level : Z) : option G :=
  vals ← raw_values raw var;
  ti ← index_of time (ds_time raw);
  li ← index_of level (ds_level raw);
  at2 vals ti li.

(** Every data variable has one row per time and one grid per level. *)
Definition wf_dataset (raw : Dataset (G:=G)) : Prop :=
  NoDup (ds_time raw) ∧ NoDup (ds_level raw)
  ∧ Forall (λ nv : string * list (list G),
              length nv.2 = length (ds_time raw)
              ∧ Forall (λ r, length r = length (ds_level raw)) nv.2)
           (data_vars raw).

Definition at3 (x : list (list (list G))) (i v k : nat) : option G :=
  r ← at2 x i v; r !! k.

Definition block_of (ds : Dataset (G:=G)) (s : nat) (var : string) : list G :=
  match values_at ds var s with
  | Ok b => b
  | Raise _ => []
  end.

End SampleVocabulary.

(** A string that does not contain the separator of compound labels. *)
Fixpoint no_slash (s : string) : Prop :=
  match s with
  | EmptyString => True
  | String c s' => String c "" ≠ "/" ∧ no_slash s'
  end.

(** * Concrete instances

    Small estimators over integer-valued grids, used to run the model. *)

Module Demo.
Import Extensions.

Definition zmean (l : list Z) : Z := (foldr Z.add 0 l / Z.of_nat (length l))%Z.
Definition zsun (t : Z) : Z := (- t)%Z.

(** A model with two input time steps and one output time step that
    predicts feature [b] as the newest input [b] plus 1000. *)
Definition model_2_1 : Model (V:=Z) :=
  MkModel DLWPNeuralNet 2
    (λ x, (λ smp : list (list Z),
             [(λ v, v + 1000)%Z <$> drop 1 (default [] (last smp))]) <$> x).

Definition no_coords : coords := Coords None None None.

(** Five six-hourly samples of features [a] and [b]; three are used. *)
Definition generator_varlev : Generator (V:=Z) :=
  MkGenerator SeriesDataGenerator None ["sample"; "varlev"; "lat"; "lon"]
    ["predictors"] [0; 6; 12; 18; 24]%Z
    (only_varlev ["a"; "b"]) no_coords no_coords
    (only_varlev ["a"; "b"]) (only_varlev ["b"]) 2 1 3
    [ [[1; 2]; [3; 5]]; [[3; 5]; [9; 6]]; [[9; 6]; [7; 8]] ]%Z.

(** The same data on a dataset with separate variable and level axes:
    variable [z], levels 500 and 850, of which the model predicts 850. *)
Definition generator_variable_level : Generator (V:=Z) :=
  MkGenerator SeriesDataGenerator None
    ["sample"; "variable"; "level"; "lat"; "lon"]
    ["predictors"] [0; 6; 12; 18; 24]%Z
    (Coords None (Some ["z"]) (Some [500; 850]%Z)) no_coords no_coords
    (Coords None (Some ["z"]) (Some [500; 850]%Z))
    (Coords None (Some ["z"]) (Some [850]%Z)) 2 1 3
    [ [[1; 2]; [3; 5]]; [[3; 5]; [9; 6]]; [[9; 6]; [7; 8]] ]%Z.

(** A generator whose output selection names the same label twice. *)
Definition generator_repeated : Generator (V:=Z) :=
  MkGenerator SeriesDataGenerator None ["sample"; "varlev"; "lat"; "lon"]
    ["predictors"] [0; 6; 12]%Z
    (only_varlev ["a"; "b"]) no_coords no_coords
    (only_varlev ["a"]) (only_varlev ["a"; "a"]) 1 1 3
    [ [[1]]; [[2]]; [[3]] ]%Z.

Definition estimator_varlev : TimeSeriesEstimator (V:=Z) :=
  {| model := model_2_1;
     generator := generator_varlev;
     _add_insolation := false;
     _uses_varlev := true;
     _has_targets := false;
     _is_series := true;
     _output_sel := only_varlev ["b"];
     _input_sel := only_varlev ["a"; "b"];
     _outputs_in_inputs := only_varlev ["b"];
     _dt := 6;
     _input_time_steps := 2;
     _output_time_steps := 1 |}.

Definition estimator_variable_level : TimeSeriesEstimator (V:=Z) :=
  {| model := model_2_1;
     generator := generator_variable_level;
     _add_insolation := false;
     _uses_varlev := false;
     _has_targets := false;
     _is_series := true;
     _output_sel := Coords (Some ["z/850"]) (Some ["z"]) (Some [850]%Z);
     _input_sel := Coords (Some ["z/500"; "z/850"]) (Some ["z"]) (Some [500; 850]%Z);
     _outputs_in_inputs := Coords (Some ["z/850"]) (Some ["z"]) (Some [850]%Z);
     _dt := 6;
     _input_time_steps := 2;
     _output_time_steps := 1 |}.

Definition run (self : TimeSeriesEstimator (V:=Z)) (steps : Z)
    (impute keep_time_dim prefer_first_times : bool)
  : result Forecast * list event :=
  predict 0%Z zmean zsun self steps impute keep_time_dim prefer_first_times [].

End Demo.

(** [np.array(buf).reshape(sh)], a float64 array, and the same values as a
    float32 array. *)
Definition arr (sh : list nat) (buf : list spec_float) : ndarray :=
  NdArray sh buf float64.
Definition arr32 (sh : list nat) (buf : list spec_float) : ndarray :=
  NdArray sh (F32.round <$> buf) float32.

(** The scenario of the specification: five samples, the third one with a
    NaN among its predictors. *)
Definition five_predictors : ndarray :=
  arr [5; 2] [F64.zero; F64.one; F64.one; F64.zero; F64.nan; F64.one;
              F64.zero; F64.zero; F64.one; F64.one].
Definition five_targets : ndarray :=
  arr [5; 1] [F64.one; F64.zero; F64.one; F64.zero; F64.one].
Definition five_heap : heap := {[ 0 := five_predictors; 1 := five_targets ]}.

Definition huge : spec_float := S754_infinity false.

Definition two : spec_float := S754_finite false 4503599627370496 (-51).

(** The buffer of the demo estimator before its first step, and the mean
    of its batch over the sample axis. *)
Definition demo_initial : DataArray (V:=Z) :=
  MkDataArray [0; 6; 12]%Z [-1; 0]%Z ["a"; "b"]
    (g_generate Demo.generator_varlev).

Definition demo_mean : list (list Z) :=
  mean_axis0 0%Z Demo.zmean 2 2 (g_generate Demo.generator_varlev).

(** Grids named by integers: grid [i] stands for a grid of float32 values,
    [-1] for the grid of NaN and [-2] for an unwritten grid. *)
Global Instance named_grid : Grid Z := {|
  nan_grid := (-1)%Z;
  fill_grid := (-2)%Z;
  astype_float32 := id;
  mask_fill := λ g, if decide (g = -2)%Z then (-1)%Z else g;
  full := id
|}.

(** Grids of a single cell holding a float64 value. *)
Global Instance cell_grid : Grid spec_float := {|
  nan_grid := F64.nan;
  fill_grid := fill_value;
  astype_float32 := F32.round;
  mask_fill := λ x, if SFeqb x fill_value then F64.nan else x;
  full := λ t, binary_normalize F64.prec F64.emax t 0 false
|}.

(** The scenario of the specification: ten time points of one variable at
    one level; grid [i] stands for the grid at time [i]. *)
Definition ten_times : Dataset (G:=Z) :=
  MkDataset (seqZ 0 10) [500]%Z
    [("HGT", (λ i : Z, [i]) <$> seqZ 0 10)].

Definition ten_times_obj : DataObj (G:=Z) := MkDataObj (Some ten_times) (seqZ 0 10).

(** Three dates of two variables at two levels, as float64 values; one
    value is 0.1, which float32 does not hold, and one is the fill value. *)
Definition tenth : spec_float := S754_finite false 7205759403792794 (-56).

Definition three_dates : Dataset (G:=spec_float) :=
  MkDataset [0; 6; 12]%Z [500; 850]%Z
    [("HGT", [[F64.of_nat 1; F64.of_nat 2]; [F64.of_nat 3; F64.of_nat 4];
              [F64.of_nat 5; F64.of_nat 6]]);
     ("TMP", [[tenth; F64.of_nat 8]; [F64.of_nat 9; F64.of_nat 10];
              [fill_value; F64.of_nat 12]])].

Definition three_dates_obj : DataObj (G:=spec_float) :=
  MkDataObj (Some three_dates) [0; 6; 12]%Z.

(** A preprocessor on the ten-date dataset that has produced nothing yet. *)
Definition demo_preprocessor : PreprocessorObject.Preprocessor (G:=Z) :=
  PreprocessorObject.MkPreprocessor ten_times_obj "predictors.nc" None.

(** An estimator with a single sample whose model maps two input time
    steps to two output time steps of feature [b]. *)
Definition single_sample_model : Model (V:=Z) :=
  MkModel DLWPNeuralNet 2
    (λ x, (λ smp : list (list Z), (λ feats : list Z, drop 1 feats) <$> smp) <$> x).

Definition single_sample_generator : Generator (V:=Z) :=
  MkGenerator SeriesDataGenerator None ["sample"; "varlev"; "lat"; "lon"]
    ["predictors"] [0; 6; 12]%Z
    (only_varlev ["a"; "b"]) Demo.no_coords Demo.no_coords
    (only_varlev ["a"; "b"]) (only_varlev ["b"]) 2 2 1
    [ [[1; 2]; [3; 5]] ]%Z.

Definition single_sample_estimator : TimeSeriesEstimator (V:=Z) :=
  {| model := single_sample_model;
     generator := single_sample_generator;
     _add_insolation := false;
     _uses_varlev := true;
     _has_targets := false;
     _is_series := true;
     _output_sel := only_varlev ["b"];
     _input_sel := only_varlev ["a"; "b"];
     _outputs_in_inputs := only_varlev ["b"];
     _dt := 6;
     _input_time_steps := 2;
     _output_time_steps := 2 |}.

(** * Properties *)

(** ** Floating-point comparisons *)

Lemma SFltb_not_leb x y : SFltb x y = true → SFleb y x = false.
Proof.
  unfold SFltb, SFleb.
  destruct x as [sx|sx| |sx mx ex], y as [sy|sy| |sy my ey]; simpl;
    try destruct sx; try destruct sy; simpl; try done.
  all: rewrite (Z.compare_antisym ex ey).
  all: destruct (ex ?= ey)%Z; simpl; try done.
  all: pose proof (Pos.compare_cont_antisym mx my Eq) as H; simpl in H.
  all: rewrite <- H; by destruct (Pos.compare_cont Eq mx my).
Qed.

Lemma threshold_rejected th :
  F64.ltb th F64.zero = true ∨ F64.gtb th F64.one = true ∨ F64.isnan th = true →
  threshold_ok (Some th) = false.
Proof.
  unfold threshold_ok, F64.ltb, F64.gtb, F64.leb.
  intros [H|[H|H]].
  - by rewrite (SFltb_not_leb _ _ H).
  - rewrite (SFltb_not_leb _ _ H). apply andb_false_r.
  - by destruct th.
Qed.

Lemma is_large_nan dt : is_large dt F64.nan = false.
Proof. by destruct dt. Qed.

Lemma fill_large_idemp a : fill_large (fill_large a) = fill_large a.
Proof.
  unfold fill_large; simpl. f_equal.
  rewrite <- list_fmap_compose. apply list_fmap_ext.
  intros i x _; simpl. destruct (is_large (dtype a) x) eqn:E; [|by rewrite E].
  by rewrite is_large_nan.
Qed.

(** ** Shapes and rows *)

Lemma size_of_cons n sh : size_of (n :: sh) = n * size_of sh.
Proof. reflexivity. Qed.

Lemma filter_nonneg_of_nat (sh : list nat) :
  filter (λ d, 0 ≤ d)%Z (Z.of_nat <$> sh) = Z.of_nat <$> sh.
Proof.
  induction sh as [|n sh IH]; [done|].
  rewrite fmap_cons, filter_cons_True by lia. by rewrite IH.
Qed.

Lemma filter_neg_of_nat (sh : list nat) :
  filter (λ d, d < 0)%Z (Z.of_nat <$> sh) = [].
Proof.
  induction sh as [|n sh IH]; [done|].
  rewrite fmap_cons, filter_cons_False by lia. done.
Qed.

Lemma to_nat_of_nat (sh : list nat) : Z.to_nat <$> (Z.of_nat <$> sh) = sh.
Proof.
  rewrite <- list_fmap_compose. rewrite <- (list_fmap_id sh) at 2.
  apply list_fmap_ext. intros i n _; simpl. lia.
Qed.

Lemma reshape_exact sh sh0 buf dt :
  length buf = size_of sh →
  reshape (Z.of_nat <$> sh) (NdArray sh0 buf dt) = Ok (NdArray sh buf dt).
Proof.
  intros Hlen. unfold reshape, fix_unknown_dimension; simpl.
  rewrite filter_neg_of_nat, filter_nonneg_of_nat, !to_nat_of_nat; simpl.
  by rewrite decide_True.
Qed.

Lemma reshape_rows n ps a :
  shape a = n :: ps → wf_array a → 0 < n →
  reshape [Z.of_nat n; -1]%Z a = Ok (NdArray [n; size_of ps] (data a) (dtype a)).
Proof.
  intros Hsh Hwf Hn. unfold wf_array in Hwf. rewrite Hsh, size_of_cons in Hwf.
  unfold reshape, fix_unknown_dimension.
  rewrite filter_cons_False, filter_cons_True, filter_nil by lia.
  rewrite filter_cons_True, filter_cons_False, filter_nil by lia.
  simpl. rewrite Nat2Z.id, Nat.mul_1_r, Hwf.
  rewrite decide_False; simpl.
  - rewrite decide_False by lia.
    rewrite (Nat.mul_comm n), Nat.div_mul by lia. done.
  - intros [?|H]; [lia|]. apply H. rewrite Nat.mul_comm.
    apply Nat.Div0.mod_mul.
Qed.

Lemma reshape_empty ps a :
  shape a = 0 :: ps → reshape [Z.of_nat 0; -1]%Z a = Raise ValueError.
Proof. intros _. reflexivity. Qed.

Lemma length_row m buf i n :
  length buf = n * m → i < n → length (row m buf i) = m.
Proof.
  intros Hlen Hi. unfold row. rewrite length_take, length_drop, Hlen. nia.
Qed.

Lemma row_concat m (ls : list (list spec_float)) i l :
  Forall (λ l, length l = m) ls → ls !! i = Some l → row m (concat ls) i = l.
Proof.
  intros Hall. revert i. induction Hall as [|x ls Hx Hall IH]; intros i Hi; [done|].
  destruct i as [|i]; simpl in *.
  - injection Hi as ->. unfold row. rewrite Nat.mul_0_l, drop_0.
    by apply take_app_length'.
  - unfold row in *. rewrite <- (IH i Hi). f_equal.
    rewrite Nat.mul_succ_l, Nat.add_comm. by apply drop_app_add'.
Qed.

Lemma rows_of_concat m (ls : list (list spec_float)) :
  Forall (λ l, length l = m) ls → rows_of (length ls) m (concat ls) = ls.
Proof.
  intros Hall. unfold rows_of. apply list_eq. intros i.
  rewrite list_lookup_fmap.
  destruct (decide (i < length ls)) as [Hi|Hi].
  - rewrite lookup_seq_lt by done; simpl.
    destruct (lookup_lt_is_Some_2 ls i Hi) as [l Hl].
    rewrite Hl. f_equal. by apply row_concat.
  - rewrite lookup_ge_None_2 by (rewrite length_seq; lia).
    by rewrite lookup_ge_None_2 by lia.
Qed.

(** ** Index lists *)

Lemma where_axis0_spec k mask i :
  i ∈ where_axis0 k mask ↔ ∃ j r, i = k + j ∧ mask !! j = Some r ∧ true ∈ r.
Proof.
  revert k. induction mask as [|r rs IH]; intros k; simpl.
  - split; [by intros ?%elem_of_nil|]. by intros (j & r & _ & ? & _).
  - rewrite elem_of_app, IH, list_elem_of_fmap. split.
    + intros [(b & -> & [-> Hb]%list_elem_of_filter)|(j & r' & -> & Hj & Hr)].
      * exists 0, r. split; [lia|done].
      * exists (S j), r'. split; [lia|done].
    + intros (j & r' & -> & Hj & Hr). destruct j as [|j]; simpl in Hj.
      * injection Hj as ->. left. exists true. split; [lia|].
        by apply list_elem_of_filter.
      * right. exists j, r'. split; [lia|done].
Qed.

Lemma where1_spec k mask i :
  i ∈ where1 k mask ↔ ∃ j, i = k + j ∧ mask !! j = Some true.
Proof.
  revert k. induction mask as [|b bs IH]; intros k; simpl.
  - split; [by intros ?%elem_of_nil|]. by intros (j & _ & ?).
  - rewrite elem_of_app, IH. split.
    + intros [Hb|(j & -> & Hj)].
      * destruct b; [|by apply elem_of_nil in Hb].
        apply list_elem_of_singleton in Hb as ->. exists 0. split; [lia|done].
      * exists (S j). split; [lia|done].
    + intros (j & -> & Hj). destruct j as [|j]; simpl in Hj.
      * injection Hj as ->. left. rewrite Nat.add_0_r. apply list_elem_of_here.
      * right. exists j. split; [lia|done].
Qed.

Lemma bad_rows_spec th rows i :
  i ∈ bad_rows th rows ↔ ∃ r, rows !! i = Some r ∧ row_bad th r = true.
Proof.
  destruct th as [th|]; simpl.
  - rewrite where1_spec. split.
    + intros (j & -> & Hj). rewrite list_lookup_fmap in Hj.
      destruct (rows !! j) as [r|] eqn:E; [|done]. exists r. simpl in *.
      split; [done|congruence].
    + intros (r & Hr & Hb). exists i. split; [done|].
      by rewrite list_lookup_fmap, Hr; simpl; rewrite Hb.
  - rewrite where_axis0_spec. split.
    + intros (j & m & -> & Hj & Hm). rewrite list_lookup_fmap in Hj.
      destruct (rows !! j) as [r|] eqn:E; [|done]. exists r. simpl in *.
      split; [done|]. injection Hj as <-. apply bool_decide_eq_true.
      apply list_elem_of_fmap in Hm as (x & Hx & Hin).
      apply Exists_exists. by exists x.
    + intros (r & Hr & Hb). exists i, (F64.isnan <$> r).
      split; [done|]. rewrite list_lookup_fmap, Hr. split; [done|].
      apply bool_decide_eq_true, Exists_exists in Hb as (x & Hin & Hx).
      apply list_elem_of_fmap. by exists x.
Qed.

Lemma np_delete_aux (P : nat → Prop) `{∀ i, Decision (P i)}
    (f : nat → list spec_float) j n :
  snd <$> filter (λ ir : nat * list spec_float, P ir.1)
                 (imap (λ k, pair (j + k)) (f <$> seq j n))
  = f <$> filter P (seq j n).
Proof.
  revert j. induction n as [|n IH]; intros j; [done|].
  change (seq j (S n)) with (j :: seq (S j) n).
  rewrite fmap_cons, imap_cons, Nat.add_0_r.
  rewrite (imap_ext _ (λ k, pair (S j + k))) by (intros; simpl; f_equal; lia).
  destruct (decide (P j)) as [Hj|Hj].
  - rewrite !filter_cons_True by done. by rewrite !fmap_cons, IH.
  - rewrite !filter_cons_False by done. by rewrite IH.
Qed.

Lemma np_delete_rows (f : nat → list spec_float) n obj :
  (∀ i, i ∈ obj → i < n) →
  np_delete (f <$> seq 0 n) obj = Ok (f <$> filter (λ i, i ∉ obj) (seq 0 n)).
Proof.
  intros Hobj. unfold np_delete. rewrite decide_False.
  - f_equal. exact (np_delete_aux (λ i, i ∉ obj) f 0 n).
  - intros (i & Hi & Hge)%Exists_exists.
    rewrite length_fmap, length_seq in Hge. apply Hobj in Hi. lia.
Qed.

Lemma filter_ext_elem {A} (P Q : A → Prop) `{∀ x, Decision (P x)}
    `{∀ x, Decision (Q x)} (l : list A) :
  (∀ x, x ∈ l → P x ↔ Q x) → filter P l = filter Q l.
Proof.
  induction l as [|x l IH]; intros HPQ; [done|].
  assert (filter P l = filter Q l) as IH'.
  { apply IH. intros y Hy. apply HPQ. by apply list_elem_of_further. }
  destruct (decide (P x)) as [HP|HP].
  - rewrite !filter_cons_True; [by rewrite IH'|by apply HPQ; [left|]|done].
  - rewrite !filter_cons_False; [done| |done].
    intros HQ. apply HP. by apply HPQ; [left|].
Qed.

Lemma filter_all {A} (P : A → Prop) `{∀ x, Decision (P x)} (l : list A) :
  Forall P l → filter P l = l.
Proof.
  induction 1 as [|x l Hx Hl IH]; [done|].
  by rewrite filter_cons_True, IH.
Qed.

Lemma length_concat_rows m buf n (idx : list nat) :
  length buf = n * m → Forall (λ i, i < n) idx →
  length (concat (row m buf <$> idx)) = length idx * m.
Proof.
  intros Hlen. induction 1 as [|i idx Hi Hidx IH]; [done|].
  rewrite fmap_cons. simpl. rewrite length_app, IH, (length_row m buf i n); done.
Qed.

Lemma kept_lt th p t n : Forall (λ i, i < n) (kept th p t n).
Proof.
  apply Forall_forall. intros i [_ Hi%elem_of_seq]%list_elem_of_filter. lia.
Qed.

(** ** What [reduce] computes *)

Lemma reduce_spec th p t n ps ts :
  shape p = n :: ps → shape t = n :: ts → wf_array p → wf_array t → 0 < n →
  reduce th p t = Ok (take_samples p (kept th p t n), take_samples t (kept th p t n)).
Proof.
  intros Hp Ht Hwp Hwt Hn. unfold reduce, first_dim. rewrite Hp, Ht. simpl.
  rewrite (reshape_rows n ps p), (reshape_rows n ts t) by done. simpl.
  change ([n; size_of ps] !!! 1) with (size_of ps).
  change ([n; size_of ts] !!! 1) with (size_of ts).
  unfold rows_of.
  set (bad := elements (list_to_set _)).
  assert (∀ i, i ∈ bad ↔
            i < n ∧ (row_bad th (row (size_of ps) (data p) i) = true
                     ∨ row_bad th (row (size_of ts) (data t) i) = true)) as Hbad.
  { intros i. unfold bad.
    rewrite elem_of_elements, elem_of_list_to_set, elem_of_app, !bad_rows_spec.
    split.
    - intros [(r & Hr & Hb)|(r & Hr & Hb)];
        rewrite list_lookup_fmap in Hr;
        destruct (seq 0 n !! i) as [j|] eqn:E; try done;
        apply lookup_seq in E as [-> ?]; injection Hr as <-; auto.
    - intros [Hi [Hb|Hb]]; [left|right];
        eexists; (split; [|exact Hb]);
        by rewrite list_lookup_fmap, lookup_seq_lt. }
  rewrite !np_delete_rows by (intros i Hi; by apply Hbad in Hi as [? _]).
  simpl.
  assert (filter (λ i, i ∉ bad) (seq 0 n) = kept th p t n) as ->.
  { unfold kept, sample_of. rewrite Hp, Ht; simpl.
    apply filter_ext_elem. intros i Hi%elem_of_seq. rewrite Hbad.
    destruct (row_bad th (row (size_of ps) (data p) i)),
             (row_bad th (row (size_of ts) (data t) i));
      intuition (congruence || lia). }
  rewrite !length_fmap.
  unfold wf_array in Hwp, Hwt. rewrite Hp, size_of_cons in Hwp.
  rewrite Ht, size_of_cons in Hwt.
  pose proof (kept_lt th p t n) as Hk.
  set (k := kept th p t n) in *.
  assert (∀ (m : list nat) buf dt, length buf = n * size_of m →
            reshape (Z.of_nat <$> (length k :: m))
                    (NdArray [length k; size_of m]
                             (concat (row (size_of m) buf <$> k)) dt)
            = Ok (NdArray (length k :: m)
                          (concat (row (size_of m) buf <$> k)) dt)) as Hre.
  { intros m buf dt Hbuf. apply reshape_exact.
    rewrite size_of_cons. by apply (length_concat_rows _ _ n). }
  pose proof (Hre ps (data p) (dtype p) Hwp) as Ep.
  pose proof (Hre ts (data t) (dtype t) Hwt) as Et.
  simpl in Ep, Et. rewrite Ep. simpl. rewrite Et. simpl.
  unfold take_samples, sample_of. by rewrite Hp, Ht.
Qed.

(** ** The store after the in-place fill *)

Lemma fill_heap_lookup (h : heap) pr tr r :
  alter fill_large tr (alter fill_large pr h) !! r
  = (if decide (r = pr ∨ r = tr) then fill_large <$> h !! r else h !! r).
Proof.
  rewrite !lookup_alter.
  repeat case_decide; subst; try done; try (exfalso; intuition congruence).
  rewrite <- option_fmap_compose. apply option_fmap_ext.
  intros a; simpl. apply fill_large_idemp.
Qed.

Lemma delete_nan_samples_unfold pr tr lfv th (h : heap) p t :
  threshold_ok th = true → h !! pr = Some p → h !! tr = Some t →
  fst (delete_nan_samples pr tr lfv th h) = reduce th (filled lfv p) (filled lfv t).
Proof.
  intros Hth Hp Ht. unfold delete_nan_samples. rewrite Hth; simpl.
  destruct lfv; simpl.
  - f_equal; apply lookup_total_correct; rewrite fill_heap_lookup.
    + rewrite decide_True by auto. by rewrite Hp.
    + rewrite decide_True by auto. by rewrite Ht.
  - f_equal; by apply lookup_total_correct.
Qed.

Lemma shape_filled lfv a : shape (filled lfv a) = shape a.
Proof. by destruct lfv. Qed.

Lemma wf_filled lfv a : wf_array a → wf_array (filled lfv a).
Proof.
  destruct lfv; [|done]. unfold wf_array, fill_large; simpl.
  by rewrite length_fmap.
Qed.

Lemma fill_large_fixed a :
  Forall (λ x, is_large (dtype a) x = false) (data a) → fill_large a = a.
Proof.
  intros Hall. destruct a as [sh buf dt]; unfold fill_large; simpl in *. f_equal.
  rewrite <- (list_fmap_id buf) at 2. apply list_fmap_ext.
  intros i x Hx; simpl. by rewrite (proj1 (Forall_lookup _ _) Hall i x Hx).
Qed.

Lemma not_large_filled a :
  Forall (λ x, is_large (dtype a) x = false) (data (fill_large a)).
Proof.
  apply Forall_fmap, Forall_true. intros x; simpl.
  destruct (is_large (dtype a) x) eqn:E; [apply is_large_nan|exact E].
Qed.

Lemma elem_of_concat {A} (x : A) (ls : list (list A)) :
  x ∈ concat ls ↔ ∃ l, x ∈ l ∧ l ∈ ls.
Proof.
  induction ls as [|l ls IH]; simpl.
  - split; [by intros ?%elem_of_nil|]. by intros (l & _ & ?%elem_of_nil).
  - rewrite elem_of_app, IH. split.
    + intros [?|(l' & ? & ?)]; [exists l|exists l'];
        (split; [done|]); [left|by right].
    + intros (l' & Hx & [->|?]%elem_of_cons); [by left|right; by exists l'].
Qed.

Lemma elem_of_row m buf i x : x ∈ row m buf i → x ∈ buf.
Proof.
  unfold row. intros Hx. by apply subseteq_take, subseteq_drop in Hx.
Qed.

Lemma not_large_take_samples a idx dt :
  Forall (λ x, is_large dt x = false) (data a) →
  Forall (λ x, is_large dt x = false) (data (take_samples a idx)).
Proof.
  intros Hall. apply Forall_forall. intros x Hx. simpl in Hx.
  apply elem_of_concat in Hx as (r & Hx & Hr).
  apply list_elem_of_fmap in Hr as (i & -> & _).
  apply elem_of_row in Hx. by eapply (proj1 (Forall_forall _ _) Hall).
Qed.

(** ** Samples of a reduced array *)

Lemma shape_take_samples a n ps idx :
  shape a = n :: ps → shape (take_samples a idx) = length idx :: ps.
Proof. intros Ha. unfold take_samples; simpl. by rewrite Ha. Qed.

Lemma length_sample_of a n ps i :
  shape a = n :: ps → wf_array a → i < n → length (sample_of a i) = size_of ps.
Proof.
  intros Ha Hwf Hi. unfold sample_of. rewrite Ha; simpl.
  apply (length_row _ _ _ n); [|done].
  unfold wf_array in Hwf. by rewrite Ha, size_of_cons in Hwf.
Qed.

Lemma wf_take_samples a n ps idx :
  shape a = n :: ps → wf_array a → Forall (λ i, i < n) idx →
  wf_array (take_samples a idx).
Proof.
  intros Ha Hwf Hidx. unfold wf_array. rewrite (shape_take_samples a n ps) by done.
  rewrite size_of_cons. simpl. unfold sample_of. rewrite Ha; simpl.
  apply (length_concat_rows _ _ n); [|done].
  unfold wf_array in Hwf. by rewrite Ha, size_of_cons in Hwf.
Qed.

Lemma sample_of_take_samples a n ps idx j i :
  shape a = n :: ps → wf_array a → Forall (λ i, i < n) idx →
  idx !! j = Some i → sample_of (take_samples a idx) j = sample_of a i.
Proof.
  intros Ha Hwf Hidx Hj. unfold sample_of at 1.
  rewrite (shape_take_samples a n ps) by done. simpl.
  apply row_concat.
  - apply Forall_fmap. eapply Forall_impl; [exact Hidx|].
    intros i' Hi'; simpl. by apply (length_sample_of a n ps).
  - by rewrite list_lookup_fmap, Hj.
Qed.

Lemma take_samples_all a n ps idx :
  shape a = n :: ps → wf_array a → Forall (λ i, i < n) idx →
  take_samples (take_samples a idx) (seq 0 (length idx)) = take_samples a idx.
Proof.
  intros Ha Hwf Hidx. unfold take_samples at 1.
  rewrite (shape_take_samples a n ps), length_seq by done. simpl.
  unfold take_samples at 2. rewrite Ha; simpl. do 2 f_equal.
  apply list_eq. intros j. rewrite !list_lookup_fmap.
  destruct (idx !! j) as [i|] eqn:E; simpl.
  - rewrite lookup_seq_lt by (by eapply lookup_lt_Some). simpl. f_equal.
    by apply (sample_of_take_samples a n ps).
  - apply lookup_ge_None in E.
    by rewrite lookup_ge_None_2 by (rewrite length_seq; lia).
Qed.

Lemma kept_take_samples th p t n ps ts :
  shape p = n :: ps → shape t = n :: ts → wf_array p → wf_array t →
  let k := kept th p t n in
  kept th (take_samples p k) (take_samples t k) (length k) = seq 0 (length k).
Proof.
  intros Hp Ht Hwp Hwt k. unfold kept at 1. apply filter_all.
  apply Forall_forall. intros j Hj%elem_of_seq.
  destruct (lookup_lt_is_Some_2 k j) as [i Hi]; [lia|].
  pose proof (kept_lt th p t n) as Hk.
  rewrite (sample_of_take_samples p n ps k j i),
          (sample_of_take_samples t n ts k j i) by done.
  apply list_elem_of_lookup_2 in Hi.
  by apply list_elem_of_filter in Hi as [? _].
Qed.

Lemma reduce_idempotent th p t n ps ts :
  shape p = n :: ps → shape t = n :: ts → wf_array p → wf_array t →
  let k := kept th p t n in
  0 < length k →
  reduce th (take_samples p k) (take_samples t k)
  = Ok (take_samples p k, take_samples t k).
Proof.
  intros Hp Ht Hwp Hwt k Hk.
  pose proof (kept_lt th p t n) as Hlt.
  rewrite (reduce_spec th _ _ (length k) ps ts);
    eauto using shape_take_samples, wf_take_samples.
  unfold k. rewrite (kept_take_samples th p t n ps ts) by done.
  by rewrite (take_samples_all p n ps), (take_samples_all t n ts).
Qed.

(** Idempotence of [delete_nan_samples] whenever the first call leaves at
    least one sample; the returned arrays are passed to the second call
    through any store [h'] that holds them. *)
Lemma delete_nan_samples_idempotent_nonempty
    (h h' : heap) pr tr pr' tr' lfv th p t n ps ts p' t' :
  h !! pr = Some p → h !! tr = Some t →
  shape p = n :: ps → shape t = n :: ts → wf_array p → wf_array t →
  fst (delete_nan_samples pr tr lfv th h) = Ok (p', t') →
  0 < hd 0 (shape p') →
  h' !! pr' = Some p' → h' !! tr' = Some t' →
  fst (delete_nan_samples pr' tr' lfv th h') = Ok (p', t').
Proof.
  intros Hp Ht Hsp Hst Hwp Hwt Hfirst Hne Hp' Ht'.
  assert (threshold_ok th = true) as Hth.
  { unfold delete_nan_samples in Hfirst.
    by destruct (threshold_ok th). }
  rewrite (delete_nan_samples_unfold _ _ _ _ _ p t) in Hfirst by done.
  destruct (decide (n = 0)) as [->|Hn].
  { unfold reduce, first_dim in Hfirst.
    rewrite !shape_filled, Hsp, Hst in Hfirst. simpl in Hfirst.
    unfold reshape in Hfirst. simpl in Hfirst. done. }
  rewrite (reduce_spec th _ _ n ps ts) in Hfirst
    by (rewrite ?shape_filled; auto using wf_filled with lia).
  injection Hfirst as <- <-.
  set (k := kept th (filled lfv p) (filled lfv t) n) in *.
  rewrite (delete_nan_samples_unfold _ _ _ _ _ _ _ Hth Hp' Ht').
  assert (∀ a, filled lfv (take_samples (filled lfv a) k)
               = take_samples (filled lfv a) k) as Hfix.
  { intros a. destruct lfv; [|done]. simpl.
    apply fill_large_fixed. change (dtype (take_samples (fill_large a) k))
      with (dtype a). apply not_large_take_samples, not_large_filled. }
  rewrite !Hfix.
  apply (reduce_idempotent th _ _ n ps ts);
    rewrite ?shape_filled; auto using wf_filled.
Qed.

(** ** Claims about [delete_nan_samples] *)

(** C7. With [threshold=None] and arrays of equal, non-zero sample count,
    [delete_nan_samples] returns the samples of an index list [idx] taken
    identically from both arrays; an index is missing from [idx] exactly
    when a flattened value of either array at that index is NaN; the
    returned shapes keep the trailing dimensions. *)
Theorem delete_nan_samples_removes_exactly_nan (h : heap) pr tr p t n ps ts :
  h !! pr = Some p → h !! tr = Some t →
  shape p = n :: ps → shape t = n :: ts →
  wf_array p → wf_array t → 0 < n →
  ∃ idx,
    fst (delete_nan_samples pr tr false None h)
      = Ok (take_samples p idx, take_samples t idx)
    ∧ idx `sublist_of` seq 0 n
    ∧ (∀ i, i < n →
         i ∉ idx ↔ (∃ x, x ∈ sample_of p i ∧ F64.isnan x = true)
                    ∨ (∃ x, x ∈ sample_of t i ∧ F64.isnan x = true))
    ∧ shape (take_samples p idx) = length idx :: ps
    ∧ shape (take_samples t idx) = length idx :: ts.
Proof.
  intros Hp Ht Hsp Hst Hwp Hwt Hn. exists (kept None p t n).
  split; [|split; [|split; [|split]]].
  - rewrite (delete_nan_samples_unfold _ _ _ _ _ p t) by done.
    by apply (reduce_spec None p t n ps ts).
  - apply sublist_filter.
  - intros i Hi. unfold kept. rewrite list_elem_of_filter, elem_of_seq. simpl.
    rewrite !bool_decide_eq_false.
    rewrite <- !(Exists_exists (λ x, F64.isnan x = true)).
    destruct (decide (Exists (λ x, F64.isnan x = true) (sample_of p i))),
             (decide (Exists (λ x, F64.isnan x = true) (sample_of t i)));
      intuition lia.
  - by apply (shape_take_samples p n).
  - by apply (shape_take_samples t n).
Qed.

Lemma delete_nan_samples_removes_exactly_nan_witness :
  ∃ idx,
    fst (delete_nan_samples 0 1 false None five_heap)
      = Ok (take_samples five_predictors idx, take_samples five_targets idx)
    ∧ (2 ∉ idx ↔ (∃ x, x ∈ sample_of five_predictors 2 ∧ F64.isnan x = true)
                  ∨ (∃ x, x ∈ sample_of five_targets 2 ∧ F64.isnan x = true)).
Proof.
  destruct (delete_nan_samples_removes_exactly_nan
              five_heap 0 1 five_predictors five_targets 5 [2] [1])
    as (idx & Hres & _ & Hiff & _); try reflexivity; try lia.
  exists idx. split; [exact Hres|]. apply Hiff. lia.
Defined.

(** C8, as the code behaves when no sample survives: the first call
    returns arrays with an empty sample axis, and the second call on them
    raises [ValueError] from [reshape((0, -1))]. *)
Theorem delete_nan_samples_twice_raises_when_emptied :
  let h : heap := {[ 0 := arr [1; 1] [F64.nan]; 1 := arr [1; 1] [F64.zero] ]} in
  fst (delete_nan_samples 0 1 false None h) = Ok (arr [0; 1] [], arr [0; 1] [])
  ∧ fst (delete_nan_samples 0 1 false None
           {[ 0 := arr [0; 1] []; 1 := arr [0; 1] [] ]}) = Raise ValueError.
Proof. split; vm_compute; reflexivity. Qed.

(** C10, as the claim's words read on a float32 array: the array holds
    [np.float32(1.e30)], which exceeds 1e30, and [large_fill_value=True]
    leaves it in the caller's array, because the comparison is made in the
    array's own element type. *)
Lemma float32_value_above_1e30_is_kept :
  let x := F32.round F64.c1e30 in
  let h : heap := {[ 0 := arr32 [1; 1] [F64.c1e30]; 1 := arr32 [1; 1] [F64.zero] ]} in
  h !! 0 = Some (NdArray [1; 1] [x] float32)
  ∧ F64.gtb x F64.c1e30 = true
  ∧ snd (delete_nan_samples 0 1 true None h) !! 0 = Some (NdArray [1; 1] [x] float32)
  ∧ F64.isnan x = false.
Proof. repeat split; vm_compute; reflexivity. Qed.

(** C10, amended. With a valid threshold and [large_fill_value=True], every
    value of the caller's two arrays that is greater than 1e30 or less than
    -1e30, compared in the array's own element type, is NaN in the store
    afterwards and every other value is unchanged; shapes and element types
    stay, and no other array is touched.  The arrays returned are the
    samples, taken from the two arrays as the store now holds them, that
    are not missing in either of them.  With [large_fill_value=False] the
    store is left as it was, whatever the threshold. *)
Theorem large_fill_value_mutates_in_place (h : heap) pr tr th p t :
  threshold_ok th = true → h !! pr = Some p → h !! tr = Some t →
  let h' := snd (delete_nan_samples pr tr true th h) in
  (∀ r a, (r = pr ∨ r = tr) → h !! r = Some a →
     ∃ a', h' !! r = Some a'
           ∧ shape a' = shape a ∧ dtype a' = dtype a
           ∧ length (data a') = length (data a)
           ∧ ∀ i x, data a !! i = Some x →
               data a' !! i
               = Some (if F64.gtb x (as_type (dtype a) F64.c1e30)
                          || F64.ltb x (as_type (dtype a) (F64.opp F64.c1e30))
                       then F64.nan else x))
  ∧ (∀ r, r ≠ pr → r ≠ tr → h' !! r = h !! r)
  ∧ (∀ n ps ts,
       shape p = n :: ps → shape t = n :: ts → wf_array p → wf_array t → 0 < n →
       ∃ p' t' idx,
         h' !! pr = Some p' ∧ h' !! tr = Some t'
         ∧ fst (delete_nan_samples pr tr true th h)
           = Ok (take_samples p' idx, take_samples t' idx)
         ∧ idx `sublist_of` seq 0 n
         ∧ ∀ i, i < n →
             i ∈ idx ↔ row_bad th (sample_of p' i) = false
                        ∧ row_bad th (sample_of t' i) = false)
  ∧ (∀ th', snd (delete_nan_samples pr tr false th' h) = h).
Proof.
  intros Hth Hp Ht h'.
  assert (∀ r a, (r = pr ∨ r = tr) → h !! r = Some a →
            h' !! r = Some (fill_large a)) as Hfill.
  { intros r a Hr Ha. unfold h', delete_nan_samples. rewrite Hth. simpl.
    by rewrite fill_heap_lookup, decide_True, Ha by done. }
  split; [|split; [|split]].
  - intros r a Hr Ha. exists (fill_large a).
    split; [by apply Hfill|]. split; [done|]. split; [done|]. simpl.
    rewrite length_fmap.
    split; [done|]. intros i x Hx. by rewrite list_lookup_fmap, Hx.
  - intros r Hr1 Hr2. unfold h', delete_nan_samples. rewrite Hth. simpl.
    rewrite fill_heap_lookup, decide_False; [done|].
    intros [?|?]; congruence.
  - intros n ps ts Hsp Hst Hwp Hwt Hn.
    exists (fill_large p), (fill_large t),
           (kept th (fill_large p) (fill_large t) n).
    split; [apply Hfill; auto|]. split; [apply Hfill; auto|]. split.
    + rewrite (delete_nan_samples_unfold _ _ _ _ _ p t) by done.
      apply (reduce_spec th _ _ n ps ts); try done;
        by apply (wf_filled true).
    + split; [apply sublist_filter|].
      intros i Hi. unfold kept. rewrite list_elem_of_filter, elem_of_seq.
      intuition lia.
  - intros th'. unfold delete_nan_samples. by destruct (threshold_ok th').
Qed.

Lemma large_fill_value_mutates_in_place_witness :
  let h : heap := {[ 0 := arr32 [2; 1] [huge; F64.one];
                     1 := arr32 [2; 1] [F64.zero; F64.one] ]} in
  threshold_ok None = true
  ∧ (∃ a', snd (delete_nan_samples 0 1 true None h) !! 0 = Some a'
           ∧ data a' !! 0 = Some F64.nan)
  ∧ snd (delete_nan_samples 0 1 false None h) = h.
Proof.
  intros h.
  destruct (large_fill_value_mutates_in_place h 0 1 None
              (arr32 [2; 1] [huge; F64.one]) (arr32 [2; 1] [F64.zero; F64.one]))
    as (Hfill & _ & _ & Hsame); try reflexivity.
  split; [reflexivity|]. split; [|apply Hsame].
  destruct (Hfill 0 (arr32 [2; 1] [huge; F64.one]))
    as (a' & Ha' & _ & _ & _ & Hcell); [by left|reflexivity|].
  exists a'. split; [exact Ha'|]. exact (Hcell 0 huge eq_refl).
Defined.

(** C9. [predict] with [steps < 1] raises [ValueError] and records no call
    to the generator or the model; [delete_nan_samples] with a threshold
    below 0 or above 1 raises [ValueError] and leaves the store as it was. *)
Theorem invalid_arguments_rejected {V} (nanV : V) (mean0 : list V → V)
    (insolation : Z → V) (self : TimeSeriesEstimator) (steps : Z)
    (impute keep_time_dim prefer_first_times : bool) (log : list event)
    (h : heap) (pr tr : nat) (large_fill_value : bool) (th : spec_float) :
  (steps < 1)%Z →
  F64.ltb th F64.zero = true ∨ F64.gtb th F64.one = true →
  predict nanV mean0 insolation self steps impute keep_time_dim
          prefer_first_times log = (Raise ValueError, log)
  ∧ delete_nan_samples pr tr large_fill_value (Some th) h = (Raise ValueError, h).
Proof.
  intros Hsteps Hth. split.
  - unfold predict. by rewrite decide_True.
  - unfold delete_nan_samples. rewrite threshold_rejected; [done|].
    destruct Hth; auto.
Qed.

Lemma invalid_arguments_rejected_witness :
  (0 < 1)%Z
  ∧ F64.gtb two F64.one = true
  ∧ Demo.run Demo.estimator_varlev 0 false false true = (Raise ValueError, [])
  ∧ delete_nan_samples 0 1 true (Some two) five_heap = (Raise ValueError, five_heap).
Proof.
  split; [lia|]. split; [reflexivity|].
  apply (invalid_arguments_rejected 0%Z Demo.zmean Demo.zsun
           Demo.estimator_varlev 0 false false true [] five_heap 0 1 true two).
  - lia.
  - right. reflexivity.
Defined.

Example demo_init_varlev :
  init Demo.model_2_1 Demo.generator_varlev = Ok Demo.estimator_varlev.
Proof. reflexivity. Qed.

Example demo_init_variable_level :
  init Demo.model_2_1 Demo.generator_variable_level = Ok Demo.estimator_variable_level.
Proof. vm_compute. reflexivity. Qed.

(** ** The error monad *)

Lemma bind_Ok {A B} (m : result A) (k : A → result B) b :
  m ≫= k = Ok b → ∃ a, m = Ok a ∧ k a = Ok b.
Proof. destruct m as [a|e]; [by exists a|done]. Qed.

Lemma fmap_Ok {A B} (f : A → B) (m : result A) b :
  f <$> m = Ok b → ∃ a, m = Ok a ∧ b = f a.
Proof. destruct m as [a|e]; [|done]. intros [= <-]. by exists a. Qed.

Lemma getitem_Ok {A} e (o : option A) a : getitem e o = Ok a → o = Some a.
Proof. destruct o; [|done]. by intros [= ->]. Qed.

(** ** The overlap of two selections *)

Lemma overlap_within `{EqDecision A} (out inp : list A) :
  within (overlap out inp) inp out.
Proof.
  unfold within, overlap. split; [|split].
  - intros v Hv%list_elem_of_filter. tauto.
  - apply length_filter.
  - intros Hnd. apply Nat.min_glb; [|apply length_filter].
    apply submseteq_length, NoDup_submseteq; [by apply NoDup_filter|].
    intros v Hv%list_elem_of_filter. tauto.
Qed.

Lemma within_nil {A} (inp out : list A) : within [] inp out.
Proof.
  split; [|split]; simpl; [|lia|lia]. by intros v ?%elem_of_nil.
Qed.

Lemma within_app {A} (ov inp out extra : list A) :
  within ov inp out → within ov (inp ++ extra) out.
Proof.
  intros (Hin & Hlen & Hnd). split; [|split]; [|done|].
  - intros v Hv. destruct (Hin v Hv). split; [|done].
    apply elem_of_app. by left.
  - intros H. specialize (Hnd H). rewrite length_app. lia.
Qed.

(** C6, as amended: for every estimator that [__init__] builds, each
    overlap list (compound labels, variables, levels) lies in both the
    input and the output selection and is no longer than the output
    selection; it is no longer than the smaller selection when the output
    selection repeats no label. *)
Theorem overlap_within_both_selections {V} (m : Model (V:=V)) (g : Generator)
    (self : TimeSeriesEstimator) :
  init m g = Ok self →
  within (sel_varlev (_outputs_in_inputs self))
         (sel_varlev (_input_sel self)) (sel_varlev (_output_sel self))
  ∧ within (sel_variable (_outputs_in_inputs self))
           (sel_variable (_input_sel self)) (sel_variable (_output_sel self))
  ∧ within (sel_level (_outputs_in_inputs self))
           (sel_level (_input_sel self)) (sel_level (_output_sel self)).
Proof.
  unfold init. intros H.
  destruct (decide (m_class m = OtherModel)); [done|].
  destruct (decide (g_class g = OtherGenerator)); [done|].
  apply bind_Ok in H as (s1 & _ & H). apply bind_Ok in H as (s0 & _ & H).
  apply bind_Ok in H as ([[out inp] ov] & Hsel & H).
  apply bind_Ok in H as (inp' & Hinp' & H). injection H as <-. simpl.
  assert (within (sel_varlev ov) (sel_varlev inp) (sel_varlev out)
          ∧ within (sel_variable ov) (sel_variable inp) (sel_variable out)
          ∧ within (sel_level ov) (sel_level inp) (sel_level out)) as Hw.
  { clear Hinp' inp'.
    destruct (bool_decide ("varlev" ∈ ds_dims g)).
    - apply bind_Ok in Hsel as (o & _ & Hsel).
      apply bind_Ok in Hsel as (i & _ & Hsel).
      apply bind_Ok in Hsel as (out_vl & Hout & Hsel).
      apply bind_Ok in Hsel as (ovl & Hov & Hsel).
      injection Hsel as <- <- <-. apply getitem_Ok in Hout.
      unfold sel_varlev, sel_variable, sel_level; simpl.
      split; [|split; apply within_nil]. rewrite Hout; simpl.
      destruct out_vl as [|v vs].
      + injection Hov as <-. apply within_nil.
      + apply bind_Ok in Hov as (in_vl & Hin & Hov). injection Hov as <-.
        apply getitem_Ok in Hin. rewrite Hin; simpl. apply overlap_within.
    - apply bind_Ok in Hsel as (o & _ & Hsel).
      apply bind_Ok in Hsel as (i & _ & Hsel).
      apply bind_Ok in Hsel as (in_l & _ & Hsel).
      apply bind_Ok in Hsel as (in_v & _ & Hsel).
      apply bind_Ok in Hsel as (out_l & _ & Hsel).
      apply bind_Ok in Hsel as (out_v & _ & Hsel).
      injection Hsel as <- <- <-.
      unfold sel_varlev, sel_variable, sel_level; simpl.
      split; [|split]; apply overlap_within. }
  destruct (default false (g_add_insolation g)).
  - apply bind_Ok in Hinp' as (in_vl & Hin & Hinp'). injection Hinp' as <-.
    apply getitem_Ok in Hin. destruct Hw as (Hw1 & Hw2 & Hw3).
    unfold sel_varlev, sel_variable, sel_level in *; simpl.
    rewrite Hin in Hw1; simpl in Hw1. split; [|done]. by apply within_app.
  - by injection Hinp' as <-.
Qed.

Lemma overlap_within_both_selections_witness :
  init Demo.model_2_1 Demo.generator_varlev = Ok Demo.estimator_varlev
  ∧ within (sel_varlev (_outputs_in_inputs Demo.estimator_varlev))
           (sel_varlev (_input_sel Demo.estimator_varlev))
           (sel_varlev (_output_sel Demo.estimator_varlev)).
Proof.
  split; [reflexivity|].
  apply (overlap_within_both_selections Demo.model_2_1 Demo.generator_varlev).
  reflexivity.
Defined.

(** C6 as stated fails: an output selection that names a label twice
    yields an overlap longer than the input selection. *)
Lemma overlap_exceeds_smaller_selection :
  ∃ self, init Demo.model_2_1 Demo.generator_repeated = Ok self
    ∧ sel_varlev (_input_sel self) = ["a"]
    ∧ sel_varlev (_output_sel self) = ["a"; "a"]
    ∧ ¬ (length (sel_varlev (_outputs_in_inputs self))
         ≤ length (sel_varlev (_input_sel self))
           `min` length (sel_varlev (_output_sel self))).
Proof.
  eexists. split; [reflexivity|]. split; [reflexivity|]. split; [reflexivity|].
  vm_compute. lia.
Qed.

(** ** Label lookup *)

Lemma index_of_Some `{EqDecision A} (x : A) l i :
  index_of x l = Some i → l !! i = Some x.
Proof.
  unfold index_of. intros H.
  destruct (list_find (x =.) l) as [[j y]|] eqn:E; [|done].
  injection H as ->. apply list_find_Some in E as (Hy & -> & _). done.
Qed.

Lemma index_of_NoDup `{EqDecision A} (x : A) l i :
  NoDup l → l !! i = Some x → index_of x l = Some i.
Proof.
  intros Hnd Hi. unfold index_of.
  assert (list_find (x =.) l = Some (i, x)) as ->; [|done].
  apply list_find_Some. split; [done|]. split; [done|].
  intros j y Hj Hlt ->. pose proof (NoDup_lookup _ _ _ _ Hnd Hi Hj). lia.
Qed.

Lemma index_of_elem `{EqDecision A} (x : A) l :
  x ∈ l → is_Some (index_of x l).
Proof.
  intros Hx. unfold index_of.
  destruct (list_find_elem_of (x =.) l x Hx eq_refl) as [[i y] ->]. by eexists.
Qed.

Lemma positions_Ok `{EqDecision A} (labels coord : list A) pos :
  positions labels coord = Ok pos →
  Forall2 (λ lbl p, index_of lbl coord = Some p) labels pos.
Proof.
  unfold positions. case_decide; [|done].
  intros Hm%getitem_Ok. by apply mapM_Some in Hm.
Qed.

Lemma positions_total `{EqDecision A} (labels coord : list A) :
  NoDup coord → labels ⊆ coord → ∃ pos, positions labels coord = Ok pos.
Proof.
  intros Hnd Hsub. unfold positions. rewrite decide_True by done.
  destruct (mapM (λ x, index_of x coord) labels) as [pos|] eqn:E.
  - by exists pos.
  - exfalso. assert (is_Some (mapM (λ x, index_of x coord) labels)) as [? ?].
    { apply mapM_is_Some, Forall_forall. intros x Hx.
      by apply index_of_elem, Hsub. }
    congruence.
Qed.

Lemma positions_NoDup `{EqDecision A} (labels coord : list A) pos :
  NoDup labels → positions labels coord = Ok pos → NoDup pos.
Proof.
  intros Hnd Hpos%positions_Ok. apply NoDup_alt. intros i j p Hi Hj.
  destruct (Forall2_lookup_r _ _ _ _ _ Hpos Hi) as (x & Hx & Hix).
  destruct (Forall2_lookup_r _ _ _ _ _ Hpos Hj) as (y & Hy & Hiy).
  apply index_of_Some in Hix, Hiy. assert (x = y) as -> by congruence.
  by eapply NoDup_lookup.
Qed.

Lemma positions_lt `{EqDecision A} (labels coord : list A) pos :
  positions labels coord = Ok pos → Forall (λ p, p < length coord) pos.
Proof.
  intros Hpos%positions_Ok. apply Forall_forall. intros p Hp.
  apply list_elem_of_lookup in Hp as [i Hi].
  destruct (Forall2_lookup_r _ _ _ _ _ Hpos Hi) as (x & Hx & Hix).
  apply index_of_Some in Hix. by eapply lookup_lt_Some.
Qed.

Lemma positions_length `{EqDecision A} (labels coord : list A) pos :
  positions labels coord = Ok pos → length pos = length labels.
Proof. intros Hpos%positions_Ok. symmetry. by eapply Forall2_length. Qed.

Lemma positions_drop `{EqDecision A} (l : list A) k :
  NoDup l → positions (drop k l) l = Ok (seq k (length l - k)).
Proof.
  intros Hnd. unfold positions. rewrite decide_True by done.
  assert (mapM (λ x, index_of x l) (drop k l) = Some (seq k (length l - k)))
    as ->; [|done].
  apply mapM_Some, Forall2_same_length_lookup. split.
  - by rewrite length_drop, length_seq.
  - intros i x p Hx Hp. apply lookup_seq in Hp as [-> ?].
    rewrite lookup_drop in Hx. by apply index_of_NoDup.
Qed.

(** ** Writing model output into the buffer *)

Section FeedBack.
Context {V : Type} (nanV : V).

Lemma length_assign_features fpos (vals feats : list V) :
  length (assign_features fpos vals feats) = length feats.
Proof.
  unfold assign_features. revert vals feats.
  induction fpos as [|k fpos IH]; intros [|v vals] feats; try done.
  simpl. by rewrite IH, length_insert.
Qed.

Lemma assign_features_other fpos (vals feats : list V) f :
  f ∉ fpos → assign_features fpos vals feats !! f = feats !! f.
Proof.
  unfold assign_features. revert vals feats.
  induction fpos as [|k fpos IH]; intros [|v vals] feats Hf; try done.
  apply not_elem_of_cons in Hf as [Hne Hf]. simpl.
  rewrite IH by done. by apply list_lookup_insert_ne.
Qed.

Lemma assign_features_hit fpos (vals feats : list V) b f v :
  NoDup fpos → fpos !! b = Some f → vals !! b = Some v → f < length feats →
  assign_features fpos vals feats !! f = Some v.
Proof.
  unfold assign_features. revert b vals feats.
  induction fpos as [|k fpos IH]; intros b [|w vals] feats Hnd Hb Hv Hlt;
    try done.
  apply NoDup_cons in Hnd as [Hk Hnd]. destruct b as [|b]; simpl in *.
  - injection Hb as ->. injection Hv as ->.
    pose proof (assign_features_other fpos vals (<[f:=v]> feats) f Hk) as E.
    unfold assign_features in E. rewrite E.
    by apply list_lookup_insert_eq.
  - apply (IH b); [done..|]. by rewrite length_insert.
Qed.

Lemma length_assign_times tpos fpos (val smp : list (list V)) :
  length (assign_times tpos fpos val smp) = length smp.
Proof.
  unfold assign_times. revert val smp.
  induction tpos as [|k tpos IH]; intros [|v val] smp; try done.
  simpl. by rewrite IH, length_alter.
Qed.

Lemma assign_times_other tpos fpos (val smp : list (list V)) j :
  j ∉ tpos → assign_times tpos fpos val smp !! j = smp !! j.
Proof.
  unfold assign_times. revert val smp.
  induction tpos as [|k tpos IH]; intros [|v val] smp Hj; try done.
  apply not_elem_of_cons in Hj as [Hne Hj]. simpl.
  rewrite IH by done. by apply list_lookup_alter_ne.
Qed.

Lemma assign_times_hit tpos fpos (val smp : list (list V)) a j vs :
  NoDup tpos → tpos !! a = Some j → val !! a = Some vs →
  assign_times tpos fpos val smp !! j = assign_features fpos vs <$> smp !! j.
Proof.
  unfold assign_times. revert a val smp.
  induction tpos as [|k tpos IH]; intros a [|w val] smp Hnd Ha Hv; try done.
  apply NoDup_cons in Hnd as [Hk Hnd]. destruct a as [|a]; simpl in *.
  - injection Ha as ->. injection Hv as ->.
    pose proof (assign_times_other tpos fpos val
                  (alter (assign_features fpos vs) j smp) j Hk) as E.
    unfold assign_times in E. rewrite E. apply list_lookup_alter_eq.
  - rewrite (IH a) by done. f_equal. apply list_lookup_alter_ne.
    intros ->. apply Hk. by eapply list_elem_of_lookup_2.
Qed.

Lemma assign_times_feature_other tpos fpos (val smp : list (list V)) j f :
  f ∉ fpos →
  assign_times tpos fpos val smp !! j ≫= (.!! f) = smp !! j ≫= (.!! f).
Proof.
  intros Hf. unfold assign_times. revert val smp.
  induction tpos as [|k tpos IH]; intros [|v val] smp; try done.
  simpl. rewrite IH. destruct (decide (k = j)) as [->|Hne].
  - rewrite list_lookup_alter_eq. destruct (smp !! j); [simpl|done].
    by apply assign_features_other.
  - by rewrite list_lookup_alter_ne.
Qed.

Lemma assign_loc_other_time tpos fpos (val x : list (list (list V))) i j f :
  i < length val → j ∉ tpos →
  cell (assign_loc tpos fpos val x) i j f = cell x i j f.
Proof.
  intros Hi Hj. unfold cell, assign_loc. rewrite lookup_zip_with.
  destruct (lookup_lt_is_Some_2 val i Hi) as [vs ->]. simpl.
  destruct (x !! i) as [smp|]; [simpl|done].
  by rewrite assign_times_other.
Qed.

Lemma assign_loc_other_feature tpos fpos (val x : list (list (list V))) i j f :
  i < length val → f ∉ fpos →
  cell (assign_loc tpos fpos val x) i j f = cell x i j f.
Proof.
  intros Hi Hf. unfold cell, assign_loc. rewrite lookup_zip_with.
  destruct (lookup_lt_is_Some_2 val i Hi) as [vs ->]. simpl.
  destruct (x !! i) as [smp|]; [simpl|done].
  by apply assign_times_feature_other.
Qed.

Lemma assign_loc_hit tpos fpos (val x : list (list (list V))) i j f a b v :
  NoDup tpos → NoDup fpos → tpos !! a = Some j → fpos !! b = Some f →
  cell val i a b = Some v → is_Some (cell x i j f) →
  cell (assign_loc tpos fpos val x) i j f = Some v.
Proof.
  intros Ht Hf Ha Hb Hv [u Hu]. unfold cell, assign_loc in *.
  rewrite lookup_zip_with.
  destruct (val !! i) as [vs|]; [simpl in *|done].
  destruct (x !! i) as [smp|]; [simpl in *|done].
  destruct (vs !! a) as [w|] eqn:Hw; [simpl in *|done].
  rewrite (assign_times_hit _ _ _ _ a j w) by done.
  destruct (smp !! j) as [feats|]; [simpl in *|done].
  apply (assign_features_hit _ _ _ b); try done. by eapply lookup_lt_Some.
Qed.

Lemma length_assign_loc tpos fpos (val x : list (list (list V))) :
  length val = length x → length (assign_loc tpos fpos val x) = length x.
Proof. intros H. unfold assign_loc. rewrite length_zip_with. lia. Qed.

Lemma Forall_length_assign_times tpos fpos (val smp : list (list V)) f :
  Forall (λ r, length r = f) smp →
  Forall (λ r, length r = f) (assign_times tpos fpos val smp).
Proof.
  unfold assign_times. generalize (zip tpos val). intros l. revert smp.
  induction l as [|[k w] l IH]; intros smp Hf; simpl; [done|].
  apply IH, Forall_lookup. intros j g Hg.
  destruct (decide (k = j)) as [->|Hne].
  - rewrite list_lookup_alter_eq in Hg.
    destruct (smp !! j) as [g0|] eqn:Hg0; [|done]. injection Hg as <-.
    rewrite length_assign_features. by apply (proj1 (Forall_lookup _ _) Hf j).
  - rewrite list_lookup_alter_ne in Hg by done.
    by apply (proj1 (Forall_lookup _ _) Hf j).
Qed.

Lemma has_shape_assign_loc tpos fpos (val x : list (list (list V))) n t f :
  length val = n → has_shape n t f x →
  has_shape n t f (assign_loc tpos fpos val x).
Proof.
  intros Hval [Hn Hx]. split; [by rewrite length_assign_loc; lia|].
  apply Forall_lookup. intros i smp' Hi. unfold assign_loc in Hi.
  apply lookup_zip_with_Some in Hi as (vs & smp & -> & Hvs & Hsmp).
  destruct (proj1 (Forall_lookup _ _) Hx i smp Hsmp) as [Ht Hf].
  rewrite length_assign_times. split; [done|].
  by apply Forall_length_assign_times.
Qed.

Lemma has_shape_cell (x : list (list (list V))) n t f i j k :
  has_shape n t f x → i < n → j < t → k < f →
  ∃ smp feats v, x !! i = Some smp ∧ smp !! j = Some feats ∧ feats !! k = Some v
                 ∧ length smp = t ∧ length feats = f.
Proof.
  intros [Hn Hx] Hi Hj Hk.
  destruct (lookup_lt_is_Some_2 x i) as [smp Hsmp]; [lia|].
  destruct (proj1 (Forall_lookup _ _) Hx i smp Hsmp) as [Ht Hf].
  destruct (lookup_lt_is_Some_2 smp j) as [feats Hfeats]; [lia|].
  pose proof (proj1 (Forall_lookup _ _) Hf j feats Hfeats) as Hlen.
  simpl in Hlen.
  destruct (lookup_lt_is_Some_2 feats k) as [v Hv]; [lia|].
  by exists smp, feats, v.
Qed.

Lemma length_select fout slice (x : list (list (list V))) :
  length (select nanV fout slice x) = length x.
Proof. unfold select. by rewrite length_fmap. Qed.

(** The cells of the buffer after [assign_loc], for positions resolved from
    labels: the overlap features at the selected time steps hold the
    model output, every other cell is as before. *)
Lemma write_cells (ov : list string) (r_da p_da : DataArray) n t_in t_out
    tpos fin fout slice (src : nat → nat) :
  positions ov (da_varlev p_da) = Ok fin →
  positions ov (da_varlev r_da) = Ok fout →
  NoDup tpos → NoDup ov → NoDup (da_varlev p_da) →
  has_shape n t_in (length (da_varlev p_da)) (da_values p_da) →
  has_shape n t_out (length (da_varlev r_da)) (da_values r_da) →
  (∀ a j, tpos !! a = Some j →
     src j < t_out
     ∧ ∀ smp : list (list V), length smp = t_out → slice smp !! a = smp !! src j) →
  ∀ i j f lbl, i < n → j < t_in → da_varlev p_da !! f = Some lbl →
    cell (assign_loc tpos fin (select nanV fout slice (da_values r_da))
                     (da_values p_da)) i j f
    = if decide (lbl ∈ ov ∧ j ∈ tpos)
      then k ← index_of lbl (da_varlev r_da); cell (da_values r_da) i (src j) k
      else cell (da_values p_da) i j f.
Proof.
  intros Hfin Hfout Htpos Hov Hpv Hp Hr Hslice i j f lbl Hi Hj Hf.
  pose proof (positions_Ok _ _ _ Hfin) as Hfin2.
  pose proof (positions_Ok _ _ _ Hfout) as Hfout2.
  assert (i < length (select nanV fout slice (da_values r_da))) as Hival.
  { rewrite length_select. destruct Hr as [-> _]. done. }
  case_decide as Hc.
  - destruct Hc as [Hl Hjt].
    apply list_elem_of_lookup in Hl as [b Hb].
    apply list_elem_of_lookup in Hjt as [a Ha].
    destruct (Forall2_lookup_l _ _ _ _ _ Hfin2 Hb) as (f' & Hf' & Hif).
    destruct (Forall2_lookup_l _ _ _ _ _ Hfout2 Hb) as (k & Hk & Hik).
    rewrite (index_of_NoDup lbl (da_varlev p_da) f) in Hif by done.
    injection Hif as <-. rewrite Hik. simpl.
    destruct (Hslice a j Ha) as [Hsrc Hsl].
    destruct (has_shape_cell _ _ _ _ i (src j) k Hr) as
      (rsmp & rfeats & v & Hrs & Hrf & Hv & Hlen & _); [done..| |].
    { apply index_of_Some in Hik. by eapply lookup_lt_Some. }
    assert (cell (da_values r_da) i (src j) k = Some v) as ->.
    { unfold cell. rewrite Hrs. simpl. rewrite Hrf. done. }
    apply (assign_loc_hit _ _ _ _ _ _ _ a b); try done.
    + by apply (positions_NoDup ov (da_varlev p_da)).
    + unfold cell, select. rewrite list_lookup_fmap, Hrs. simpl.
      rewrite list_lookup_fmap, (Hsl rsmp Hlen), Hrf. simpl.
      by rewrite list_lookup_fmap, Hk; simpl; rewrite Hv.
    + destruct (has_shape_cell _ _ _ _ i j f Hp) as
        (smp & feats & u & Hs & Hfe & Hu & _); [done..| |].
      { by eapply lookup_lt_Some. }
      exists u. unfold cell. rewrite Hs. simpl. by rewrite Hfe.
  - destruct (decide (j ∈ tpos)) as [Hjt|Hjt].
    + apply assign_loc_other_feature; [done|].
      intros [b Hb]%list_elem_of_lookup. apply Hc. split; [|done].
      destruct (Forall2_lookup_r _ _ _ _ _ Hfin2 Hb) as (l' & Hl' & Hil).
      apply index_of_Some in Hil. assert (l' = lbl) as -> by congruence.
      by eapply list_elem_of_lookup_2.
    + by apply assign_loc_other_time.
Qed.

Lemma NoDup_shifted (c : Z) n :
  NoDup ((λ i : nat, Z.of_nat i + c)%Z <$> seq 0 n).
Proof.
  apply NoDup_fmap_2; [|apply NoDup_seq]. intros i j Hij. lia.
Qed.

Lemma step_size_times t_in t_out pft :
  ∃ c, (step_size t_in t_out pft).2
       = (λ i : nat, Z.of_nat i + c)%Z <$> seq 0 t_in.
Proof.
  unfold step_size. case_decide; [|destruct pft]; simpl.
  - exists (- (Z.of_nat t_in - Z.of_nat t_out))%Z.
    apply list_fmap_ext. intros; lia.
  - exists 0%Z. apply list_fmap_ext. intros; lia.
  - by eexists.
Qed.

(** The effective step, and the cells of the buffer after feedback. *)
Lemma step_size_and_feed_back (t_in t_out : nat) (pft : bool) :
  (step_size t_in t_out pft).1.1 = bool_decide (t_out ≤ t_in)
  ∧ (step_size t_in t_out pft).1.2
    = (if decide (t_out ≤ t_in) then t_out else if pft then t_in else t_out)
  ∧ ∀ (ov : list string) (r_da p_da : DataArray) (n : nat),
      0 < t_out →
      da_time_step p_da = (step_size t_in t_out pft).2 →
      NoDup (da_varlev p_da) → NoDup (da_varlev r_da) → NoDup ov →
      ov ⊆ da_varlev p_da → ov ⊆ da_varlev r_da →
      has_shape n t_in (length (da_varlev p_da)) (da_values p_da) →
      has_shape n t_out (length (da_varlev r_da)) (da_values r_da) →
      ∃ p',
        feed_back nanV (step_size t_in t_out pft).1.1 pft
                  (step_size t_in t_out pft).1.2 t_in ov r_da p_da = Ok p'
        ∧ da_sample p' = da_sample p_da
        ∧ da_time_step p' = da_time_step p_da
        ∧ da_varlev p' = da_varlev p_da
        ∧ has_shape n t_in (length (da_varlev p_da)) (da_values p')
        ∧ ∀ i j f lbl, i < n → j < t_in → da_varlev p_da !! f = Some lbl →
            cell (da_values p') i j f
            = if decide (lbl ∈ ov ∧ (t_out ≤ t_in → t_in - t_out ≤ j))
              then k ← index_of lbl (da_varlev r_da);
                   cell (da_values r_da) i (source_step t_in t_out pft j) k
              else cell (da_values p_da) i j f.
Proof.
  split; [|split].
  { unfold step_size. case_decide; [|destruct pft]; simpl;
      by rewrite ?bool_decide_eq_true_2, ?bool_decide_eq_false_2 by done. }
  { unfold step_size. case_decide; [|destruct pft]; done. }
  intros ov r_da p_da n Hout Htimes Hpv Hrv Hov Hsubp Hsubr Hp Hr.
  destruct (positions_total ov (da_varlev p_da) Hpv Hsubp) as [fin Hfin].
  destruct (positions_total ov (da_varlev r_da) Hrv Hsubr) as [fout Hfout].
  assert (length (da_time_step p_da) = t_in) as Hlen.
  { rewrite Htimes. destruct (step_size_times t_in t_out pft) as [c ->].
    by rewrite length_fmap, length_seq. }
  assert (NoDup (da_time_step p_da)) as Hnt.
  { rewrite Htimes. destruct (step_size_times t_in t_out pft) as [c ->].
    apply NoDup_shifted. }
  assert (length (select nanV fout
            (if pft then take t_in else py_last t_in) (da_values r_da)) = n
          ∧ length (select nanV fout id (da_values r_da)) = n) as [Hl1 Hl2].
  { rewrite !length_select. by destruct Hr as [-> _]. }
  clear Htimes. unfold feed_back, step_size, source_step.
  destruct (decide (t_out ≤ t_in)) as [Hle|Hgt]; simpl.
  - (* keep_inputs *)
    unfold py_last. rewrite decide_False by lia. rewrite Hlen.
    rewrite (positions_drop (da_time_step p_da)) by done.
    rewrite Hlen, Hfout, Hfin. simpl.
    replace (t_in - (t_in - t_out)) with t_out by lia.
    eexists. split; [done|]. simpl. do 3 (split; [done|]).
    split; [by apply has_shape_assign_loc|].
    intros i j f lbl Hi Hj Hf.
    rewrite (write_cells ov r_da p_da n t_in t_out _ fin fout id
               (λ j, j - (t_in - t_out)) Hfin Hfout) with (lbl := lbl);
      try done.
    + apply decide_ext. rewrite elem_of_seq. intuition lia.
    + apply NoDup_seq.
    + intros a j' [-> Ha]%lookup_seq. split; [lia|]. intros smp _. simpl.
      f_equal. lia.
  - (* discard *)
    destruct pft; simpl; rewrite Hfout, Hfin; simpl; rewrite Hlen;
      (eexists; split; [done|]); simpl; do 3 (split; [done|]);
      (split; [by apply has_shape_assign_loc|]);
      intros i j f lbl Hi Hj Hf.
    + rewrite (write_cells ov r_da p_da n t_in t_out _ fin fout
                 (take t_in) (λ j, j) Hfin Hfout) with (lbl := lbl);
        try done.
      * apply decide_ext. rewrite elem_of_seq. intuition lia.
      * apply NoDup_seq.
      * intros a j' [-> Ha]%lookup_seq. simpl.
        split; [lia|]. intros smp _. by rewrite lookup_take_lt.
    + rewrite (write_cells ov r_da p_da n t_in t_out _ fin fout
                 (py_last t_in) (λ j, t_out - t_in + j) Hfin Hfout)
        with (lbl := lbl); try done.
      * apply decide_ext. rewrite elem_of_seq. intuition lia.
      * apply NoDup_seq.
      * intros a j' [-> Ha]%lookup_seq. simpl.
        split; [lia|]. intros smp Hsmp. unfold py_last.
        rewrite decide_False by lia. by rewrite lookup_drop, Hsmp.
Qed.

End FeedBack.

(** ** Imputation *)

Section Impute.
Context {V : Type} (nanV : V) (mean0 : list V → V) (insolation : Z → V).

Lemma mean_axis0_lookup t f (p : list (list (list V))) j k :
  j < t → k < f →
  mean_axis0 nanV mean0 t f p !! j ≫= (.!! k)
  = Some (mean0 ((λ smp : list (list V), default nanV (r ← smp !! j; r !! k)) <$> p)).
Proof.
  intros Hj Hk. unfold mean_axis0.
  rewrite list_lookup_fmap, lookup_seq_lt by done. simpl.
  by rewrite list_lookup_fmap, lookup_seq_lt by done.
Qed.

Lemma impute_write_Ok es p_mean (a b : DataArray (V:=V)) :
  impute_write es p_mean a = Ok b →
  let m := length (da_values a) in
  0 < es ∧ es ≤ m
  ∧ da_sample b = da_sample a ∧ da_time_step b = da_time_step a
  ∧ da_varlev b = da_varlev a
  ∧ length (da_values b) = m
  ∧ ∀ i, i < m →
      da_values b !! i
      = if decide (m - es ≤ i) then Some p_mean else da_values a !! i.
Proof.
  unfold impute_write, py_last. intros H. cbv zeta.
  set (m := length (da_values a)) in *.
  destruct (decide (es = 0)) as [|Hes]; [done|].
  rewrite length_drop in H.
  destruct (decide (_ = es)) as [Hlen|]; [|done]. injection H as <-. simpl.
  split; [lia|]. split; [lia|]. do 3 (split; [done|]).
  split. { rewrite length_app, length_take, length_replicate. lia. }
  intros i Hi. case_decide.
  - rewrite lookup_app_r by (rewrite length_take; lia).
    rewrite length_take. apply lookup_replicate_2. lia.
  - rewrite lookup_app_l by (rewrite length_take; lia).
    apply lookup_take_lt. lia.
Qed.

End Impute.

(** C3 as stated fails: with two input time steps and [es = 1], the
    newest time step of the first sample is not overwritten by the mean,
    and the older time step of the last sample is. *)
Lemma imputation_is_along_samples_not_time_steps :
  ∃ b0 b1,
    reindex 0%Z [6; 12; 18]%Z demo_initial = Ok b0
    ∧ impute_write 1 demo_mean b0 = Ok b1
    ∧ ¬ (∀ i f, i < 3 → f < 2 →
           cell (da_values b1) i 1 f = demo_mean !! 1 ≫= (.!! f))
    ∧ ¬ (∀ i f, i < 3 → f < 2 →
           cell (da_values b1) i 0 f = cell (da_values b0) i 0 f).
Proof.
  eexists _, _. split; [reflexivity|]. split; [reflexivity|]. split.
  - intros H. specialize (H 0 0). vm_compute in H.
    assert (Some 9%Z = Some 6%Z) as [=] by (apply H; lia).
  - intros H. specialize (H 2 0). vm_compute in H.
    assert (Some 4%Z = Some 0%Z) as [=] by (apply H; lia).
Qed.

(** ** Compound labels and unstacking *)

Lemma zip_const {A B} (v : A) (l : list B) :
  zip ((λ _, v) <$> l) l = (v,.) <$> l.
Proof. induction l as [|x l IH]; [done|]. simpl. by f_equal. Qed.

Lemma meshgrid_pairs (variable : list string) (level : list Z) :
  zip (concat (meshgrid level variable).2) (concat (meshgrid level variable).1)
  = cprod variable level.
Proof.
  unfold meshgrid. simpl. induction variable as [|v vs IH]; [done|].
  rewrite !fmap_cons. simpl.
  rewrite zip_with_app by (by rewrite length_fmap).
  rewrite zip_const.
  change (cprod (v :: vs) level) with (((v,.) <$> level) ++ cprod vs level).
  f_equal. exact IH.
Qed.


Lemma length_flatten_varlev variable level :
  length (flatten_varlev variable level) = length (cprod variable level).
Proof.
  unfold flatten_varlev.
  pose proof (meshgrid_pairs variable level) as E.
  destruct (meshgrid level variable) as [lev var]. simpl in E.
  by rewrite length_fmap, E.
Qed.

Lemma NoDup_cprod {A B} (l : list A) (k : list B) :
  NoDup l → NoDup k → NoDup (cprod l k).
Proof.
  intros Hl Hk. induction Hl as [|x l Hx Hl IH]; [constructor|].
  change (cprod (x :: l) k) with (((x,.) <$> k) ++ cprod l k).
  apply NoDup_app. split; [|split; [|done]].
  - apply NoDup_fmap_2; [|done]. by intros ?? [=].
  - intros [a b] Hab Hin. apply list_elem_of_fmap in Hab as (b' & [= -> ->] & _).
    apply list_elem_of_cprod in Hin as [Hin _]. done.
Qed.

Section Unstack.
Context {V : Type} (nanV : V).


End Unstack.


(** ** The sample builder *)

Section SampleBuilderProps.
Context {G : Type} `{!Grid G}.

Lemma gather_cons {B} (q : nat) (pos : list nat) (l : list B) x :
  l !! q = Some x → gather (q :: pos) l = x :: gather pos l.
Proof.
  intros Hx. unfold gather.
  change (omap (l !!.) (q :: pos))
    with (match l !! q with Some y => y :: omap (l !!.) pos | None => omap (l !!.) pos end).
  by rewrite Hx.
Qed.

Lemma gather_lookup {B} (pos : list nat) (l : list B) i p :
  Forall (λ p, p < length l) pos → pos !! i = Some p →
  gather pos l !! i = l !! p.
Proof.
  intros Hall. revert i.
  induction Hall as [|q pos Hq Hall IH]; intros i Hi; [done|].
  destruct (lookup_lt_is_Some_2 l q Hq) as [x Hx].
  rewrite (gather_cons q pos l x Hx). destruct i as [|i]; simpl in *.
  - by injection Hi as ->.
  - by apply IH.
Qed.

Lemma length_gather {B} (pos : list nat) (l : list B) :
  Forall (λ p, p < length l) pos → length (gather pos l) = length pos.
Proof.
  induction 1 as [|q pos Hq Hall IH]; [done|].
  destruct (lookup_lt_is_Some_2 l q Hq) as [x Hx].
  rewrite (gather_cons q pos l x Hx). simpl. by rewrite IH.
Qed.

Lemma list_find_filter {A} (P Q : A → Prop) `{∀ x, Decision (P x)}
    `{∀ x, Decision (Q x)} (l : list A) :
  (∀ x, P x → Q x) →
  snd <$> list_find P (filter Q l) = snd <$> list_find P l.
Proof.
  intros HPQ. induction l as [|x l IH]; [done|].
  destruct (decide (Q x)) as [HQ|HQ].
  - rewrite filter_cons_True by done. simpl.
    destruct (decide (P x)); [done|].
    destruct (list_find P (filter Q l)) as [[]|],
             (list_find P l) as [[]|]; simpl in *; congruence.
  - rewrite filter_cons_False by done. simpl.
    rewrite decide_False by (intros HP; by apply HQ, HPQ).
    rewrite IH. by destruct (list_find P l) as [[]|].
Qed.

Lemma drop_others_values (ds : Dataset (G:=G)) (keep names : list string) var s :
  var ∈ keep →
  values_at (foldl (λ ds v, if decide (v ∈ keep) then ds else drop_var v ds)
                   ds names) var s
  = values_at ds var s.
Proof.
  intros Hvar. revert ds. induction names as [|v names IH]; intros ds; [done|].
  simpl. rewrite IH. case_decide as Hv; [done|].
  unfold values_at, drop_var. simpl.
  rewrite (list_find_filter (λ nv, nv.1 = var) (λ nv, nv.1 ≠ v)); [done|].
  intros nv -> ->. done.
Qed.

Lemma list_find_named (g : list (list G) → list (list G)) var
    (l : list (string * list (list G))) :
  snd <$> (snd <$> list_find (λ nv : string * list (list G), nv.1 = var)
                             (prod_map id g <$> l))
  = g <$> (snd <$> (snd <$> list_find (λ nv : string * list (list G), nv.1 = var) l)).
Proof.
  induction l as [|[name vals] l IH]; [done|].
  rewrite fmap_cons. simpl. destruct (decide (name = var)); [done|].
  destruct (list_find _ (prod_map id g <$> l)) as [[? []]|],
           (list_find _ l) as [[? []]|]; simpl in *; congruence.
Qed.

Lemma raw_values_wf (raw : Dataset (G:=G)) var rv :
  wf_dataset raw → raw_values raw var = Some rv →
  length rv = length (ds_time raw)
  ∧ Forall (λ r, length r = length (ds_level raw)) rv.
Proof.
  intros (_ & _ & Hall) Hrv. unfold raw_values in Hrv.
  destruct (list_find _ (data_vars raw)) as [[i [name vals]]|] eqn:E; [|done].
  simpl in Hrv. injection Hrv as ->.
  apply list_find_Some in E as (Hi & _ & _).
  by apply (proj1 (Forall_lookup _ _) Hall i (name, rv)).
Qed.

(** A block read from the selected dataset holds, level by level, the raw
    grid at the selected time and level. *)
Lemma sel_values (raw : Dataset (G:=G)) dates levs tpos lpos var rv s ti :
  wf_dataset raw →
  positions dates (ds_time raw) = Ok tpos →
  positions levs (ds_level raw) = Ok lpos →
  raw_values raw var = Some rv → tpos !! s = Some ti →
  ∃ block,
    values_at (MkDataset dates levs
                 (prod_map id (λ vals, gather lpos <$> gather tpos vals)
                    <$> data_vars raw)) var s = Ok block
    ∧ length block = length levs
    ∧ ∀ k li, lpos !! k = Some li → block !! k = at2 rv ti li.
Proof.
  intros Hwf Ht Hl Hrv Hs.
  destruct (raw_values_wf raw var rv Hwf Hrv) as [Hlen Hrows].
  pose proof (positions_lt _ _ _ Ht) as Htlt.
  pose proof (positions_lt _ _ _ Hl) as Hllt.
  assert (ti < length rv) as Hti.
  { rewrite Hlen. by apply (proj1 (Forall_lookup _ _) Htlt s). }
  destruct (lookup_lt_is_Some_2 rv ti Hti) as [r Hr].
  pose proof (proj1 (Forall_lookup _ _) Hrows ti r Hr) as Hrlen. simpl in Hrlen.
  exists (gather lpos r). split; [|split].
  - unfold values_at. simpl.
    pose proof (list_find_named (λ vals, gather lpos <$> gather tpos vals)
                  var (data_vars raw)) as E.
    unfold raw_values in Hrv. rewrite Hrv in E. simpl in E.
    destruct (list_find _ (prod_map id _ <$> data_vars raw))
      as [[i [name vals]]|]; [|done].
    simpl in *. injection E as ->.
    rewrite list_lookup_fmap, (gather_lookup tpos rv s ti), Hr; [done| |done].
    by rewrite Hlen.
  - rewrite length_gather by (by rewrite Hrlen).
    by apply positions_length in Hl.
  - intros k li Hk. unfold at2. rewrite Hr. simpl.
    apply gather_lookup; [by rewrite Hrlen|done].
Qed.

(** *** The loops *)

Lemma foldM_app {A S} (f : S → A → result S) s l1 l2 :
  foldM f s (l1 ++ l2) = (s' ← foldM f s l1; foldM f s' l2).
Proof.
  revert s. induction l1 as [|x l1 IH]; intros s; [done|].
  simpl. destruct (f s x) as [s'|e]; [apply IH|done].
Qed.

Lemma fill_sample_pure
    (write : nat → nat → list G → list (list (list G)) → list (list (list G)))
    ds (vars : list string) (bp bt : string → list G) pt s :
  (∀ var, var ∈ vars →
     values_at ds var s = Ok (bp var) ∧ values_at ds var (s + 1) = Ok (bt var)) →
  fill_sample write ds vars pt s
  = Ok (foldl (λ a (vv : nat * string), write s vv.1 (bp vv.2) a) pt.1 (imap pair vars),
        foldl (λ a (vv : nat * string), write s vv.1 (bt vv.2) a) pt.2 (imap pair vars)).
Proof.
  intros Hvals. unfold fill_sample.
  assert (Forall (λ vv : nat * string, vv.2 ∈ vars) (imap pair vars)) as Hl.
  { apply Forall_forall. intros [v var] Hin.
    apply list_elem_of_lookup in Hin as [i Hi].
    rewrite list_lookup_imap in Hi.
    destruct (vars !! i) as [x|] eqn:E; [|done]. injection Hi as <- <-.
    by eapply list_elem_of_lookup_2. }
  revert pt. induction Hl as [|[v var] l Hv Hl IH]; intros [p t]; [done|].
  simpl in *. destruct (Hvals var Hv) as [-> ->]. simpl. apply IH.
Qed.

Lemma fold_alter {A B} (f : B → A → A) (s : nat) (a : list A) (l : list B) :
  foldl (λ a x, alter (f x) s a) a l
  = alter (λ r, foldl (λ r x, f x r) r l) s a.
Proof.
  revert a. induction l as [|x l IH]; intros a; simpl.
  - symmetry. by apply list_alter_id.
  - rewrite IH. apply list_alter_alter_eq.
Qed.

Lemma inserts_all {A B} (b : B → A) (vars : list B) (done row : list A) :
  length row = length vars →
  foldl (λ r (vv : nat * B), <[vv.1 := b vv.2]> r) (done ++ row)
        (imap (λ i, pair (length done + i)) vars)
  = done ++ (b <$> vars).
Proof.
  revert done row. induction vars as [|x vars IH]; intros done [|y row] Hlen;
    simpl in Hlen; try lia.
  { simpl. by rewrite app_nil_r. }
  simpl. rewrite Nat.add_0_r.
  rewrite insert_app_r_alt, Nat.sub_diag by done. simpl.
  rewrite (imap_ext _ (λ i, pair (length (done ++ [b x]) + i))).
  - rewrite (cons_middle (b x) done row), app_assoc.
    rewrite IH by (simpl in Hlen; lia).
    by rewrite <- app_assoc.
  - intros i z _. simpl. rewrite length_app. simpl. f_equal. lia.
Qed.

Lemma write_sample_row (b : string → list G) (vars : list string) s
    (a : list (list (list G))) row :
  a !! s = Some row → length row = length vars →
  foldl (λ a (vv : nat * string), write_sample s vv.1 (b vv.2) a) a (imap pair vars)
  = <[s := (λ var, astype_float32 <$> b var) <$> vars]> a.
Proof.
  intros Hrow Hlen. unfold write_sample.
  rewrite (fold_alter (λ (vv : nat * string) r,
                         <[vv.1 := astype_float32 <$> b vv.2]> r)).
  apply list_eq. intros i. destruct (decide (i = s)) as [->|Hne].
  - rewrite list_lookup_alter_eq, Hrow. simpl.
    rewrite list_lookup_insert_eq by (by eapply lookup_lt_Some). f_equal.
    by apply (inserts_all (λ var, astype_float32 <$> b var) vars [] row).
  - by rewrite list_lookup_alter_ne, list_lookup_insert_ne.
Qed.

Lemma nc_write_sample_row (b : string → list G) (vars : list string) n_level
    (a : list (list (list G))) s :
  vars ≠ [] → s = length a →
  foldl (λ c (vv : nat * string),
           nc_write_sample (length vars) n_level s vv.1 (b vv.2) c)
        a (imap pair vars)
  = a ++ [(λ var, astype_float32 <$> b var) <$> vars].
Proof.
  intros Hne Hs. remember (length vars) as n_var eqn:Hnv.
  set (fill := replicate n_var (replicate n_level (fill_grid (G:=G)))).
  assert (∀ (l : list (nat * string)) (c : list (list (list G))),
            s < length c →
            foldl (λ a vv, nc_write_sample n_var n_level s vv.1 (b vv.2) a) c l
            = foldl (λ a vv, write_sample s vv.1 (b vv.2) a) c l) as Hsame.
  { induction l as [|[v var] l IH]; intros c Hc; [done|]. simpl.
    assert (nc_write_sample n_var n_level s v (b var) c
            = write_sample s v (b var) c) as ->.
    { unfold nc_write_sample. replace (S s - length c) with 0 by lia.
      simpl. by rewrite app_nil_r. }
    apply IH. unfold write_sample. by rewrite length_alter. }
  pose proof (write_sample_row b vars s (a ++ [fill]) fill) as E.
  destruct vars as [|x vars]; [done|].
  change (imap pair (x :: vars)) with ((0, x) :: imap (pair ∘ S) vars) in *.
  simpl foldl in *.
  assert (nc_write_sample n_var n_level s 0 (b x) a
          = write_sample s 0 (b x) (a ++ [fill])) as ->.
  { unfold nc_write_sample. replace (S s - length a) with 1 by lia.
    done. }
  rewrite Hsame by (unfold write_sample; rewrite length_alter, length_app; simpl; lia).
  rewrite E.
  - subst s. rewrite insert_app_r_alt, Nat.sub_diag by done. done.
  - subst s. by rewrite lookup_app_r, Nat.sub_diag by done.
  - unfold fill. by rewrite length_replicate.
Qed.

Lemma raw_values_is_Some (raw : Dataset (G:=G)) var :
  var ∈ (fst <$> data_vars raw) → is_Some (raw_values raw var).
Proof.
  intros ([name vals] & -> & Hin)%list_elem_of_fmap. unfold raw_values. simpl.
  destruct (list_find_elem_of (λ nv : string * list (list G), nv.1 = name)
              (data_vars raw) (name, vals) Hin eq_refl) as [[i [n v]] E].
  rewrite E. by eexists.
Qed.

Lemma fill_in_memory ds (vars : list string) n_level (M m : nat) :
  (∀ s var, s ≤ M → var ∈ vars → values_at ds var s = Ok (block_of ds s var)) →
  m ≤ M →
  let fill := replicate (length vars) (replicate n_level (nan_grid (G:=G))) in
  let stored s := (λ var, astype_float32 <$> block_of ds s var) <$> vars in
  foldM (fill_sample write_sample ds vars)
        (replicate M fill, replicate M fill) (seq 0 m)
  = Ok ((stored <$> seq 0 m) ++ replicate (M - m) fill,
        ((λ s, stored (s + 1)) <$> seq 0 m) ++ replicate (M - m) fill).
Proof.
  intros Hvals Hm fill stored. induction m as [|m IH].
  { simpl. by rewrite Nat.sub_0_r. }
  rewrite seq_S, foldM_app, IH by lia. simpl.
  rewrite (fill_sample_pure write_sample ds vars (block_of ds m) (block_of ds (m + 1)))
    by (intros var Hvar; split; apply Hvals; (lia || done)).
  simpl.
  assert (∀ (bs : nat → list (list G)) (b : string → list G),
            bs m = (λ var, astype_float32 <$> b var) <$> vars →
            foldl (λ a (vv : nat * string), write_sample m vv.1 (b vv.2) a)
                  ((bs <$> seq 0 m) ++ replicate (M - m) fill) (imap pair vars)
            = (bs <$> seq 0 m ++ [m]) ++ replicate (M - S m) fill) as Hstep.
  { intros bs b Hbs.
    replace (M - m) with (S (M - S m)) by lia. simpl.
    rewrite (write_sample_row b vars m _ fill).
    - replace m with (length (bs <$> seq 0 m) + 0) at 1
        by (rewrite length_fmap, length_seq; lia).
      rewrite insert_app_r. simpl. rewrite fmap_app. simpl.
      by rewrite <- app_assoc, Hbs.
    - rewrite lookup_app_r by (rewrite length_fmap, length_seq; lia).
      by rewrite length_fmap, length_seq, Nat.sub_diag.
    - unfold fill. by rewrite length_replicate. }
  by rewrite !Hstep.
Qed.

Lemma fill_on_file ds (vars : list string) n_level (M m : nat) :
  (∀ s var, s ≤ M → var ∈ vars → values_at ds var s = Ok (block_of ds s var)) →
  vars ≠ [] → m ≤ M →
  let stored s := (λ var, astype_float32 <$> block_of ds s var) <$> vars in
  foldM (fill_sample (nc_write_sample (length vars) n_level) ds vars)
        ([], []) (seq 0 m)
  = Ok (stored <$> seq 0 m, (λ s, stored (s + 1)) <$> seq 0 m).
Proof.
  intros Hvals Hne Hm stored. induction m as [|m IH]; [done|].
  rewrite seq_S, foldM_app, IH by lia. simpl.
  rewrite (fill_sample_pure _ ds vars (block_of ds m) (block_of ds (m + 1)))
    by (intros var Hvar; split; apply Hvals; (lia || done)).
  simpl.
  rewrite !nc_write_sample_row
    by (try done; by rewrite length_fmap, length_seq).
  by rewrite !fmap_app.
Qed.

(** What every read of the loop returns on a well-formed dataset: the
    source grids of the variable at the date, level by level. *)
Lemma selected_blocks (raw : Dataset (G:=G)) (dates levs : list Z)
    (vars : list string) tpos lpos :
  wf_dataset raw →
  positions dates (ds_time raw) = Ok tpos →
  positions levs (ds_level raw) = Ok lpos →
  vars ⊆ (fst <$> data_vars raw) →
  let ds := foldl (λ ds v, if decide (v ∈ vars) then ds else drop_var v ds)
                  (MkDataset dates levs
                     (prod_map id (λ vals, gather lpos <$> gather tpos vals)
                        <$> data_vars raw))
                  (fst <$> data_vars raw) in
  ∀ s var d, dates !! s = Some d → var ∈ vars →
    values_at ds var s = Ok (block_of ds s var)
    ∧ length (block_of ds s var) = length levs
    ∧ ∀ k lev, levs !! k = Some lev →
        block_of ds s var !! k = source raw var d lev.
Proof.
  intros Hwf Htpos Hlpos Hvars ds s var d Hs Hvar.
  set (ds0 := MkDataset dates levs
                (prod_map id (λ vals, gather lpos <$> gather tpos vals)
                   <$> data_vars raw)).
  destruct (raw_values_is_Some raw var (Hvars var Hvar)) as [rv Hrv].
  destruct (Forall2_lookup_l _ _ _ _ _ (positions_Ok _ _ _ Htpos) Hs)
    as (ti & Hti & Hdi).
  destruct (sel_values raw dates levs tpos lpos var rv s ti Hwf Htpos Hlpos
              Hrv Hti) as (block & Hblock & Hlen & Hcells).
  unfold block_of, ds. rewrite (drop_others_values ds0 vars _ var s Hvar).
  fold ds0 in Hblock. rewrite Hblock. split; [done|]. split; [done|].
  intros k lev Hk.
  destruct (Forall2_lookup_l _ _ _ _ _ (positions_Ok _ _ _ Hlpos) Hk)
    as (li & Hli & Hlv).
  rewrite (Hcells k li Hli). unfold source. rewrite Hrv. simpl.
  rewrite Hdi. simpl. by rewrite Hlv.
Qed.

(** C4, amended.  Take a loaded, well-formed dataset with [N >= 1] dates
    and a non-empty selection of its variables and levels: every variable
    when ['all'] is given, the one variable named, or the variables of the
    list given, and likewise the levels.  In memory, or to a file that does
    not exist yet, [data_to_samples] returns [N - 1] predictor and target
    samples laid out as sample, variable, level.  For every selected
    variable and level, predictor [i] holds the source grid at date [i] and
    target [i] the one at date [i + 1], each converted to float32; read
    back from the file, cells equal to the fill value are NaN in addition.
    The in-memory result carries the variable and level labels; the one
    read from the file has no variable labels and float32 levels. *)
Theorem data_to_samples_pairs (raw_data : DataObj (G:=G)) (raw : Dataset)
    (file_exists in_memory : bool) (variables : selector string)
    (levels : selector Z) :
  let vars := match variables with
              | All => fst <$> data_vars raw
              | Single v => [v]
              | Several l => l
              end in
  let levs := match levels with
              | All => ds_level raw
              | Single l => [l]
              | Several l => l
              end in
  let dates := dataset_dates raw_data in
  let stored (g : G) :=
    if in_memory then astype_float32 g else mask_fill (astype_float32 g) in
  raw_Dataset raw_data = Some raw → wf_dataset raw →
  dates ⊆ ds_time raw → levs ⊆ ds_level raw →
  vars ⊆ (fst <$> data_vars raw) → vars ≠ [] →
  0 < length dates → in_memory = true ∨ file_exists = false →
  ∃ sd,
    data_to_samples raw_data file_exists variables levels in_memory = Ok sd
    ∧ sd_variable sd = (if in_memory then Some vars else None)
    ∧ sd_level sd = (if in_memory then GivenLevels levs
                     else Float32Levels (F32.of_Z <$> levs))
    ∧ length (sd_predictors sd) = length dates - 1
    ∧ length (sd_targets sd) = length dates - 1
    ∧ Forall (λ smp, length smp = length vars
                     ∧ Forall (λ blk, length blk = length levs) smp)
             (sd_predictors sd ++ sd_targets sd)
    ∧ ∀ (i v k : nat) d d' var lev,
        dates !! i = Some d → dates !! (i + 1) = Some d' →
        vars !! v = Some var → levs !! k = Some lev →
        at3 (sd_predictors sd) i v k = stored <$> source raw var d lev
        ∧ at3 (sd_targets sd) i v k = stored <$> source raw var d' lev.
Proof.
  intros vars levs dates stored Hraw Hwf Hdates Hlevs Hvars Hne HN Hmode.
  assert (vars = as_list (fst <$> data_vars raw) variables) as Evars
    by (by destruct variables).
  assert (levs = as_list (ds_level raw) levels) as Elevs
    by (by destruct levels).
  destruct Hwf as (Hnt & Hnl & Hall).
  assert (wf_dataset raw) as Hwf by done.
  destruct (positions_total dates (ds_time raw) Hnt Hdates) as [tpos Htpos].
  destruct (positions_total levs (ds_level raw) Hnl Hlevs) as [lpos Hlpos].
  set (ds0 := MkDataset dates levs
                (prod_map id (λ vals, gather lpos <$> gather tpos vals)
                   <$> data_vars raw)).
  set (ds := foldl (λ ds v, if decide (v ∈ vars) then ds else drop_var v ds)
                   ds0 (fst <$> data_vars raw)).
  set (M := length dates - 1).
  pose proof (selected_blocks raw dates levs vars tpos lpos Hwf Htpos Hlpos Hvars)
    as Hread.
  cbv zeta in Hread. fold ds0 ds in Hread.
  assert (∀ s var, s ≤ M → var ∈ vars →
            values_at ds var s = Ok (block_of ds s var)) as Hvals.
  { intros s var Hs Hvar.
    destruct (lookup_lt_is_Some_2 dates s) as [d Hd]; [unfold M in Hs; lia|].
    by destruct (Hread s var d Hd Hvar). }
  set (held s := (λ var, stored <$> block_of ds s var) <$> vars).
  exists (MkSampleData (held <$> seq 0 M) ((λ s, held (s + 1)) <$> seq 0 M)
                       (if in_memory then Some vars else None)
                       (if in_memory then GivenLevels levs
                        else Float32Levels (F32.of_Z <$> levs))).
  split.
  { unfold data_to_samples. rewrite Hraw. simpl.
    rewrite <- Evars, <- Elevs. fold dates.
    unfold sel. rewrite Htpos. simpl. rewrite Hlpos. simpl.
    fold ds0 ds. unfold py_range.
    replace (Z.to_nat (Z.of_nat (length dates) - 1)) with M by (unfold M; lia).
    unfold held, stored. destruct in_memory.
    - rewrite decide_False by lia. simpl.
      rewrite (fill_in_memory ds vars (length levs) M M) by done.
      simpl. by rewrite Nat.sub_diag, !app_nil_r.
    - destruct Hmode as [?|Hf]; [done|]. rewrite Hf. simpl.
      rewrite (fill_on_file ds vars (length levs) M M) by done.
      simpl. unfold open_dataset. simpl. f_equal. f_equal.
      + rewrite <- !list_fmap_compose. apply list_fmap_ext. intros ? s _. simpl.
        rewrite <- !list_fmap_compose. apply list_fmap_ext. intros ? var _.
        simpl. by rewrite <- list_fmap_compose.
      + rewrite <- !list_fmap_compose. apply list_fmap_ext. intros ? s _. simpl.
        rewrite <- !list_fmap_compose. apply list_fmap_ext. intros ? var _.
        simpl. by rewrite <- list_fmap_compose. }
  simpl. do 2 (split; [done|]).
  split; [by rewrite length_fmap, length_seq|].
  split; [by rewrite length_fmap, length_seq|].
  split.
  { apply Forall_app. split; apply Forall_fmap, Forall_forall;
      intros s [_ Hs]%elem_of_seq; simpl; unfold held; rewrite length_fmap;
      (split; [done|]); apply Forall_fmap, Forall_forall; intros var Hvar; simpl;
      rewrite length_fmap.
    - destruct (lookup_lt_is_Some_2 dates s) as [d Hd]; [unfold M in Hs; lia|].
      by destruct (Hread s var d Hd Hvar) as (_ & ? & _).
    - destruct (lookup_lt_is_Some_2 dates (s + 1)) as [d Hd];
        [unfold M in Hs; lia|].
      by destruct (Hread (s + 1) var d Hd Hvar) as (_ & ? & _). }
  intros i v k d d' var lev Hd Hd' Hv Hk.
  assert (i < M) as Hi by (apply lookup_lt_Some in Hd'; unfold M; lia).
  assert (var ∈ vars) as Hvar by (by eapply list_elem_of_lookup_2).
  unfold at3, at2. rewrite !list_lookup_fmap, lookup_seq_lt by done. simpl.
  unfold held. rewrite !list_lookup_fmap, Hv. simpl.
  rewrite !list_lookup_fmap.
  destruct (Hread i var d Hd Hvar) as (_ & _ & Hp).
  destruct (Hread (i + 1) var d' Hd' Hvar) as (_ & _ & Ht).
  by rewrite (Hp k lev Hk), (Ht k lev Hk).
Qed.

End SampleBuilderProps.

(** One variable out of two and one level out of two, in memory: the
    first predictor is the float32 value nearest to 0.1, the second target
    the fill value as it is. *)
Lemma data_to_samples_pairs_witness :
  ∃ sd,
    data_to_samples three_dates_obj false (Several ["TMP"]) (Single 500%Z) true
    = Ok sd
    ∧ length (sd_predictors sd) = 2
    ∧ at3 (sd_predictors sd) 0 0 0 = Some (F32.round tenth)
    ∧ at3 (sd_targets sd) 1 0 0 = Some fill_value.
Proof.
  destruct (data_to_samples_pairs three_dates_obj three_dates false true
              (Several ["TMP"]) (Single 500%Z))
    as (sd & Hsd & _ & _ & Hlen & _ & _ & Hcell).
  - reflexivity.
  - split; [compute_done|]. split; [compute_done|]. compute_done.
  - reflexivity.
  - intros x Hx%list_elem_of_singleton. subst. compute_done.
  - intros x Hx%list_elem_of_singleton. subst. compute_done.
  - discriminate.
  - simpl. lia.
  - by left.
  - exists sd. split; [exact Hsd|]. split; [exact Hlen|]. split.
    + by destruct (Hcell 0 0 0 0%Z 6%Z "TMP" 500%Z eq_refl eq_refl eq_refl eq_refl)
        as [-> _].
    + by destruct (Hcell 1 0 0 6%Z 12%Z "TMP" 500%Z eq_refl eq_refl eq_refl eq_refl)
        as [_ ->].
Defined.

(** C4 as stated fails on values that float32 does not hold: in memory the
    first predictor is not the source value 0.1 but the float32 value next
    to it; and read back from the file, a source value equal to the fill
    value has become NaN. *)
Lemma stored_grids_differ_from_source :
  (∃ sd,
     data_to_samples three_dates_obj false (Single "TMP") (Single 500%Z) true
     = Ok sd
     ∧ source three_dates "TMP" 0 500 = Some tenth
     ∧ at3 (sd_predictors sd) 0 0 0 = Some (F32.round tenth)
     ∧ F32.round tenth ≠ tenth)
  ∧ (∃ sd,
       data_to_samples three_dates_obj false (Single "TMP") (Single 500%Z) false
       = Ok sd
       ∧ source three_dates "TMP" 12 500 = Some fill_value
       ∧ at3 (sd_targets sd) 1 0 0 = Some F64.nan
       ∧ sd_variable sd = None).
Proof.
  split; eexists; (split; [vm_compute; reflexivity|]); repeat split;
    try (vm_compute; reflexivity).
  vm_compute. discriminate.
Qed.

(** ** The forecast loop on a well-formed estimator *)

Section PredictProps.
Context {V : Type} (nanV : V) (mean0 : list V → V) (insolation : Z → V).

Lemma reindex_ok in_vl in_times n t (a : DataArray (V:=V)) new_sample :
  buffer_ok in_vl in_times n t a → NoDup new_sample → length new_sample = n →
  ∃ b, reindex nanV new_sample a = Ok b
       ∧ da_sample b = new_sample ∧ buffer_ok in_vl in_times n t b.
Proof.
  intros (Hv & Ht & Hlen & Hnd & Hn & Hlx & Hx) Hnew Hnewlen.
  unfold reindex. case_decide as Hsame.
  { exists a. by rewrite Hsame. }
  rewrite decide_True by done. eexists. split; [done|].
  split; [done|]. unfold buffer_ok. simpl. do 5 (split; [done|]).
  split; [by rewrite length_fmap|].
  apply Forall_fmap, Forall_forall. intros lbl _. simpl.
  destruct (index_of lbl (da_sample a)) as [i|]; simpl.
  - destruct (da_values a !! i) as [smp|] eqn:E; simpl.
    + by apply (proj1 (Forall_lookup _ _) Hx i).
    + rewrite Ht, Hv, Hlen, length_replicate. split; [done|].
      apply Forall_replicate. by rewrite length_replicate.
  - rewrite Ht, Hv, Hlen, length_replicate. split; [done|].
    apply Forall_replicate. by rewrite length_replicate.
Qed.

Lemma mean_axis0_shape t f (p : list (list (list V))) :
  length (mean_axis0 nanV mean0 t f p) = t
  ∧ Forall (λ r, length r = f) (mean_axis0 nanV mean0 t f p).
Proof.
  unfold mean_axis0. split; [by rewrite length_fmap, length_seq|].
  apply Forall_fmap, Forall_forall. intros i _. simpl.
  by rewrite length_fmap, length_seq.
Qed.

Lemma impute_ok in_vl in_times n t (a : DataArray (V:=V)) es p_mean :
  buffer_ok in_vl in_times n t a → 0 < es → es ≤ n →
  length p_mean = t → Forall (λ r, length r = length in_vl) p_mean →
  ∃ b, impute_write es p_mean a = Ok b
       ∧ da_sample b = da_sample a ∧ buffer_ok in_vl in_times n t b.
Proof.
  intros (Hv & Ht & Hlen & Hnd & Hn & Hlx & Hx) Hes Hle Hpl Hpf.
  unfold impute_write, py_last. destruct (decide (es = 0)); [lia|].
  rewrite length_drop, Hlx, decide_True by lia.
  eexists. split; [done|]. split; [done|].
  unfold buffer_ok. simpl. do 5 (split; [done|]). split.
  - rewrite length_app, length_take, length_replicate. lia.
  - apply Forall_app. split; [by apply Forall_take|].
    by apply Forall_replicate.
Qed.

Lemma insolation_ok in_vl in_times n t (a : DataArray (V:=V)) es dt :
  buffer_ok in_vl in_times n t a → "SOL" ∈ in_vl → 0 < t →
  ∃ b, insolation_write insolation es t dt a = Ok b
       ∧ da_sample b = da_sample a ∧ buffer_ok in_vl in_times n t b.
Proof.
  intros (Hv & Ht & Hlen & Hnd & Hn & Hlx & Hx) Hsol Htpos.
  unfold insolation_write. rewrite Hv.
  destruct (index_of_elem "SOL" in_vl Hsol) as [sol ->]. simpl.
  rewrite decide_False by lia. case_decide as Hrep.
  { by exists a. }
  eexists. split; [done|]. split; [done|].
  unfold buffer_ok. simpl. do 5 (split; [done|]).
  assert (length (py_last es (da_sample a)) = length (py_last es (da_values a)))
    as Hk.
  { unfold py_last. case_decide; [lia|]. rewrite !length_drop. lia. }
  assert (length (py_last es (da_values a)) ≤ n) as Hkn.
  { unfold py_last. case_decide; [lia|]. rewrite length_drop. lia. }
  split.
  - rewrite length_app, length_take, length_zip_with. lia.
  - apply Forall_app. split; [by apply Forall_take|].
    apply Forall_lookup. intros i smp Hi.
    apply lookup_zip_with_Some in Hi as (time & smp0 & -> & _ & Hs).
    assert (smp0 ∈ da_values a) as Hin.
    { apply list_elem_of_lookup_2 in Hs. unfold py_last in Hs.
      case_decide; [done|]. by apply subseteq_drop in Hs. }
    destruct (proj1 (Forall_forall _ _) Hx smp0 Hin) as [Hl Hf].
    rewrite length_imap. split; [done|].
    apply Forall_lookup. intros k feats Hk'.
    rewrite list_lookup_imap in Hk'.
    destruct (smp0 !! k) as [g|] eqn:E; [|done]. simpl in Hk'.
    injection Hk' as <-.
    pose proof (proj1 (Forall_lookup _ _) Hf k g E) as Hg. simpl in Hg.
    case_decide; [by rewrite length_insert|done].
Qed.

Lemma io_bind_lift {A B} (a : A) (k : A → io (V:=V) B) log :
  (lift (Ok a) ≫= k) log = k a log.
Proof. reflexivity. Qed.

Lemma io_bind_emit {B} (e : event (V:=V)) (k : unit → io B) log :
  (emit e ≫= k) log = k () (log ++ [e]).
Proof. reflexivity. Qed.

Lemma step_size_positive t_in t_out pft :
  0 < t_in → 0 < t_out → 0 < (step_size t_in t_out pft).1.2.
Proof.
  intros. unfold step_size. case_decide; [|destruct pft]; simpl; lia.
Qed.

Lemma length_step_size_times t_in t_out pft :
  length (step_size t_in t_out pft).2 = t_in.
Proof.
  destruct (step_size_times t_in t_out pft) as [c ->].
  by rewrite length_fmap, length_seq.
Qed.

Lemma NoDup_shift_samples (l : list Z) (c : Z) :
  NoDup l → NoDup ((λ t, t + c)%Z <$> l).
Proof. intros. apply NoDup_fmap_2; [|done]. intros x y ?. lia. Qed.

Section Loop.
Variable self : TimeSeriesEstimator (V:=V).
Variables (in_vl out_vl ov : list string) (n : nat).
Hypothesis Hvalid : valid_estimator self in_vl out_vl ov n.
Variables (pft impute : bool).

Abbreviation t_in := (_input_time_steps self).
Abbreviation t_out := (_output_time_steps self).
Abbreviation keep_inputs := (step_size t_in t_out pft).1.1.
Abbreviation es := (step_size t_in t_out pft).1.2.
Abbreviation in_times := (step_size t_in t_out pft).2.

Hypothesis Himpute : impute = true → es ≤ n.

Variable p_mean : list (list V).
Hypothesis Hmean_len : length p_mean = t_in.
Hypothesis Hmean_row : Forall (λ r, length r = length in_vl) p_mean.

Lemma iteration_ok (p_da : DataArray (V:=V)) (res : list (list (list (list V)))) log :
  buffer_ok in_vl in_times n t_in p_da →
  ∃ p' log',
    iteration nanV insolation self keep_inputs pft impute es n p_mean
              (p_da, res) log
    = (Ok (p', res ++ [m_predict (model self) (da_values p_da)]), log')
    ∧ buffer_ok in_vl in_times n t_in p'.
Proof.
  intros Hbuf. destruct Hvalid. unfold iteration.
  pose proof (step_size_positive t_in t_out pft v_in0 v_out0) as Hes.
  rewrite io_bind_emit. rewrite v_out_sel0. simpl.
  unfold labelled. rewrite decide_False by lia. simpl.
  assert (has_shape n t_out (length out_vl)
            (m_predict (model self) (da_values p_da))) as Hout.
  { apply v_model0. by destruct Hbuf as (_ & _ & _ & _ & _ & ?). }
  rewrite decide_True
    by (by rewrite !length_fmap, length_seq, v_samples0).
  rewrite io_bind_lift. simpl.
  destruct (reindex_ok in_vl in_times n t_in p_da
              ((λ t, t + Z.of_nat es * _dt self)%Z <$> samples_used self) Hbuf)
    as (b0 & -> & Hs0 & Hb0);
    [by apply NoDup_shift_samples|by rewrite length_fmap|].
  rewrite io_bind_lift.
  assert (∃ b1, (if impute then impute_write es p_mean b0 else Ok b0) = Ok b1
                ∧ buffer_ok in_vl in_times n t_in b1) as (b1 & -> & Hb1).
  { destruct impute.
    - destruct (impute_ok in_vl in_times n t_in b0 es p_mean)
        as (b1 & ? & _ & ?); auto. by exists b1.
    - by exists b0. }
  rewrite io_bind_lift.
  assert (∃ b2, (if _add_insolation self
                 then insolation_write insolation es t_in (_dt self) b1
                 else Ok b1) = Ok b2
                ∧ buffer_ok in_vl in_times n t_in b2) as (b2 & -> & Hb2).
  { destruct (_add_insolation self).
    - destruct (insolation_ok in_vl in_times n t_in b1 es (_dt self))
        as (b2 & ? & _ & ?); auto. by exists b2.
    - by exists b1. }
  rewrite io_bind_lift. rewrite v_ov0. simpl. rewrite io_bind_lift.
  destruct Hb2 as (Hv & Ht & Hlen & Hnd & Hn & Hx).
  destruct (step_size_and_feed_back nanV t_in t_out pft) as (_ & _ & Hfeed).
  destruct (Hfeed ov
              (MkDataArray ((λ t, t + Z.of_nat es * _dt self)%Z <$> samples_used self)
                           (Z.of_nat <$> seq 0 t_out) out_vl
                           (m_predict (model self) (da_values p_da)))
              b2 n)
    as (p' & -> & Hps & Hpt & Hpv & Hpx & _); simpl; try done;
    try (by rewrite Hv).
  rewrite io_bind_lift. eexists _, _. split; [done|].
  unfold buffer_ok. rewrite Hps, Hpt, Hpv. rewrite Hv in Hpx. done.
Qed.

Lemma loop_ok (k : nat) (p_da : DataArray (V:=V)) (res : list (list (list (list V)))) log :
  buffer_ok in_vl in_times n t_in p_da →
  ∃ p' res' log',
    loop (iteration nanV insolation self keep_inputs pft impute es n p_mean)
         k (p_da, res) log
    = (Ok (p', res'), log')
    ∧ length res' = length res + k
    ∧ (Forall (has_shape n t_out (length out_vl)) res →
       Forall (has_shape n t_out (length out_vl)) res').
Proof.
  revert p_da res log. induction k as [|k IH]; intros p_da res log Hbuf.
  - exists p_da, res, log. split; [done|]. split; [lia|done].
  - destruct (iteration_ok p_da res log Hbuf) as (p1 & log1 & Hit & Hb1).
    destruct (IH p1 (res ++ [m_predict (model self) (da_values p_da)]) log1 Hb1)
      as (p' & res' & log' & Hloop & Hlen & Hshape).
    exists p', res', log'. split; [|split].
    + cbn [loop]. unfold mbind at 1, io_bind at 1. rewrite Hit. exact Hloop.
    + rewrite Hlen, length_app. simpl. lia.
    + intros Hres. apply Hshape, Forall_app. split; [done|].
      apply Forall_singleton. destruct Hvalid. apply v_model0.
      by destruct Hbuf as (_ & _ & _ & _ & _ & ?).
Qed.

End Loop.

Lemma ceil_div_mul (a b : Z) : b ≠ 0%Z → ceil_div (a * b) b = a.
Proof.
  intros Hb. unfold ceil_div. rewrite <- Z.mul_opp_l, Z.div_mul by done. lia.
Qed.

Lemma np_arange_regular (dt : Z) (k : nat) (step : Z) :
  step ≠ 0%Z →
  np_arange dt (dt + Z.of_nat k * step) step
  = Ok ((λ i : nat, dt + Z.of_nat i * step)%Z <$> seq 0 k).
Proof.
  intros Hstep. unfold np_arange. rewrite decide_False by done.
  replace (dt + Z.of_nat k * step - dt)%Z with (Z.of_nat k * step)%Z by lia.
  by rewrite ceil_div_mul, Nat2Z.id.
Qed.

Lemma length_concat_swap t (res : list (list (list (list V)))) :
  length (concat (swap_sample_time t <$> res)) = length res * t.
Proof.
  induction res as [|x res IH]; [done|].
  rewrite fmap_cons. simpl. rewrite length_app, IH.
  unfold swap_sample_time. by rewrite length_fmap, length_seq.
Qed.

Lemma assemble_ok (self : TimeSeriesEstimator (V:=V)) in_vl out_vl ov n
    (pft keep_time_dim : bool) (res : list (list (list (list V)))) :
  valid_estimator self in_vl out_vl ov n →
  _uses_varlev self = true ∨ keep_time_dim = false →
  let t_in := _input_time_steps self in
  let t_out := _output_time_steps self in
  let es := (step_size t_in t_out pft).1.2 in
  let k := length res in
  ∃ fc,
    assemble nanV self k (step_size t_in t_out pft).1.1 pft es keep_time_dim res
    = Ok fc
    ∧ leading_axis fc = (if keep_time_dim then k else k * es)
    ∧ length (f_hour_of fc) = leading_axis fc
    ∧ (keep_time_dim = false →
       f_hour_of fc
       = (λ i : nat, (Z.of_nat i + 1) * _dt self)%Z <$> seq 0 (k * es)).
Proof.
  intros Hvalid Hcase t_in t_out es k. destruct Hvalid.
  pose proof (step_size_positive t_in t_out pft v_in0 v_out0) as Hes.
  fold es in Hes. unfold assemble. rewrite v_out_sel0. simpl.
  destruct keep_time_dim.
  - destruct Hcase as [Hvl|]; [|done].
    replace ((Z.of_nat k * Z.of_nat es + 1) * _dt self)%Z
      with (_dt self + Z.of_nat k * (Z.of_nat es * _dt self))%Z by lia.
    rewrite np_arange_regular by lia. simpl.
    rewrite decide_True by (by rewrite length_fmap, length_seq). simpl.
    rewrite Hvl. eexists. split; [done|]. simpl.
    split; [done|]. split; [by rewrite length_fmap, length_seq|done].
  - replace ((Z.of_nat k * Z.of_nat es + 1) * _dt self)%Z
      with (_dt self + Z.of_nat (k * es) * _dt self)%Z by lia.
    assert (∃ res' t,
              (if negb (step_size t_in t_out pft).1.1 && pft
               then ((λ x : list (list (list V)), take es <$> x) <$> res,
                     _output_time_steps self `min` es)
               else (res, _output_time_steps self)) = (res', t)
              ∧ length res' = k ∧ t = es) as (res' & t & -> & Hlen & ->).
    { unfold es, t_in, t_out, step_size. case_decide; [|destruct pft]; simpl;
        eexists _, _; (split; [done|]); rewrite ?length_fmap;
        (split; [done|lia]). }
    rewrite np_arange_regular by done. simpl.
    rewrite decide_True
      by (by rewrite length_fmap, length_seq, length_concat_swap, Hlen).
    simpl. destruct (_uses_varlev self) eqn:Hvl.
    + eexists. split; [done|]. simpl. rewrite length_concat_swap, Hlen.
      split; [done|]. split; [by rewrite length_fmap, length_seq|].
      intros _. apply list_fmap_ext. intros; lia.
    + destruct (v_unstack0 eq_refl) as (var & lev & -> & -> & Hnv & Hnl & Hcp).
      simpl. unfold unstack.
      rewrite decide_True by (split; [done|by apply NoDup_cprod]). simpl.
      eexists. split; [done|]. simpl.
      rewrite length_fmap, length_concat_swap, Hlen.
      split; [done|]. split; [by rewrite length_fmap, length_seq|].
      intros _. apply list_fmap_ext. intros; lia.
Qed.

(** What holds of [predict] when the estimator uses compound labels or
    the time-step axis is collapsed: the forecast is returned, with [k]
    leading entries when the time-step axis is kept and [k * es] when it
    is collapsed, one forecast hour per entry, which in the collapsed case
    are [dt, 2 dt, ..., k es dt]. *)
Lemma predict_leading_axis (self : TimeSeriesEstimator (V:=V)) in_vl out_vl ov n
    (steps : Z) (impute keep_time_dim pft : bool) log :
  valid_estimator self in_vl out_vl ov n →
  (1 ≤ steps)%Z →
  let es := (step_size (_input_time_steps self) (_output_time_steps self) pft).1.2 in
  (impute = true → es ≤ n) →
  _uses_varlev self = true ∨ keep_time_dim = false →
  ∃ fc log',
    predict nanV mean0 insolation self steps impute keep_time_dim pft log
    = (Ok fc, log')
    ∧ leading_axis fc
      = (if keep_time_dim then Z.to_nat steps else Z.to_nat steps * es)
    ∧ length (f_hour_of fc) = leading_axis fc
    ∧ (keep_time_dim = false →
       f_hour_of fc
       = (λ i : nat, (Z.of_nat i + 1) * _dt self)%Z
           <$> seq 0 (Z.to_nat steps * es)).
Proof.
  intros Hvalid Hsteps. cbv zeta. intros Himp Hcase. unfold predict.
  rewrite decide_False by lia.
  pose proof Hvalid as Hv. destruct Hv.
  pose proof (loop_ok self in_vl out_vl ov n Hvalid pft impute Himp) as Hloop.
  pose proof (assemble_ok self in_vl out_vl ov n pft keep_time_dim) as Hasm.
  cbv zeta in Hasm.
  pose proof (length_step_size_times (_input_time_steps self)
                (_output_time_steps self) pft) as Htl.
  destruct (step_size (_input_time_steps self) (_output_time_steps self) pft)
    as [[keep_inputs es] in_times]. simpl in *.
  rewrite io_bind_emit. rewrite v_in_sel0. simpl.
  unfold labelled. rewrite decide_False by lia. simpl.
  rewrite decide_True by (by rewrite v_len0, v_samples0, Htl).
  rewrite io_bind_lift. simpl.
  set (p_mean := mean_axis0 nanV mean0 (_input_time_steps self) (length in_vl)
                            (g_generate (generator self))).
  destruct (mean_axis0_shape (_input_time_steps self) (length in_vl)
              (g_generate (generator self))) as [Hml Hmr].
  fold p_mean in Hml, Hmr.
  destruct (Hloop p_mean Hml Hmr (Z.to_nat steps)
              (MkDataArray (samples_used self) in_times in_vl
                           (g_generate (generator self))) [] (log ++ [Generate]))
    as (p' & res' & log' & Hrun & Hlen & _).
  { unfold buffer_ok. simpl. do 5 (split; [done|]). done. }
  unfold mbind at 1, io_bind at 1. rewrite v_len0, Hrun.
  simpl in Hlen.
  destruct (Hasm res' Hvalid Hcase) as (fc & Hfc & Hax & Hfh & Hhours).
  rewrite Hlen in Hfc, Hax, Hhours.
  exists fc, log'. unfold lift. rewrite Hfc. done.
Qed.

End PredictProps.

(** ** Claims about the shape of the forecast *)

(** C1, as the code behaves on a dataset with separate variable and level
    axes when the time-step axis is kept: the estimator built by
    [__init__] returns a two-entry collapsed series for two steps, but
    with [keep_time_dim=True] the same call raises [ValueError], because
    the final [transpose] names six of the seven dimensions. *)
Theorem predict_keep_time_dim_variable_level_raises :
  init Demo.model_2_1 Demo.generator_variable_level
  = Ok Demo.estimator_variable_level
  ∧ fst (Demo.run Demo.estimator_variable_level 2 false true true)
    = Raise ValueError
  ∧ (∃ fc, fst (Demo.run Demo.estimator_variable_level 2 false false true) = Ok fc
           ∧ leading_axis fc = 2 ∧ f_hour_of fc = [6; 12]%Z)
  ∧ (∃ fc, fst (Demo.run Demo.estimator_varlev 2 false true true) = Ok fc
           ∧ leading_axis fc = 2 ∧ f_hour_of fc = [6; 12]%Z).
Proof.
  split; [vm_compute; reflexivity|]. split; [vm_compute; reflexivity|].
  split; eexists; (split; [vm_compute; reflexivity|]); split; reflexivity.
Qed.

Lemma demo_valid :
  valid_estimator Demo.estimator_varlev ["a"; "b"] ["b"] ["b"] 3.
Proof.
  split; try done; try compute_done;
    try (intros x Hx%list_elem_of_singleton; subst; compute_done).
  - intros x [Hn Hx]. simpl in *.
    change (m_predict Demo.model_2_1 x)
      with ((λ smp : list (list Z),
               [(λ v, v + 1000)%Z <$> drop 1 (default [] (last smp))]) <$> x).
    split; [by rewrite length_fmap|].
    apply Forall_fmap. eapply Forall_impl; [exact Hx|].
    intros smp [Hl Hf]. simpl. split; [done|].
    apply Forall_singleton. rewrite length_fmap, length_drop.
    destruct smp as [|r0 [|r1 [|r2 smp]]]; try done. simpl.
    apply Forall_cons in Hf as [_ Hf]. apply Forall_cons in Hf as [Hr1 _].
    rewrite Hr1. done.
Qed.

(** The positive part applies to the demo estimator: three steps with one
    input time step fed back per step give three hourly entries. *)
Example predict_leading_axis_demo :
  ∃ fc log', Demo.run Demo.estimator_varlev 3 true false true = (Ok fc, log')
             ∧ leading_axis fc = 3
             ∧ f_hour_of fc = [6; 12; 18]%Z.
Proof.
  destruct (predict_leading_axis 0%Z Demo.zmean Demo.zsun Demo.estimator_varlev
              ["a"; "b"] ["b"] ["b"] 3 3 true false true [] demo_valid)
    as (fc & log' & Hrun & Hax & _ & Hh); [lia|simpl; lia|by right|].
  exists fc, log'. split; [exact Hrun|]. split; [exact Hax|]. by apply Hh.
Qed.

(** * Further properties *)

(** ** More about [delete_nan_samples] *)

Lemma sample_of_filled lfv a i :
  sample_of (filled lfv a) i
  = (λ x, if lfv && is_large (dtype a) x then F64.nan else x) <$> sample_of a i.
Proof.
  destruct lfv; simpl.
  - unfold sample_of, row, fill_large; simpl.
    by rewrite fmap_take, fmap_drop.
  - by rewrite list_fmap_id.
Qed.

Lemma elem_of_take_samples a idx x :
  x ∈ data (take_samples a idx) ↔ ∃ i, i ∈ idx ∧ x ∈ sample_of a i.
Proof.
  simpl. rewrite elem_of_concat. split.
  - intros (r & Hx & (i & -> & Hi)%list_elem_of_fmap). by exists i.
  - intros (i & Hi & Hx). exists (sample_of a i). split; [done|].
    apply list_elem_of_fmap. by exists i.
Qed.

Lemma take_samples_id a n ps :
  shape a = n :: ps → wf_array a → take_samples a (seq 0 n) = a.
Proof.
  intros Ha Hwf. destruct a as [sh buf dt]; simpl in *. subst sh.
  unfold take_samples, sample_of; simpl. rewrite length_seq. f_equal.
  unfold wf_array in Hwf; cbn [shape data] in Hwf. rewrite size_of_cons in Hwf.
  revert buf Hwf. induction n as [|n IH]; intros buf Hwf.
  - simpl in *. by destruct buf.
  - rewrite seq_S, fmap_app, concat_app. simpl.
    rewrite app_nil_r.
    transitivity (take (n * size_of ps) buf ++ drop (n * size_of ps) buf);
      [|apply take_drop].
    f_equal.
    + rewrite <- (IH (take (n * size_of ps) buf))
        by (rewrite length_take; lia).
      f_equal. apply list_fmap_ext. intros j i [-> Hi]%lookup_seq. simpl.
      unfold row. rewrite !take_drop_commute, take_take.
      do 2 f_equal. nia.
    + unfold row. apply take_ge. rewrite length_drop. lia.
Qed.

Lemma kept_spec th p t n i :
  i ∈ kept th p t n
  ↔ i < n ∧ row_bad th (sample_of p i) = false ∧ row_bad th (sample_of t i) = false.
Proof.
  unfold kept. rewrite list_elem_of_filter, elem_of_seq. intuition lia.
Qed.

Lemma row_bad_None r :
  row_bad None r = true ↔ ∃ x, x ∈ r ∧ F64.isnan x = true.
Proof.
  simpl. rewrite bool_decide_eq_true. apply Exists_exists.
Qed.

(** X1. With a threshold in [0, 1] and arrays of equal, non-zero sample
    count, a sample is removed exactly when the fraction of NaN among its
    flattened values, in either array, is greater than or equal to the
    threshold; the surviving samples keep their order and are the same in
    both arrays. *)
Theorem delete_nan_samples_threshold_fraction (h : heap) pr tr th p t n ps ts :
  threshold_ok (Some th) = true →
  h !! pr = Some p → h !! tr = Some t →
  shape p = n :: ps → shape t = n :: ts →
  wf_array p → wf_array t → 0 < n →
  ∃ idx,
    delete_nan_samples pr tr false (Some th) h
      = (Ok (take_samples p idx, take_samples t idx), h)
    ∧ idx `sublist_of` seq 0 n
    ∧ (∀ i, i < n →
         i ∉ idx ↔ F64.geb (mean_bool (F64.isnan <$> sample_of p i)) th = true
                    ∨ F64.geb (mean_bool (F64.isnan <$> sample_of t i)) th = true).
Proof.
  intros Hth Hp Ht Hsp Hst Hwp Hwt Hn. exists (kept (Some th) p t n).
  split; [|split].
  - pose proof (delete_nan_samples_unfold pr tr false (Some th) h p t Hth Hp Ht)
      as Hfst.
    unfold filled in Hfst.
    rewrite (reduce_spec (Some th) p t n ps ts) in Hfst by done.
    unfold delete_nan_samples in *. rewrite Hth in *. simpl in *.
    by rewrite Hfst.
  - apply sublist_filter.
  - intros i Hi. rewrite kept_spec. simpl.
    destruct (F64.geb (mean_bool (F64.isnan <$> sample_of p i)) th),
             (F64.geb (mean_bool (F64.isnan <$> sample_of t i)) th);
      intuition (congruence || lia).
Qed.

Lemma delete_nan_samples_threshold_fraction_witness :
  ∃ idx,
    delete_nan_samples 0 1 false (Some F64.one) five_heap
      = (Ok (take_samples five_predictors idx, take_samples five_targets idx),
         five_heap)
    ∧ 2 ∈ idx.
Proof.
  destruct (delete_nan_samples_threshold_fraction
              five_heap 0 1 F64.one five_predictors five_targets 5 [2] [1])
    as (idx & Hres & _ & Hiff); try reflexivity; try lia.
  exists idx. split; [exact Hres|].
  destruct (decide (2 ∈ idx)) as [|Hno]; [done|].
  apply (Hiff 2) in Hno; [|lia]. vm_compute in Hno. by destruct Hno.
Defined.

Lemma is_large_true dt x :
  is_large dt x = true
  ↔ F64.gtb x (as_type dt F64.c1e30) = true
    ∨ F64.ltb x (as_type dt (F64.opp F64.c1e30)) = true.
Proof. unfold is_large. apply orb_true_iff. Qed.

(** X2. With [large_fill_value=True] and [threshold=None], a sample is
    removed exactly when one of its values, in either of the caller's
    arrays as they were passed, is NaN, greater than 1e30 or less than
    -1e30, where 1e30 is taken in the element type of the array that holds
    the value; the returned samples are taken from the arrays after the
    fill. *)
Theorem large_values_count_as_missing (h : heap) pr tr p t n ps ts :
  h !! pr = Some p → h !! tr = Some t →
  shape p = n :: ps → shape t = n :: ts →
  wf_array p → wf_array t → 0 < n →
  let missing (a : ndarray) (x : spec_float) :=
    F64.isnan x = true
    ∨ F64.gtb x (as_type (dtype a) F64.c1e30) = true
    ∨ F64.ltb x (as_type (dtype a) (F64.opp F64.c1e30)) = true in
  ∃ idx,
    fst (delete_nan_samples pr tr true None h)
      = Ok (take_samples (fill_large p) idx, take_samples (fill_large t) idx)
    ∧ idx `sublist_of` seq 0 n
    ∧ (∀ i, i < n →
         i ∉ idx ↔ (∃ x, x ∈ sample_of p i ∧ missing p x)
                    ∨ (∃ x, x ∈ sample_of t i ∧ missing t x)).
Proof.
  intros Hp Ht Hsp Hst Hwp Hwt Hn missing.
  exists (kept None (fill_large p) (fill_large t) n).
  split; [|split].
  - rewrite (delete_nan_samples_unfold _ _ _ _ _ p t) by done.
    apply (reduce_spec None _ _ n ps ts); try done;
      by apply (wf_filled true).
  - apply sublist_filter.
  - intros i Hi. rewrite kept_spec.
    assert (∀ a, row_bad None (sample_of (fill_large a) i) = true
                 ↔ ∃ x, x ∈ sample_of a i ∧ missing a x) as Hrow.
    { intros a. rewrite row_bad_None. unfold missing.
      change (fill_large a) with (filled true a). rewrite sample_of_filled.
      split.
      - intros (y & (x & -> & Hx)%list_elem_of_fmap & Hy). exists x.
        split; [done|]. rewrite <- is_large_true. simpl in Hy.
        destruct (is_large (dtype a) x); auto.
      - intros (x & Hx & Hc). rewrite <- is_large_true in Hc.
        exists (if is_large (dtype a) x then F64.nan else x). split.
        + apply list_elem_of_fmap. by exists x.
        + destruct (is_large (dtype a) x); [done|]. by destruct Hc. }
    rewrite <- !Hrow.
    destruct (row_bad None (sample_of (fill_large p) i)),
             (row_bad None (sample_of (fill_large t) i));
      intuition (congruence || lia).
Qed.

(** In a float32 array the infinite value is removed and
    [np.float32(1.e30)] is kept. *)
Lemma large_values_count_as_missing_witness :
  let p := arr32 [2; 1] [huge; F64.c1e30] in
  let t := arr32 [2; 1] [F64.zero; F64.one] in
  ∃ idx,
    fst (delete_nan_samples 0 1 true None {[ 0 := p; 1 := t ]})
    = Ok (take_samples (fill_large p) idx, take_samples (fill_large t) idx)
    ∧ (0 ∉ idx) ∧ (1 ∈ idx).
Proof.
  intros p t.
  destruct (large_values_count_as_missing {[ 0 := p; 1 := t ]} 0 1 p t 2 [1] [1])
    as (idx & Hres & _ & Hiff); try reflexivity; try lia.
  exists idx. split; [exact Hres|]. split.
  - apply Hiff; [lia|].
    left. exists huge. split; [vm_compute; left|]. right. by left.
  - destruct (decide (1 ∈ idx)) as [|Hno]; [done|].
    apply (Hiff 1) in Hno; [|lia]. exfalso.
    destruct Hno as [(x & Hx & Hm)|(x & Hx & Hm)];
      vm_compute in Hx; apply list_elem_of_singleton in Hx; subst x;
      vm_compute in Hm; intuition discriminate.
Defined.

Lemma reduce_no_samples th p t ps :
  shape p = 0 :: ps → reduce th p t = Raise ValueError.
Proof.
  intros Hs. unfold reduce, first_dim. by rewrite Hs.
Qed.

(** X3. With [threshold=None], whatever is returned holds no NaN, and with
    [large_fill_value=True] no value greater than 1e30 or less than -1e30
    either, 1e30 being taken in the element type of the array. *)
Theorem delete_nan_samples_result_is_clean (h : heap) pr tr lfv p t n ps ts p' t' :
  h !! pr = Some p → h !! tr = Some t →
  shape p = n :: ps → shape t = n :: ts → wf_array p → wf_array t →
  fst (delete_nan_samples pr tr lfv None h) = Ok (p', t') →
  let clean (dt : float_type) (x : spec_float) :=
    F64.isnan x = false
    ∧ (lfv = true →
       F64.gtb x (as_type dt F64.c1e30) = false
       ∧ F64.ltb x (as_type dt (F64.opp F64.c1e30)) = false) in
  dtype p' = dtype p ∧ dtype t' = dtype t
  ∧ Forall (clean (dtype p)) (data p') ∧ Forall (clean (dtype t)) (data t').
Proof.
  intros Hp Ht Hsp Hst Hwp Hwt Hres clean.
  rewrite (delete_nan_samples_unfold _ _ _ _ _ p t) in Hres by done.
  destruct (decide (n = 0)) as [->|Hn].
  { by rewrite (reduce_no_samples _ _ _ ps) in Hres
      by (by rewrite shape_filled). }
  rewrite (reduce_spec None _ _ n ps ts) in Hres
    by (rewrite ?shape_filled; auto using wf_filled with lia).
  injection Hres as <- <-.
  set (k := kept None (filled lfv p) (filled lfv t) n).
  assert (∀ a,
            (∀ i, i ∈ k → row_bad None (sample_of (filled lfv a) i) = false) →
            Forall (clean (dtype a)) (data (take_samples (filled lfv a) k)))
    as Hclean.
  { intros a Hk. apply Forall_forall. intros x Hx. split.
    - apply elem_of_take_samples in Hx as (i & Hi & Hx).
      specialize (Hk i Hi). destruct (F64.isnan x) eqn:E; [|done].
      assert (row_bad None (sample_of (filled lfv a) i) = true) as Hb
        by (apply row_bad_None; eauto).
      congruence.
    - intros ->. apply orb_false_iff. revert x Hx. apply Forall_forall.
      apply (not_large_take_samples _ _ (dtype a)), not_large_filled. }
  split; [by destruct lfv|]. split; [by destruct lfv|].
  split; [apply (Hclean p)|apply (Hclean t)]; intros i Hi%kept_spec; tauto.
Qed.

(** A float32 array with an infinite value and [np.float32(1.e30)],
    cleaned with [large_fill_value=True]. *)
Lemma delete_nan_samples_result_is_clean_witness :
  let p := arr32 [2; 1] [huge; F64.c1e30] in
  let t := arr32 [2; 1] [F64.zero; F64.one] in
  ∃ p' t', fst (delete_nan_samples 0 1 true None {[ 0 := p; 1 := t ]}) = Ok (p', t')
           ∧ data p' = [F32.round F64.c1e30]
           ∧ Forall (λ x, F64.isnan x = false
                          ∧ F64.gtb x (F32.round F64.c1e30) = false)
                    (data p').
Proof.
  intros p t. eexists _, _. split; [vm_compute; reflexivity|].
  split; [vm_compute; reflexivity|].
  eapply Forall_impl.
  - refine (proj1 (proj2 (proj2
      (delete_nan_samples_result_is_clean {[ 0 := p; 1 := t ]} 0 1 true
         p t 2 [1] [1] _ _ _ _ _ _ _ _ _)))); reflexivity.
  - intros x [Hx Hl]. split; [exact Hx|]. by apply Hl.
Defined.

(** X4. Arrays of equal, non-zero sample count that hold no NaN are
    returned as they are (with [threshold=None] and no large-value fill),
    and the caller's arrays are untouched. *)
Theorem delete_nan_samples_keeps_clean_input (h : heap) pr tr p t n ps ts :
  h !! pr = Some p → h !! tr = Some t →
  shape p = n :: ps → shape t = n :: ts → wf_array p → wf_array t → 0 < n →
  Forall (λ x, F64.isnan x = false) (data p ++ data t) →
  delete_nan_samples pr tr false None h = (Ok (p, t), h).
Proof.
  intros Hp Ht Hsp Hst Hwp Hwt Hn [Hcp Hct]%Forall_app.
  pose proof (delete_nan_samples_unfold pr tr false None h p t eq_refl Hp Ht)
    as Hfst.
  unfold filled in Hfst.
  rewrite (reduce_spec None p t n ps ts) in Hfst by done.
  assert (kept None p t n = seq 0 n) as Hall.
  { apply filter_all, Forall_forall. intros i _.
    assert (∀ a, Forall (λ x, F64.isnan x = false) (data a) →
                 row_bad None (sample_of a i) = false) as Hrow.
    { intros a Ha. destruct (row_bad None (sample_of a i)) eqn:E; [|done].
      apply row_bad_None in E as (x & Hx%elem_of_row & Hnan).
      pose proof (proj1 (Forall_forall _ _) Ha x Hx) as Hx'. simpl in Hx'.
      congruence. }
    split; by apply Hrow. }
  rewrite Hall, (take_samples_id p n ps), (take_samples_id t n ts) in Hfst
    by done.
  unfold delete_nan_samples in *. simpl in *. by rewrite Hfst.
Qed.

Lemma delete_nan_samples_keeps_clean_input_witness :
  let h : heap := {[ 0 := arr [2; 1] [F64.zero; F64.one];
                     1 := arr [2; 1] [F64.one; F64.one] ]} in
  delete_nan_samples 0 1 false None h
  = (Ok (arr [2; 1] [F64.zero; F64.one], arr [2; 1] [F64.one; F64.one]), h).
Proof.
  intros h.
  apply (delete_nan_samples_keeps_clean_input h 0 1 _ _ 2 [1] [1]);
    try reflexivity; try lia.
  repeat constructor.
Defined.

(** X5. Arrays without samples are refused: a zero-length sample axis in
    either array raises [ValueError] (the row length cannot be inferred),
    and an array without any axis raises [IndexError]; this holds for every
    valid threshold and both settings of [large_fill_value]. *)
Theorem delete_nan_samples_refuses_empty_arrays (h : heap) pr tr lfv th p t :
  threshold_ok th = true → h !! pr = Some p → h !! tr = Some t →
  (shape p = [] → fst (delete_nan_samples pr tr lfv th h) = Raise IndexError)
  ∧ (∀ ps, shape p = 0 :: ps →
       fst (delete_nan_samples pr tr lfv th h) = Raise ValueError)
  ∧ (∀ n ps ts, shape p = S n :: ps → wf_array p → shape t = 0 :: ts →
       fst (delete_nan_samples pr tr lfv th h) = Raise ValueError)
  ∧ (∀ n ps, shape p = S n :: ps → wf_array p → shape t = [] →
       fst (delete_nan_samples pr tr lfv th h) = Raise IndexError).
Proof.
  intros Hth Hp Ht.
  rewrite (delete_nan_samples_unfold _ _ _ _ _ p t) by done.
  unfold reduce, first_dim. rewrite !shape_filled.
  split; [|split; [|split]].
  - by intros ->.
  - intros ps Hs. by rewrite Hs.
  - intros n ps ts Hsp Hwp Hst. rewrite Hsp, Hst. simpl.
    rewrite (reshape_rows (S n) ps)
      by (rewrite ?shape_filled; auto using wf_filled with lia).
    done.
  - intros n ps Hsp Hwp Hst. rewrite Hsp, Hst. simpl.
    by rewrite (reshape_rows (S n) ps)
      by (rewrite ?shape_filled; auto using wf_filled with lia).
Qed.

Lemma delete_nan_samples_refuses_empty_arrays_witness :
  fst (delete_nan_samples 0 1 false None
         {[ 0 := arr [0; 3] []; 1 := arr [0; 1] [] ]}) = Raise ValueError.
Proof.
  refine (proj1 (proj2 (delete_nan_samples_refuses_empty_arrays
            {[ 0 := arr [0; 3] []; 1 := arr [0; 1] [] ]} 0 1 false None
            (arr [0; 3] []) (arr [0; 1] []) _ _ _)) [3] _); reflexivity.
Defined.

(** X6. A second call on the arrays a first call returned gives the same
    arrays again, for every threshold and setting of [large_fill_value],
    whenever the first call left at least one sample. *)
Theorem delete_nan_samples_idempotent_when_samples_remain
    (h h' : heap) pr tr pr' tr' lfv th p t n ps ts p' t' :
  h !! pr = Some p → h !! tr = Some t →
  shape p = n :: ps → shape t = n :: ts → wf_array p → wf_array t →
  fst (delete_nan_samples pr tr lfv th h) = Ok (p', t') →
  0 < hd 0 (shape p') →
  h' !! pr' = Some p' → h' !! tr' = Some t' →
  fst (delete_nan_samples pr' tr' lfv th h') = Ok (p', t')
  ∧ shape p' = hd 0 (shape p') :: ps ∧ shape t' = hd 0 (shape p') :: ts.
Proof.
  intros Hp Ht Hsp Hst Hwp Hwt Hfirst Hne Hp' Ht'. split.
  - by apply (delete_nan_samples_idempotent_nonempty
                h h' pr tr pr' tr' lfv th p t n ps ts).
  - assert (threshold_ok th = true) as Hth.
    { unfold delete_nan_samples in Hfirst. by destruct (threshold_ok th). }
    rewrite (delete_nan_samples_unfold _ _ _ _ _ p t) in Hfirst by done.
    destruct (decide (n = 0)) as [->|Hn].
    { by rewrite (reduce_no_samples _ _ _ ps) in Hfirst
        by (by rewrite shape_filled). }
    rewrite (reduce_spec th _ _ n ps ts) in Hfirst
      by (rewrite ?shape_filled; auto using wf_filled with lia).
    injection Hfirst as <- <-. simpl. by rewrite !shape_filled, Hsp, Hst.
Qed.

Lemma delete_nan_samples_idempotent_when_samples_remain_witness :
  ∃ p' t',
    fst (delete_nan_samples 0 1 false None five_heap) = Ok (p', t')
    ∧ fst (delete_nan_samples 0 1 false None {[ 0 := p'; 1 := t' ]}) = Ok (p', t').
Proof.
  eexists _, _. split; [vm_compute; reflexivity|].
  apply (delete_nan_samples_idempotent_when_samples_remain
           five_heap _ 0 1 0 1 false None five_predictors five_targets 5 [2] [1]);
    try reflexivity. simpl. lia.
Defined.

(** ** Errors and edge cases of [data_to_samples] *)

Lemma positions_missing `{EqDecision A} (labels coord : list A) :
  NoDup coord → ¬ labels ⊆ coord → positions labels coord = Raise KeyError.
Proof.
  intros Hnd Hsub. unfold positions. rewrite decide_True by done.
  destruct (mapM (λ x, index_of x coord) labels) as [pos|] eqn:E; [|done].
  exfalso. apply Hsub. intros x Hx.
  apply mapM_Some_1 in E.
  apply list_elem_of_lookup in Hx as [i Hi].
  destruct (Forall2_lookup_l _ _ _ _ _ E Hi) as (p & _ & Hp).
  apply index_of_Some in Hp. by eapply list_elem_of_lookup_2.
Qed.

Section SampleBuilderEdges.
Context {G : Type} `{!Grid G}.

(** X7. Without a loaded dataset [data_to_samples] raises [IOError];
    with one, a date or a level that the dataset's coordinates do not hold
    raises [KeyError].  Both happen before the predictor file is looked at,
    so they do not depend on [in_memory] or on the file being there. *)
Theorem data_to_samples_selection_errors (raw_data : DataObj (G:=G))
    (file_exists in_memory : bool) (variables : selector string)
    (levels : selector Z) :
  (raw_Dataset raw_data = None →
   data_to_samples raw_data file_exists variables levels in_memory
   = Raise IOError)
  ∧ (∀ raw, raw_Dataset raw_data = Some raw →
       NoDup (ds_time raw) → NoDup (ds_level raw) →
       ¬ (dataset_dates raw_data ⊆ ds_time raw
          ∧ as_list (ds_level raw) levels ⊆ ds_level raw) →
       data_to_samples raw_data file_exists variables levels in_memory
       = Raise KeyError).
Proof.
  split.
  - intros Hraw. unfold data_to_samples. by rewrite Hraw.
  - intros raw Hraw Hnt Hnl Hsub. unfold data_to_samples. rewrite Hraw. simpl.
    unfold sel.
    destruct (decide (dataset_dates raw_data ⊆ ds_time raw)) as [Hd|Hd].
    + destruct (positions_total _ _ Hnt Hd) as [tpos ->]. simpl.
      rewrite positions_missing; [done|done|]. intros Hl. by apply Hsub.
    + by rewrite (positions_missing (dataset_dates raw_data)) by done.
Qed.

(** X8. With at most one date there is nothing to pair.  Writing to a
    file that exists still raises [IOError]; in memory, an empty list of
    dates raises [ValueError] (the sample count is -1); in every other case
    the call returns no sample at all, and the requested variables are never
    looked up, so a name the dataset does not have goes unnoticed. *)
Theorem data_to_samples_needs_two_dates (raw_data : DataObj (G:=G)) (raw : Dataset)
    (file_exists in_memory : bool) (variables : selector string)
    (levels : selector Z) :
  raw_Dataset raw_data = Some raw →
  NoDup (ds_time raw) → NoDup (ds_level raw) →
  dataset_dates raw_data ⊆ ds_time raw →
  as_list (ds_level raw) levels ⊆ ds_level raw →
  length (dataset_dates raw_data) ≤ 1 →
  let run := data_to_samples raw_data file_exists variables levels in_memory in
  (in_memory = false → file_exists = true → run = Raise IOError)
  ∧ (in_memory = true → dataset_dates raw_data = [] → run = Raise ValueError)
  ∧ (in_memory = false ∧ file_exists = false
     ∨ in_memory = true ∧ length (dataset_dates raw_data) = 1 →
     ∃ sd, run = Ok sd ∧ sd_predictors sd = [] ∧ sd_targets sd = []).
Proof.
  intros Hraw Hnt Hnl Hd Hl Hlen run. unfold run, data_to_samples.
  rewrite Hraw. simpl. unfold sel.
  destruct (positions_total _ _ Hnt Hd) as [tpos ->]. simpl.
  destruct (positions_total _ _ Hnl Hl) as [lpos ->]. simpl.
  unfold py_range.
  replace (Z.to_nat (Z.of_nat (length (dataset_dates raw_data)) - 1)) with 0
    by lia.
  split; [|split].
  - by intros -> ->.
  - intros -> ->. simpl. done.
  - intros [[-> ->]|[-> Hone]]; simpl.
    + by eexists.
    + rewrite decide_False by lia. simpl. by eexists.
Qed.






End SampleBuilderEdges.

Lemma data_to_samples_selection_errors_witness :
  data_to_samples ten_times_obj false All (Single 300%Z) true
  = Raise KeyError.
Proof.
  apply (proj2 (data_to_samples_selection_errors ten_times_obj false true
                  All (Single 300%Z)) ten_times); try reflexivity;
    try compute_done.
Defined.

Lemma data_to_samples_needs_two_dates_witness :
  ∃ sd, data_to_samples (MkDataObj (Some ten_times) [3%Z]) false
          (Single "nope") All true = Ok sd
        ∧ sd_predictors sd = [] ∧ sd_targets sd = [].
Proof.
  destruct (data_to_samples_needs_two_dates
              (MkDataObj (Some ten_times) [3%Z]) ten_times false true
              (Single "nope") All)
    as (_ & _ & Hok).
  - reflexivity.
  - compute_done.
  - compute_done.
  - intros x Hx%list_elem_of_singleton. subst. compute_done.
  - reflexivity.
  - simpl. lia.
  - destruct Hok as (sd & Hsd & Hp & Ht); [right; by split|].
    exists sd. by split; [|split].
Defined.


(** ** The predictor file *)

Section MethodProps.
Context {G : Type} `{!Grid G}.
Import PreprocessorObject.

(** The method returns what the function computes. *)
Lemma data_to_samples_method_result (self : Preprocessor (G:=G)) variables levels
    in_memory (files : gset string) :
  let '(r, self', _) :=
    data_to_samples_method self variables levels in_memory files in
  match data_to_samples (raw_data self)
          (bool_decide (_predictor_file self ∈ files))
          variables levels in_memory with
  | Ok sd => r = Ok () ∧ self' = set_data sd self
  | Raise e => r = Raise e ∧ self' = self
  end.
Proof.
  unfold data_to_samples_method, data_to_samples.
  destruct (raw_Dataset (raw_data self)) as [raw|]; [|done]. simpl.
  destruct (sel _ _ raw) as [ds|e]; [|done]. simpl.
  destruct in_memory.
  - case_decide; [done|]. simpl.
    destruct (foldM _ _ _) as [[p t]|e]; done.
  - destruct (decide (_predictor_file self ∈ files)) as [Hin|Hin].
    + by rewrite bool_decide_eq_true_2.
    + rewrite bool_decide_eq_false_2 by done. simpl.
      destruct (foldM _ _ _) as [[p t]|e]; done.
Qed.

(** X10. When the selection is valid and the predictor file does not
    exist, a call with [in_memory=False] creates the file whether or not
    filling it succeeds; a failed call leaves the instance as it was; and
    every later call with [in_memory=False] raises [IOError], whatever
    variables it asks for.  A call with [in_memory=True] never changes the
    set of files. *)
Theorem data_to_samples_leaves_file_behind (self : Preprocessor (G:=G)) raw
    variables levels (files : gset string) :
  raw_Dataset (raw_data self) = Some raw →
  NoDup (ds_time raw) → NoDup (ds_level raw) →
  dataset_dates (raw_data self) ⊆ ds_time raw →
  as_list (ds_level raw) levels ⊆ ds_level raw →
  _predictor_file self ∉ files →
  let '(r, self', files') :=
    data_to_samples_method self variables levels false files in
  files' = {[ _predictor_file self ]} ∪ files
  ∧ (∀ e, r = Raise e → self' = self)
  ∧ (∀ variables' levels',
       as_list (ds_level raw) levels' ⊆ ds_level raw →
       data_to_samples_method self' variables' levels' false files'
       = (Raise IOError, self', files'))
  ∧ (∀ variables' levels',
       (data_to_samples_method self variables' levels' true files).2 = files).
Proof.
  intros Hraw Hnt Hnl Hd Hl Hfile.
  assert (∀ (s : Preprocessor (G:=G)) (fs : gset string) variables' levels',
            raw_data s = raw_data self → _predictor_file s = _predictor_file self →
            as_list (ds_level raw) levels' ⊆ ds_level raw →
            _predictor_file self ∈ fs →
            data_to_samples_method s variables' levels' false fs
            = (Raise IOError, s, fs)) as Hagain.
  { intros s fs variables' levels' Hr Hf Hl' Hin.
    unfold data_to_samples_method. rewrite Hr, Hraw. unfold sel.
    destruct (positions_total _ _ Hnt Hd) as [tpos ->]. simpl.
    destruct (positions_total _ _ Hnl Hl') as [lpos ->]. simpl.
    by rewrite Hf, decide_True. }
  unfold data_to_samples_method at 1. rewrite Hraw. unfold sel.
  destruct (positions_total _ _ Hnt Hd) as [tpos ->]. simpl.
  destruct (positions_total _ _ Hnl Hl) as [lpos ->]. simpl.
  rewrite decide_False by done.
  destruct (foldM _ _ _) as [[p t]|e].
  - split; [done|]. split; [done|]. split.
    + intros variables' levels' Hl'. apply Hagain; try done. set_solver.
    + intros variables' levels'. unfold data_to_samples_method.
      rewrite Hraw. destruct (sel _ _ raw); [|done]. simpl.
      case_decide; [done|]. by destruct (foldM _ _ _) as [[]|].
  - split; [done|]. split; [done|]. split.
    + intros variables' levels' Hl'. apply Hagain; try done. set_solver.
    + intros variables' levels'. unfold data_to_samples_method.
      rewrite Hraw. destruct (sel _ _ raw); [|done]. simpl.
      case_decide; [done|]. by destruct (foldM _ _ _) as [[]|].
Qed.

End MethodProps.

Lemma data_to_samples_leaves_file_behind_witness :
  ∃ files',
    PreprocessorObject.data_to_samples_method
      demo_preprocessor (Single "nope") All false ∅
    = (Raise KeyError, demo_preprocessor, files')
    ∧ "predictors.nc" ∈ files'
    ∧ PreprocessorObject.data_to_samples_method
        demo_preprocessor (Single "HGT") All false files'
      = (Raise IOError, demo_preprocessor, files').
Proof.
  pose proof (data_to_samples_leaves_file_behind demo_preprocessor
                ten_times (Single "nope") All ∅) as H.
  destruct (PreprocessorObject.data_to_samples_method
              demo_preprocessor (Single "nope") All false ∅)
    as [[r self'] files'] eqn:E.
  destruct H as (Hfiles & Hself & Hagain & _).
  - reflexivity.
  - compute_done.
  - compute_done.
  - reflexivity.
  - reflexivity.
  - set_solver.
  - assert (r = Raise KeyError) as ->.
    { pose proof (data_to_samples_method_result demo_preprocessor
                    (Single "nope") All false ∅) as Hr.
      rewrite E in Hr. rewrite bool_decide_eq_false_2 in Hr by set_solver.
      vm_compute data_to_samples in Hr. by destruct Hr. }
    rewrite (Hself KeyError eq_refl) in *.
    exists files'. split; [done|]. split; [set_solver|].
    by apply Hagain.
Defined.

Section Lifecycle.
Context {G : Type} `{!Grid G}.
Import PreprocessorObject.

(** X23. After [data_to_samples] has succeeded in memory, [to_file] with no
    argument writes the instance's predictor file, so that a later
    [data_to_samples] with [in_memory=False] and the same levels raises
    [IOError]; and [close] drops the data, after which [to_file] raises
    [ValueError] without writing and a second [close] fails.  Before any
    data is produced [to_file] raises [ValueError] as well. *)
Theorem to_file_and_close_after_data_to_samples (self self' : Preprocessor (G:=G))
    variables levels (files files' : gset string) :
  data_to_samples_method self variables levels true files
  = (Ok (), self', files') →
  files' = files
  ∧ to_file self' None files = (Ok (), {[ _predictor_file self ]} ∪ files)
  ∧ (∀ variables',
       data_to_samples_method self' variables' levels false
                              ({[ _predictor_file self ]} ∪ files)
       = (Raise IOError, self', {[ _predictor_file self ]} ∪ files))
  ∧ (∃ closed, close self' = Some closed
               ∧ data closed = None
               ∧ (∀ f fs, to_file closed f fs = (Raise ValueError, fs))
               ∧ close closed = None)
  ∧ (data self = None → ∀ f fs, to_file self f fs = (Raise ValueError, fs)).
Proof.
  intros Hrun. unfold data_to_samples_method in Hrun.
  destruct (raw_Dataset (raw_data self)) as [raw|] eqn:Hraw; [|done].
  destruct (sel _ _ raw) as [ds|e] eqn:Hsel; [|done]. simpl in Hrun.
  case_decide; [done|].
  destruct (foldM _ _ _) as [[p t]|e]; [|done].
  injection Hrun as <- <-.
  split; [done|]. split; [done|]. split; [|split].
  - intros variables'. unfold data_to_samples_method. simpl.
    rewrite Hraw, Hsel. simpl. rewrite decide_True by set_solver. done.
  - eexists. split; [done|]. split; [done|]. split; [done|]. done.
  - intros Hnone f fs. unfold to_file. by rewrite Hnone.
Qed.

End Lifecycle.

Lemma to_file_and_close_after_data_to_samples_witness :
  ∃ self',
    PreprocessorObject.data_to_samples_method
      demo_preprocessor All All true ∅ = (Ok (), self', ∅)
    ∧ PreprocessorObject.to_file self' None ∅ = (Ok (), {[ "predictors.nc" ]} ∪ ∅)
    ∧ PreprocessorObject.data_to_samples_method
        self' All All false ({[ "predictors.nc" ]} ∪ ∅)
      = (Raise IOError, self', {[ "predictors.nc" ]} ∪ ∅).
Proof.
  destruct (PreprocessorObject.data_to_samples_method
              demo_preprocessor All All true ∅)
    as [[r self'] files'] eqn:E.
  assert (r = Ok ()) as ->.
  { pose proof (data_to_samples_method_result demo_preprocessor
                  All All true ∅) as Hr.
    rewrite E in Hr. vm_compute data_to_samples in Hr. by destruct Hr. }
  destruct (to_file_and_close_after_data_to_samples demo_preprocessor
              self' All All ∅ files' E) as (-> & Hto & Hagain & _).
  exists self'. split; [done|]. split; [exact Hto|]. apply Hagain.
Defined.

(** ** What [__init__] establishes *)

Lemma bind_Raise {A B} (m : result A) (k : A → result B) e :
  m ≫= k = Raise e → m = Raise e ∨ ∃ a, m = Ok a ∧ k a = Raise e.
Proof. destruct m as [a|e']; simpl; [right; by exists a|left; congruence]. Qed.

Lemma fmap_Raise {A B} (f : A → B) (m : result A) e :
  f <$> m = Raise e → m = Raise e.
Proof. destruct m; simpl; intros; congruence. Qed.

Lemma getitem_Raise {A} e0 (o : option A) e : getitem e0 o = Raise e → e = e0.
Proof. destruct o; simpl; congruence. Qed.

Ltac raise_inv H :=
  first
    [ discriminate H
    | apply getitem_Raise in H; exact H
    | apply fmap_Raise in H; raise_inv H
    | apply bind_Raise in H as [H|(? & _ & H)]; raise_inv H
    | match type of H with
      | (if ?b then _ else _) = Raise _ => destruct b
      | (match ?x with Some _ => _ | None => _ end) = Raise _ => destruct x
      | (match ?x with [] => _ | _ :: _ => _ end) = Raise _ => destruct x
      | (let '(_, _) := ?x in _) = Raise _ => destruct x
      end; raise_inv H ].

Section InitProps.
Context {V : Type}.

Lemma variable_level_of_Raise c e : variable_level_of c = Raise e → e = KeyError.
Proof. unfold variable_level_of, key. intros H. by raise_inv H. Qed.

Lemma with_defaults_Raise ds c e : with_defaults ds c = Raise e → e = KeyError.
Proof. unfold with_defaults, key. intros H. by raise_inv H. Qed.

(** X11. On a dataset that has its [sample] coordinate and, for the
    generators without selections, its [predictors] variable: [__init__]
    raises [TypeError] exactly when the model or the generator is not of a
    DLWP class, [IndexError] exactly when both are but the dataset has fewer
    than two samples (the time increment cannot be taken), and otherwise
    nothing but [KeyError]. *)
Theorem init_errors (m : Model (V:=V)) (g : Generator) :
  (init m g = Raise TypeError
   ↔ m_class m = OtherModel ∨ g_class g = OtherGenerator)
  ∧ (init m g = Raise IndexError
     ↔ m_class m ≠ OtherModel ∧ g_class g ≠ OtherGenerator
       ∧ length (ds_sample g) < 2)
  ∧ (∀ e, init m g = Raise e → e = TypeError ∨ e = IndexError ∨ e = KeyError).
Proof.
  assert (∀ e, init m g = Raise e →
            (e = TypeError ∧ (m_class m = OtherModel ∨ g_class g = OtherGenerator))
            ∨ (e = IndexError ∧ m_class m ≠ OtherModel
               ∧ g_class g ≠ OtherGenerator ∧ length (ds_sample g) < 2)
            ∨ (e = KeyError ∧ m_class m ≠ OtherModel
               ∧ g_class g ≠ OtherGenerator ∧ 2 ≤ length (ds_sample g))) as Hcases.
  { intros e H. unfold init in H.
    destruct (decide (m_class m = OtherModel)); [left; split; [congruence|auto]|].
    destruct (decide (g_class g = OtherGenerator));
      [left; split; [congruence|auto]|].
    right.
    destruct (ds_sample g !! 1) as [s1|] eqn:E1; simpl in H.
    2:{ left. apply lookup_ge_None in E1. injection H as <-. auto with lia. }
    apply lookup_lt_Some in E1.
    destruct (ds_sample g !! 0) as [s0|] eqn:E0; simpl in H.
    2:{ apply lookup_ge_None in E0. lia. }
    right. split; [|auto].
    apply bind_Raise in H as [H|([[o i] ov] & _ & H)].
    - destruct (bool_decide ("varlev" ∈ ds_dims g)).
      + unfold key in H. by raise_inv H.
      + apply bind_Raise in H as [H|(? & _ & H)].
        { repeat match type of H with
                 | (if ?b then _ else _) = Raise _ => destruct b
                 end;
            eauto using variable_level_of_Raise, with_defaults_Raise. }
        apply bind_Raise in H as [H|(? & _ & H)].
        { repeat match type of H with
                 | (if ?b then _ else _) = Raise _ => destruct b
                 end;
            eauto using variable_level_of_Raise, with_defaults_Raise. }
        unfold key in H. by raise_inv H.
    - unfold key in H. by raise_inv H. }
  split; [|split].
  - split.
    + intros H. destruct (Hcases _ H) as [[_ ?]|[[? _]|[? _]]]; done.
    + intros [Hm|Hg]; unfold init.
      * by rewrite decide_True.
      * destruct (decide (m_class m = OtherModel)); [done|].
        by rewrite decide_True.
  - split.
    + intros H. destruct (Hcases _ H) as [[? _]|[[_ ?]|[? _]]]; done.
    + intros (Hm & Hg & Hlen). unfold init.
      rewrite !decide_False by done.
      by rewrite (lookup_ge_None_2 (ds_sample g) 1) by lia.
  - intros e H. destruct (Hcases _ H) as [[? _]|[[? _]|[? _]]]; auto.
Qed.

(** What a successful [__init__] leaves in the three selections. *)
Lemma init_Ok_inv (m : Model (V:=V)) (g : Generator) self :
  init m g = Ok self →
  ∃ s0 s1 out inp ov,
    ds_sample g !! 0 = Some s0 ∧ ds_sample g !! 1 = Some s1
    ∧ self = {| model := m; generator := g;
                _add_insolation := default false (g_add_insolation g);
                _uses_varlev := bool_decide ("varlev" ∈ ds_dims g);
                _has_targets := bool_decide ("targets" ∈ ds_variables g);
                _is_series := bool_decide (g_class g = SeriesDataGenerator);
                _output_sel := out;
                _input_sel :=
                  (if default false (g_add_insolation g)
                   then Coords (Some (sel_varlev inp ++ ["SOL"]))
                               (c_variable inp) (c_level inp)
                   else inp);
                _outputs_in_inputs := ov;
                _dt := (s1 - s0)%Z;
                _input_time_steps :=
                  (if bool_decide (g_class g = SeriesDataGenerator)
                   then g_input_time_steps g else time_dim m);
                _output_time_steps :=
                  (if bool_decide (g_class g = SeriesDataGenerator)
                   then g_output_time_steps g else time_dim m) |}
    ∧ (default false (g_add_insolation g) = true → is_Some (c_varlev inp))
    ∧ is_Some (c_varlev out)
    ∧ c_varlev ov = Some (overlap (sel_varlev out) (sel_varlev inp))
    ∧ (sel_varlev out ≠ [] → is_Some (c_varlev inp))
    ∧ (bool_decide ("varlev" ∈ ds_dims g) = true →
       c_variable ov = None ∧ c_level ov = None)
    ∧ (bool_decide ("varlev" ∈ ds_dims g) = false →
       ∃ iv il ovar ol,
         inp = Coords (Some (flatten_varlev iv il)) (Some iv) (Some il)
         ∧ out = Coords (Some (flatten_varlev ovar ol)) (Some ovar) (Some ol)
         ∧ c_variable ov = Some (overlap ovar iv)
         ∧ c_level ov = Some (overlap ol il)).
Proof.
  unfold init. intros H.
  destruct (decide (m_class m = OtherModel)); [done|].
  destruct (decide (g_class g = OtherGenerator)); [done|].
  apply bind_Ok in H as (s1 & Hs1%getitem_Ok & H).
  apply bind_Ok in H as (s0 & Hs0%getitem_Ok & H).
  apply bind_Ok in H as ([[out inp] ov] & Hsel & H).
  apply bind_Ok in H as (inp' & Hinp' & H). injection H as <-.
  exists s0, s1, out, inp, ov. do 2 (split; [done|]).
  assert (is_Some (c_varlev out)
          ∧ c_varlev ov = Some (overlap (sel_varlev out) (sel_varlev inp))
          ∧ (sel_varlev out ≠ [] → is_Some (c_varlev inp))
          ∧ (bool_decide ("varlev" ∈ ds_dims g) = true →
             c_variable ov = None ∧ c_level ov = None)
          ∧ (bool_decide ("varlev" ∈ ds_dims g) = false →
             ∃ iv il ovar ol,
               inp = Coords (Some (flatten_varlev iv il)) (Some iv) (Some il)
               ∧ out = Coords (Some (flatten_varlev ovar ol)) (Some ovar) (Some ol)
               ∧ c_variable ov = Some (overlap ovar iv)
               ∧ c_level ov = Some (overlap ol il))) as Hrest.
  { clear Hinp' inp'.
    destruct (bool_decide ("varlev" ∈ ds_dims g)).
    - apply bind_Ok in Hsel as (o & _ & Hsel).
      apply bind_Ok in Hsel as (i & _ & Hsel).
      apply bind_Ok in Hsel as (out_vl & Hout%getitem_Ok & Hsel).
      apply bind_Ok in Hsel as (ovl & Hov & Hsel).
      injection Hsel as <- <- <-. unfold sel_varlev. rewrite Hout. simpl.
      split; [done|].
      destruct out_vl as [|v vs].
      + injection Hov as <-. do 2 (split; [done|]). split; [done|]. done.
      + apply bind_Ok in Hov as (in_vl & Hin%getitem_Ok & Hov).
        injection Hov as <-. rewrite Hin. simpl.
        do 2 (split; [done|]). split; [done|]. done.
    - apply bind_Ok in Hsel as (o & _ & Hsel).
      apply bind_Ok in Hsel as (i & _ & Hsel).
      apply bind_Ok in Hsel as (in_l & _ & Hsel).
      apply bind_Ok in Hsel as (in_v & _ & Hsel).
      apply bind_Ok in Hsel as (out_l & _ & Hsel).
      apply bind_Ok in Hsel as (out_v & _ & Hsel).
      injection Hsel as <- <- <-. simpl.
      split; [done|]. split; [done|]. split; [done|]. split; [done|].
      intros _. by exists in_v, in_l, out_v, out_l. }
  destruct (default false (g_add_insolation g)).
  - apply bind_Ok in Hinp' as (in_vl & Hin%getitem_Ok & Hinp').
    injection Hinp' as <-. split.
    { unfold sel_varlev at 1. by rewrite Hin. }
    split; [by rewrite Hin|]. exact Hrest.
  - injection Hinp' as <-. split; [done|]. split; [done|]. exact Hrest.
Qed.

(** X12. An estimator that [__init__] returns keeps the model and the
    generator, has the difference of the first two sample times as [_dt],
    and carries the ['varlev'] entries that [predict] reads: always for the
    output selection and the overlap, and for the input selection whenever
    the output selection is not empty, insolation is added, or the dataset
    has separate variable and level axes.  With insolation the input labels
    end in ['SOL'].  On separate axes the compound labels are the flattened
    products of the selections' variables and levels. *)
Theorem init_provides_what_predict_reads (m : Model (V:=V)) (g : Generator) self :
  init m g = Ok self →
  model self = m ∧ generator self = g
  ∧ (∃ s0 s1, ds_sample g !! 0 = Some s0 ∧ ds_sample g !! 1 = Some s1
              ∧ _dt self = (s1 - s0)%Z)
  ∧ is_Some (c_varlev (_output_sel self))
  ∧ is_Some (c_varlev (_outputs_in_inputs self))
  ∧ (sel_varlev (_output_sel self) ≠ [] ∨ _add_insolation self = true
     ∨ _uses_varlev self = false → is_Some (c_varlev (_input_sel self)))
  ∧ (_add_insolation self = true →
     last (sel_varlev (_input_sel self)) = Some "SOL")
  ∧ (_uses_varlev self = false →
     ∃ iv il ovar ol,
       c_variable (_input_sel self) = Some iv ∧ c_level (_input_sel self) = Some il
       ∧ c_variable (_output_sel self) = Some ovar
       ∧ c_level (_output_sel self) = Some ol
       ∧ sel_varlev (_input_sel self)
         = flatten_varlev iv il ++ (if _add_insolation self then ["SOL"] else [])
       ∧ sel_varlev (_output_sel self) = flatten_varlev ovar ol
       ∧ length (sel_varlev (_output_sel self)) = length ovar * length ol).
Proof.
  intros H.
  destruct (init_Ok_inv m g self H)
    as (s0 & s1 & out & inp & ov & Hs0 & Hs1 & -> & Hsol & Hout & Hov & Hin
        & _ & Hvl).
  simpl. do 2 (split; [done|]). split; [by exists s0, s1|].
  split; [done|]. split; [by rewrite Hov|]. split; [|split].
  - intros [Hne|[Hins|Huv]].
    + destruct (default false (g_add_insolation g)); [done|]. by apply Hin.
    + by rewrite Hins.
    + destruct (Hvl Huv) as (iv & il & ovar & ol & -> & _).
      by destruct (default false (g_add_insolation g)).
  - intros ->. unfold sel_varlev at 1. simpl. apply last_snoc.
  - intros Huv. destruct (Hvl Huv) as (iv & il & ovar & ol & -> & -> & _).
    exists iv, il, ovar, ol. unfold sel_varlev. simpl.
    destruct (default false (g_add_insolation g)); simpl;
      rewrite ?app_nil_r, length_flatten_varlev, list_cprod_list_prod,
        List.length_prod; done.
Qed.

(** X13. The overlap is computed from the input labels as they are
    before ['SOL'] is appended: it lists, in the output selection's order,
    the output labels found among them.  So every output label that is also
    an input label is in the overlap, ['SOL'] apart.  On separate axes the
    same holds of the variable and the level overlaps. *)
Theorem overlap_lists_every_shared_label (m : Model (V:=V)) (g : Generator) self :
  init m g = Ok self →
  let inp := sel_varlev (_input_sel self) in
  let read := if _add_insolation self then removelast inp else inp in
  sel_varlev (_outputs_in_inputs self)
  = overlap (sel_varlev (_output_sel self)) read
  ∧ (∀ v, v ∈ sel_varlev (_output_sel self) → v ∈ inp → v ≠ "SOL" →
       v ∈ sel_varlev (_outputs_in_inputs self))
  ∧ (_uses_varlev self = false →
     sel_variable (_outputs_in_inputs self)
     = overlap (sel_variable (_output_sel self)) (sel_variable (_input_sel self))
     ∧ sel_level (_outputs_in_inputs self)
       = overlap (sel_level (_output_sel self)) (sel_level (_input_sel self))).
Proof.
  intros H.
  destruct (init_Ok_inv m g self H)
    as (s0 & s1 & out & inp & ov & Hs0 & Hs1 & -> & Hsol & Hout & Hov & Hin
        & _ & Hvl).
  simpl.
  assert ((if default false (g_add_insolation g)
           then removelast
                  (sel_varlev
                     (if default false (g_add_insolation g)
                      then Coords (Some (sel_varlev inp ++ ["SOL"]))
                                  (c_variable inp) (c_level inp)
                      else inp))
           else sel_varlev
                  (if default false (g_add_insolation g)
                   then Coords (Some (sel_varlev inp ++ ["SOL"]))
                               (c_variable inp) (c_level inp)
                   else inp)) = sel_varlev inp) as Hread.
  { destruct (default false (g_add_insolation g)); [|done].
    unfold sel_varlev at 1. simpl. apply removelast_last. }
  rewrite Hread. unfold sel_varlev at 1. rewrite Hov. simpl.
  split; [done|]. split.
  - intros v Hv Hvi Hns. unfold sel_varlev at 1. rewrite Hov. simpl.
    unfold overlap. apply list_elem_of_filter. split; [|done].
    destruct (default false (g_add_insolation g)); [|done].
    unfold sel_varlev at 1 in Hvi. simpl in Hvi.
    apply elem_of_app in Hvi as [?|Hs]; [done|].
    by apply list_elem_of_singleton in Hs.
  - intros Huv. destruct (Hvl Huv) as (iv & il & ovar & ol & -> & -> & Hv & Hl).
    unfold sel_variable, sel_level. rewrite Hv, Hl.
    by destruct (default false (g_add_insolation g)).
Qed.

End InitProps.

Lemma init_provides_what_predict_reads_witness :
  is_Some (c_varlev (_outputs_in_inputs Demo.estimator_variable_level))
  ∧ sel_varlev (_input_sel Demo.estimator_variable_level)
    = flatten_varlev ["z"] [500; 850]%Z.
Proof.
  destruct (init_provides_what_predict_reads Demo.model_2_1
              Demo.generator_variable_level Demo.estimator_variable_level)
    as (_ & _ & _ & _ & Hov & _ & _ & Hvl); [vm_compute; reflexivity|].
  split; [exact Hov|].
  destruct (Hvl eq_refl) as (iv & il & ovar & ol & Hiv & Hil & _ & _ & Hin & _).
  injection Hiv as <-. injection Hil as <-. exact Hin.
Defined.

Lemma overlap_lists_every_shared_label_witness :
  "b" ∈ sel_varlev (_outputs_in_inputs Demo.estimator_varlev).
Proof.
  destruct (overlap_lists_every_shared_label Demo.model_2_1
              Demo.generator_varlev Demo.estimator_varlev)
    as (_ & Hall & _); [reflexivity|].
  apply Hall; [compute_done|compute_done|done].
Defined.

(** ** Compound labels *)

Lemma pretty_N_go_no_slash x s : no_slash s → no_slash (pretty_N_go x s).
Proof.
  revert s. induction (N.lt_wf_0 x) as [x _ IH]; intros s Hs.
  assert (x = 0 ∨ 0 < x)%N as [->|?] by lia.
  - by rewrite pretty_N_go_0.
  - rewrite pretty_N_go_step by done. apply IH.
    { by apply N.div_lt. }
    split; [|done]. unfold pretty_N_char. by repeat case_match.
Qed.

Lemma str_no_slash (l : Z) : no_slash (str l).
Proof.
  assert (∀ p : positive, no_slash (pretty p)) as Hpos.
  { intros p. unfold pretty, pretty_positive, pretty, pretty_N.
    case_decide; [done|]. by apply pretty_N_go_no_slash. }
  unfold str, pretty, pretty_Z. destruct l as [|p|p]; [done|apply Hpos|].
  split; [done|apply Hpos].
Qed.

Lemma string_app_cons c (a b : string) : String c a +:+ b = String c (a +:+ b).
Proof. reflexivity. Qed.

Lemma string_app_empty (b : string) : "" +:+ b = b.
Proof. reflexivity. Qed.

Lemma no_slash_app a b : ¬ no_slash (a +:+ ("/" +:+ b)).
Proof.
  induction a as [|c a IH].
  - rewrite string_app_empty, string_app_cons. simpl. by intros [? _].
  - rewrite string_app_cons. simpl. by intros [_ ?].
Qed.

Lemma compound_label_inj (a1 a2 b1 b2 : string) :
  no_slash b1 → no_slash b2 →
  a1 +:+ ("/" +:+ b1) = a2 +:+ ("/" +:+ b2) → a1 = a2 ∧ b1 = b2.
Proof.
  intros H1 H2. revert a2.
  induction a1 as [|c a1 IH]; intros [|c' a2] Heq;
    repeat rewrite ?string_app_empty, ?string_app_cons in Heq.
  - by injection Heq as ->.
  - injection Heq as <- ->. by destruct (no_slash_app a2 b2).
  - injection Heq as -> <-. by destruct (no_slash_app a1 b1).
  - injection Heq as -> Heq. by destruct (IH a2 Heq) as [-> ->].
Qed.

(** X14. A compound label determines its variable and its level, because
    the text of a level holds no ['/'].  So distinct variables and distinct
    levels give distinct compound labels, which is what the label lookups of
    [predict] need. *)
Theorem compound_labels_are_distinct (variable : list string) (level : list Z) :
  (∀ v v' l l',
     String.concat "/" [v; str l] = String.concat "/" [v'; str l'] →
     v = v' ∧ l = l')
  ∧ (NoDup variable → NoDup level → NoDup (flatten_varlev variable level)).
Proof.
  assert (∀ v v' l l',
            String.concat "/" [v; str l] = String.concat "/" [v'; str l'] →
            v = v' ∧ l = l') as Hinj.
  { intros v v' l l' Heq. simpl in Heq.
    apply compound_label_inj in Heq as [-> Hl]; try apply str_no_slash.
    split; [done|]. by apply (inj pretty). }
  split; [exact Hinj|]. intros Hv Hl.
  unfold flatten_varlev.
  pose proof (meshgrid_pairs variable level) as Hpairs.
  destruct (meshgrid level variable) as [lev var]. simpl in Hpairs.
  rewrite Hpairs. apply NoDup_fmap_2_strong; [|by apply NoDup_cprod].
  intros [v l] [v' l'] _ _ Heq. simpl in Heq.
  by destruct (Hinj v v' l l' Heq) as [-> ->].
Qed.

Lemma compound_labels_are_distinct_witness :
  NoDup (flatten_varlev ["z"; "t"] [850; 500]%Z).
Proof.
  apply (compound_labels_are_distinct ["z"; "t"] [850; 500]%Z); compute_done.
Defined.

(** ** The calls and the result of [predict] *)

Section CallLog.
Context {V : Type} (nanV : V) (mean0 : list V → V) (insolation : Z → V).
Variable self : TimeSeriesEstimator (V:=V).

Lemma io_bind_lift_case {A B} (r : result A) (k : A → io (V:=V) B) log :
  (lift r ≫= k) log
  = match r with Ok a => k a log | Raise e => (Raise e, log) end.
Proof. by destruct r. Qed.

Lemma iteration_log keep pft impute es n p_mean
    (st : DataArray (V:=V) * list (list (list (list V)))) log :
  ∃ r, iteration nanV insolation self keep pft impute es n p_mean st log
       = (r, log ++ [ModelPredict (da_values st.1)])
       ∧ ∀ st', r = Ok st' →
           st'.2 = st.2 ++ [m_predict (model self) (da_values st.1)].
Proof.
  destruct st as [p_da res]. unfold iteration. rewrite io_bind_emit.
  repeat (rewrite io_bind_lift_case;
          match goal with
          | |- context [match ?r with Ok _ => _ | Raise _ => _ end] =>
              destruct r; [|by eexists]
          end).
  eexists. split; [done|]. by intros st' [= <-].
Qed.

Lemma loop_log keep pft impute es n p_mean k
    (st : DataArray (V:=V) * list (list (list (list V)))) log :
  ∃ r xs,
    loop (iteration nanV insolation self keep pft impute es n p_mean) k st log
    = (r, log ++ (ModelPredict <$> xs))
    ∧ length xs ≤ k
    ∧ (0 < k → head xs = Some (da_values st.1))
    ∧ ∀ st', r = Ok st' →
        length xs = k ∧ st'.2 = st.2 ++ (m_predict (model self) <$> xs).
Proof.
  revert st log. induction k as [|k IH]; intros st log.
  - exists (Ok st), []. simpl. rewrite app_nil_r. split; [done|].
    split; [done|]. split; [lia|]. intros st' [= <-]. by rewrite app_nil_r.
  - destruct (iteration_log keep pft impute es n p_mean st log)
      as (r1 & Hit & Hres).
    cbn [loop]. unfold mbind at 1, io_bind at 1. rewrite Hit.
    destruct r1 as [st1|e].
    + destruct (IH st1 (log ++ [ModelPredict (da_values st.1)]))
        as (r & xs & Hloop & Hlen & _ & Hok).
      exists r, (da_values st.1 :: xs). rewrite Hloop, <- app_assoc. simpl.
      split; [done|]. split; [lia|]. split; [done|].
      intros st' Hr. destruct (Hok st' Hr) as [Hl Hv].
      split; [lia|]. rewrite Hv, (Hres st1 eq_refl), <- app_assoc. done.
    + exists (Raise e), [da_values st.1]. simpl. split; [done|].
      split; [lia|]. split; [done|]. done.
Qed.

Lemma step_size_cases t_in t_out pft :
  let '(keep, es, _) := step_size t_in t_out pft in
  (if negb keep && pft then t_out `min` es else t_out) = es.
Proof.
  unfold step_size. case_decide; [done|]. destruct pft; simpl; lia.
Qed.

Lemma lookup_concat_same_length {A} (ls : list (list A)) t s j l :
  Forall (λ l, length l = t) ls → ls !! s = Some l → j < t →
  concat ls !! (s * t + j) = l !! j.
Proof.
  intros Hall. revert s. induction Hall as [|l0 ls Hl0 Hall IH]; intros s Hs Hj;
    [done|].
  destruct s as [|s]; simpl in *.
  - injection Hs as ->. by rewrite lookup_app_l by lia.
  - rewrite lookup_app_r by lia.
    replace (t + s * t + j - length l0) with (s * t + j) by lia. by apply IH.
Qed.

Lemma swap_take_lookup (x : list (list (list V))) es t j :
  j < t → t ≤ es →
  swap_sample_time t (take es <$> x) !! j
  = Some ((λ smp : list (list V), default [] (smp !! j)) <$> x).
Proof.
  intros Hj Ht. unfold swap_sample_time.
  rewrite list_lookup_fmap, lookup_seq_lt by done. simpl. f_equal.
  rewrite <- list_fmap_compose. apply list_fmap_ext. intros i smp _. simpl.
  by rewrite lookup_take_lt by lia.
Qed.

Lemma swap_lookup (x : list (list (list V))) t j :
  j < t →
  swap_sample_time t x !! j
  = Some ((λ smp : list (list V), default [] (smp !! j)) <$> x).
Proof.
  intros Hj. unfold swap_sample_time.
  by rewrite list_lookup_fmap, lookup_seq_lt by done.
Qed.

(** What [assemble] returns for an estimator on compound labels. *)
Lemma assemble_varlev_inv steps (pft ktd : bool)
    (res : list (list (list (list V)))) fc :
  _uses_varlev self = true →
  let t_in := _input_time_steps self in
  let t_out := _output_time_steps self in
  let es := (step_size t_in t_out pft).1.2 in
  let time := (λ t, t + (Z.of_nat t_in - 1) * _dt self)%Z <$> samples_used self in
  length res = steps →
  assemble nanV self steps (step_size t_in t_out pft).1.1 pft es ktd res = Ok fc →
  ∃ out_vl,
    c_varlev (_output_sel self) = Some out_vl
    ∧ (ktd = true →
       fc = ByStep ((λ s : nat, (Z.of_nat s * Z.of_nat es + 1) * _dt self)%Z
                      <$> seq 0 steps)
                   time (Z.of_nat <$> seq 0 t_out) out_vl res)
    ∧ (ktd = false →
       ∃ values,
         fc = Series ((λ i : nat, (Z.of_nat i + 1) * _dt self)%Z
                        <$> seq 0 (steps * es)) time out_vl values
         ∧ length values = steps * es
         ∧ ∀ s j x, res !! s = Some x → j < es →
             values !! (s * es + j)
             = Some ((λ smp : list (list V), default [] (smp !! j)) <$> x)).
Proof.
  intros Hvl t_in t_out es time Hlen Hasm. unfold assemble in Hasm.
  rewrite Hvl in Hasm.
  apply bind_Ok in Hasm as (out_vl & Hout%getitem_Ok & Hasm).
  apply bind_Ok in Hasm as (fc' & Hfc & [= ->]).
  exists out_vl. split; [done|].
  pose proof (step_size_cases t_in t_out pft) as Hcases.
  fold t_in t_out in Hfc. 
  destruct (step_size t_in t_out pft) as [[keep es'] in_times] eqn:Hss.
  simpl in es. subst es. simpl in Hfc.
  destruct ktd.
  - split; [intros _|done].
    apply bind_Ok in Hfc as (fh & Hfh & Hfc).
    case_decide as Hl; [|done]. injection Hfc as <-.
    unfold np_arange in Hfh. case_decide as Hz; [done|].
    injection Hfh as <-. rewrite length_fmap, length_seq in Hl.
    rewrite Hl, Hlen. f_equal. apply list_fmap_ext. intros; lia.
  - split; [done|intros _].
    destruct (negb keep && pft) eqn:Hmode.
    + apply bind_Ok in Hfc as (fh & Hfh & Hfc).
      case_decide as Hl; [|done]. injection Hfc as <-.
      rewrite length_concat_swap, length_fmap, Hlen, Hcases in Hl.
      unfold np_arange in Hfh. case_decide as Hz; [done|].
      injection Hfh as <-. rewrite length_fmap, length_seq in Hl.
      eexists. split; [|split].
      * rewrite Hl. f_equal. apply list_fmap_ext. intros; lia.
      * by rewrite length_concat_swap, length_fmap, Hlen, Hcases.
      * intros s j x Hs Hj. rewrite Hcases.
        erewrite (lookup_concat_same_length _ es' s j); [|..|done].
        -- by apply swap_take_lookup.
        -- apply Forall_fmap, Forall_true. intros y. simpl.
           unfold swap_sample_time. by rewrite length_fmap, length_seq.
        -- by rewrite !list_lookup_fmap, Hs.
    + apply bind_Ok in Hfc as (fh & Hfh & Hfc).
      case_decide as Hl; [|done]. injection Hfc as <-.
      rewrite length_concat_swap, Hlen, Hcases in Hl.
      unfold np_arange in Hfh. case_decide as Hz; [done|].
      injection Hfh as <-. rewrite length_fmap, length_seq in Hl.
      eexists. split; [|split].
      * rewrite Hl. f_equal. apply list_fmap_ext. intros; lia.
      * by rewrite length_concat_swap, Hlen, Hcases.
      * intros s j x Hs Hj. rewrite Hcases.
        erewrite (lookup_concat_same_length _ es' s j); [|..|done].
        -- by apply swap_lookup.
        -- apply Forall_fmap, Forall_true. intros y. simpl.
           unfold swap_sample_time. by rewrite length_fmap, length_seq.
        -- by rewrite !list_lookup_fmap, Hs.
Qed.

(** The calls [predict] makes, whatever its outcome. *)
Lemma predict_log (steps : Z) (impute ktd pft : bool) log :
  ∃ r xs,
    predict nanV mean0 insolation self steps impute ktd pft log
    = (r, log ++ (if decide (steps < 1)%Z then []
                  else Generate :: (ModelPredict <$> xs)))
    ∧ length xs ≤ Z.to_nat steps
    ∧ (xs ≠ [] → head xs = Some (g_generate (generator self)))
    ∧ ∀ fc, r = Ok fc →
        (1 ≤ steps)%Z ∧ length xs = Z.to_nat steps
        ∧ assemble nanV self (Z.to_nat steps)
            (step_size (_input_time_steps self) (_output_time_steps self) pft).1.1
            pft
            (step_size (_input_time_steps self) (_output_time_steps self) pft).1.2
            ktd (m_predict (model self) <$> xs) = Ok fc.
Proof.
  unfold predict. case_decide as Hsteps.
  { exists (Raise ValueError), []. rewrite app_nil_r. split; [done|].
    split; [simpl; lia|]. split; [done|]. by intros fc [=]. }
  destruct (step_size (_input_time_steps self) (_output_time_steps self) pft)
    as [[keep es] in_times]. simpl.
  rewrite io_bind_emit, io_bind_lift_case.
  destruct (labelled _ _ _ _ _ _) as [p_da|e] eqn:Hlab.
  2:{ exists (Raise e), []. split; [done|]. split; [simpl; lia|].
      split; [done|]. by intros fc [=]. }
  assert (da_values p_da = g_generate (generator self)) as Hvals.
  { unfold labelled in Hlab. case_decide; [done|].
    apply bind_Ok in Hlab as (vl & _ & Hlab). case_decide; [|done].
    by injection Hlab as <-. }
  destruct (loop_log keep pft impute es (length (g_generate (generator self)))
              (mean_axis0 nanV mean0 (_input_time_steps self)
                          (length (da_varlev p_da)) (g_generate (generator self)))
              (Z.to_nat steps) (p_da, []) (log ++ [Generate]))
    as (r & xs & Hloop & Hlen & Hhd & Hok).
  unfold mbind at 1, io_bind at 1. rewrite Hloop, <- app_assoc. simpl.
  destruct r as [[p' res]|e].
  - destruct (Hok _ eq_refl) as [Hl Hres]. simpl in Hres. subst res.
    unfold lift. eexists _, xs. split; [done|]. split; [done|]. split.
    { intros Hne. rewrite <- Hvals. apply Hhd. destruct xs; [done|].
      simpl in Hl. lia. }
    intros fc [= Hfc]. split; [lia|]. done.
  - exists (Raise e), xs. split; [done|]. split; [done|]. split.
    { intros Hne. rewrite <- Hvals. apply Hhd. destruct xs; [done|].
      simpl in Hlen. lia. }
    by intros fc [=].
Qed.

(** X15. Whatever its outcome, [predict] asks the generator for data at
    most once and calls the model at most [steps] times, in that order and
    with nothing else in between; the first model input is the generator's
    batch; when [predict] returns, the model has been called exactly [steps]
    times. *)
Theorem predict_calls_model_at_most_steps (steps : Z) (impute ktd pft : bool)
    log r log' :
  predict nanV mean0 insolation self steps impute ktd pft log = (r, log') →
  ∃ xs,
    log' = log ++ (if decide (steps < 1)%Z then []
                   else Generate :: (ModelPredict <$> xs))
    ∧ length xs ≤ Z.to_nat steps
    ∧ (xs ≠ [] → head xs = Some (g_generate (generator self)))
    ∧ (∀ fc, r = Ok fc → length xs = Z.to_nat steps).
Proof.
  intros Hrun.
  destruct (predict_log steps impute ktd pft log)
    as (r0 & xs & Hp & Hlen & Hhd & Hok).
  rewrite Hp in Hrun. injection Hrun as <- <-.
  exists xs. do 3 (split; [done|]). intros fc Hfc.
  by destruct (Hok fc Hfc) as (_ & ? & _).
Qed.

(** X16. What [predict] returns on a dataset with compound labels.  With
    the time-step axis kept, entry [s] is the model's output at step [s],
    at forecast hour [(s es + 1) dt].  With the axis collapsed, entry
    [s es + j] holds time step [j] of the output at step [s], for [j < es],
    at forecast hour [(s es + j + 1) dt]; output time steps from [es] on are
    not used.  The [time] coordinate is the sample time of the newest input
    time step. *)
Theorem forecast_entries_are_model_outputs (steps : Z) (impute ktd pft : bool)
    log fc log' :
  _uses_varlev self = true →
  predict nanV mean0 insolation self steps impute ktd pft log = (Ok fc, log') →
  let t_in := _input_time_steps self in
  let t_out := _output_time_steps self in
  let es := (step_size t_in t_out pft).1.2 in
  let k := Z.to_nat steps in
  let time := (λ t, t + (Z.of_nat t_in - 1) * _dt self)%Z <$> samples_used self in
  ∃ xs out_vl,
    log' = log ++ Generate :: (ModelPredict <$> xs)
    ∧ length xs = k
    ∧ c_varlev (_output_sel self) = Some out_vl
    ∧ (ktd = true →
       fc = ByStep ((λ s : nat, (Z.of_nat s * Z.of_nat es + 1) * _dt self)%Z
                      <$> seq 0 k)
                   time (Z.of_nat <$> seq 0 t_out) out_vl
                   (m_predict (model self) <$> xs))
    ∧ (ktd = false →
       ∃ values,
         fc = Series ((λ i : nat, (Z.of_nat i + 1) * _dt self)%Z
                        <$> seq 0 (k * es)) time out_vl values
         ∧ length values = k * es
         ∧ ∀ s j x, xs !! s = Some x → j < es →
             values !! (s * es + j)
             = Some ((λ smp : list (list V), default [] (smp !! j))
                       <$> m_predict (model self) x)).
Proof.
  intros Hvl Hrun t_in t_out es k time.
  destruct (predict_log steps impute ktd pft log)
    as (r0 & xs & Hp & _ & _ & Hok).
  rewrite Hp in Hrun. injection Hrun as -> <-.
  destruct (Hok fc eq_refl) as (Hsteps & Hlen & Hasm).
  rewrite decide_False by lia.
  destruct (assemble_varlev_inv (Z.to_nat steps) pft ktd
              (m_predict (model self) <$> xs) fc Hvl)
    as (out_vl & Hout & Hkeep & Hflat); [by rewrite length_fmap|done|].
  exists xs, out_vl. do 3 (split; [done|]). split; [done|].
  intros Hk. destruct (Hflat Hk) as (values & -> & Hl & Hcells).
  exists values. do 2 (split; [done|]).
  intros s j x Hs Hj. apply Hcells; [|done].
  by rewrite list_lookup_fmap, Hs.
Qed.

End CallLog.

Lemma predict_calls_model_at_most_steps_witness :
  ∃ xs, (Demo.run Demo.estimator_varlev 3 true false true).2
        = Generate :: (ModelPredict <$> xs)
        ∧ length xs ≤ 3
        ∧ head xs = Some (g_generate Demo.generator_varlev).
Proof.
  destruct (predict_calls_model_at_most_steps 0%Z Demo.zmean Demo.zsun
              Demo.estimator_varlev 3 true false true []
              (Demo.run Demo.estimator_varlev 3 true false true).1
              (Demo.run Demo.estimator_varlev 3 true false true).2)
    as (xs & Hlog & Hlen & Hhd & _).
  { unfold Demo.run. apply surjective_pairing. }
  exists xs. split; [exact Hlog|]. split; [exact Hlen|]. apply Hhd.
  intros ->. vm_compute in Hlog. discriminate.
Defined.

Lemma forecast_entries_are_model_outputs_witness :
  ∃ fc xs values,
    (Demo.run Demo.estimator_varlev 2 false false true).1 = Ok fc
    ∧ length xs = 2
    ∧ fc = Series [6; 12]%Z [6; 12; 18]%Z ["b"] values
    ∧ ∀ x, xs !! 1 = Some x →
        values !! 1
        = Some ((λ smp : list (list Z), default [] (smp !! 0))
                  <$> m_predict Demo.model_2_1 x).
Proof.
  assert (∃ fc log', Demo.run Demo.estimator_varlev 2 false false true
                     = (Ok fc, log')) as (fc & log' & Hrun).
  { eexists _, _. vm_compute. reflexivity. }
  destruct (forecast_entries_are_model_outputs 0%Z Demo.zmean Demo.zsun
              Demo.estimator_varlev 2 false false true [] fc log' eq_refl Hrun)
    as (xs & out_vl & _ & Hlen & Hout & _ & Hflat).
  destruct (Hflat eq_refl) as (values & Hfc & _ & Hcells).
  injection Hout as <-.
  exists fc, xs, values. split; [by rewrite Hrun|]. split; [exact Hlen|].
  split; [exact Hfc|]. intros x Hx. apply (Hcells 1 0 x Hx). simpl. lia.
Defined.

Section PredictEdges.
Context {V : Type} (nanV : V) (mean0 : list V → V) (insolation : Z → V).

(** X17. On a well-formed estimator, with [steps >= 1] and, when imputing,
    at least [es] samples, [predict] returns when the estimator uses
    compound labels or the time-step axis is collapsed; the forecast has
    [steps] leading entries when the axis is kept and [steps * es] when it
    is collapsed, with one forecast hour per entry. *)
Theorem predict_returns_on_valid_estimator (self : TimeSeriesEstimator (V:=V))
    in_vl out_vl ov n (steps : Z) (impute keep_time_dim pft : bool) log :
  valid_estimator self in_vl out_vl ov n →
  (1 ≤ steps)%Z →
  let es := (step_size (_input_time_steps self) (_output_time_steps self) pft).1.2 in
  (impute = true → es ≤ n) →
  _uses_varlev self = true ∨ keep_time_dim = false →
  ∃ fc log',
    predict nanV mean0 insolation self steps impute keep_time_dim pft log
    = (Ok fc, log')
    ∧ leading_axis fc
      = (if keep_time_dim then Z.to_nat steps else Z.to_nat steps * es)
    ∧ length (f_hour_of fc) = leading_axis fc
    ∧ (keep_time_dim = false →
       f_hour_of fc
       = (λ i : nat, (Z.of_nat i + 1) * _dt self)%Z
           <$> seq 0 (Z.to_nat steps * es)).
Proof. apply predict_leading_axis. Qed.

(** X18. With [impute=True] and fewer samples than the effective step,
    [predict] raises [ValueError] in the first pass of the loop, after one
    call of the model: the mean cannot be written over the last [es]
    samples. *)
Theorem predict_impute_needs_enough_samples (self : TimeSeriesEstimator (V:=V))
    in_vl out_vl ov n (steps : Z) (keep_time_dim pft : bool) log :
  valid_estimator self in_vl out_vl ov n →
  (1 ≤ steps)%Z →
  n < (step_size (_input_time_steps self) (_output_time_steps self) pft).1.2 →
  predict nanV mean0 insolation self steps true keep_time_dim pft log
  = (Raise ValueError,
     log ++ [Generate; ModelPredict (g_generate (generator self))]).
Proof.
  intros Hvalid Hsteps Hn. unfold predict. rewrite decide_False by lia.
  destruct Hvalid as [Hdt Hin Hout0 Hinsel Houtsel Hov Hndin Hndout Hndov Hovin
                      Hovout Hn0 Hlen Hbatch Hsamples Hndsamples Hmodel Hsol
                      Hunstack].
  pose proof (step_size_positive (_input_time_steps self)
                (_output_time_steps self) pft Hin Hout0) as Hes.
  pose proof (length_step_size_times (_input_time_steps self)
                (_output_time_steps self) pft) as Htl.
  destruct (step_size (_input_time_steps self) (_output_time_steps self) pft)
    as [[keep_inputs es] in_times]. simpl in *.
  rewrite io_bind_emit. rewrite Hinsel.
  unfold labelled at 1. rewrite decide_False by lia. simpl.
  rewrite decide_True by (by rewrite Hlen, Hsamples, Htl).
  rewrite io_bind_lift. simpl.
  destruct (Z.to_nat steps) as [|k] eqn:Hk; [lia|].
  cbn [loop]. unfold iteration.
  unfold mbind at 1, io_bind at 1. unfold mbind at 1, io_bind at 1.
  rewrite io_bind_emit. rewrite Houtsel. simpl.
  unfold labelled. rewrite decide_False by lia. simpl.
  assert (has_shape n (_output_time_steps self) (length out_vl)
            (m_predict (model self) (g_generate (generator self)))) as Hout
    by (by apply Hmodel).
  rewrite Hlen.
  rewrite decide_True
    by (by rewrite !length_fmap, length_seq, Hsamples).
  rewrite io_bind_lift. simpl.
  assert (∃ b0, reindex nanV
                  ((λ t, (t + Z.of_nat es * _dt self)%Z) <$> samples_used self)
                  (MkDataArray (samples_used self) in_times in_vl
                               (g_generate (generator self))) = Ok b0
                ∧ length (da_values b0) = n) as (b0 & -> & Hb0).
  { unfold reindex. simpl. case_decide; [by eexists|].
    rewrite decide_True by done. eexists. split; [done|]. simpl.
    by rewrite !length_fmap. }
  rewrite io_bind_lift.
  unfold impute_write. rewrite decide_False by lia. simpl.
  rewrite decide_False.
  2:{ unfold py_last. rewrite decide_False by lia.
      rewrite length_drop, Hb0. lia. }
  simpl. by rewrite <- app_assoc.
Qed.

End PredictEdges.

Example single_sample_init :
  init single_sample_model single_sample_generator = Ok single_sample_estimator.
Proof. reflexivity. Qed.

Lemma single_sample_valid :
  valid_estimator single_sample_estimator ["a"; "b"] ["b"] ["b"] 1.
Proof.
  split; try done; try compute_done;
    try (intros x Hx%list_elem_of_singleton; subst; compute_done).
  intros x [Hn Hx]. simpl in *.
  change (m_predict single_sample_model x)
    with ((λ smp : list (list Z), (λ feats : list Z, drop 1 feats) <$> smp) <$> x).
  split; [by rewrite length_fmap|].
  apply Forall_fmap. eapply Forall_impl; [exact Hx|].
  intros smp [Hl Hf]. simpl. rewrite length_fmap. split; [done|].
  apply Forall_fmap. eapply Forall_impl; [exact Hf|].
  intros feats Hfl. simpl in *. rewrite length_drop. lia.
Qed.

Lemma predict_returns_on_valid_estimator_witness :
  ∃ fc log', Demo.run Demo.estimator_varlev 3 true false true = (Ok fc, log')
             ∧ leading_axis fc = 3
             ∧ f_hour_of fc = [6; 12; 18]%Z.
Proof.
  destruct (predict_returns_on_valid_estimator 0%Z Demo.zmean Demo.zsun
              Demo.estimator_varlev ["a"; "b"] ["b"] ["b"] 3 3 true false true []
              demo_valid)
    as (fc & log' & Hrun & Hax & _ & Hh); [lia|simpl; lia|by right|].
  exists fc, log'. split; [exact Hrun|]. split; [exact Hax|]. by apply Hh.
Defined.

Lemma predict_impute_needs_enough_samples_witness :
  predict 0%Z Demo.zmean Demo.zsun single_sample_estimator 1 true false true []
  = (Raise ValueError,
     [Generate; ModelPredict (g_generate single_sample_generator)]).
Proof.
  apply (predict_impute_needs_enough_samples 0%Z Demo.zmean Demo.zsun
           single_sample_estimator ["a"; "b"] ["b"] ["b"] 1 1 false true []
           single_sample_valid); [lia|simpl; lia].
Defined.

Section KeepTimeDim.
Context {V : Type} (nanV : V) (mean0 : list V → V) (insolation : Z → V).

(** X22. On a dataset with separate variable and level axes, [predict] with
    [keep_time_dim=True] never returns a forecast: whatever the estimator,
    the number of steps and the other flags, it ends in an exception (at the
    latest at the final [transpose], which names six of the seven
    dimensions). *)
Theorem predict_keep_time_dim_never_returns_on_separate_axes
    (self : TimeSeriesEstimator (V:=V)) (steps : Z) (impute pft : bool) log r log' :
  _uses_varlev self = false →
  predict nanV mean0 insolation self steps impute true pft log = (r, log') →
  ∃ e, r = Raise e.
Proof.
  intros Hvl Hrun.
  assert (∀ k keep es res fc,
            assemble nanV self k keep pft es true res ≠ Ok fc) as Hasm.
  { intros k keep es res fc. unfold assemble. rewrite Hvl.
    destruct (key (c_varlev (_output_sel self))) as [out_vl|e]; [|done].
    simpl. destruct (np_arange _ _ _) as [fh|e]; [|done]. simpl.
    case_decide; [|done]. simpl.
    destruct (key (c_variable (_output_sel self))) as [var|e]; [|done].
    simpl. by destruct (key (c_level (_output_sel self))) as [lev|e]. }
  destruct (predict_log nanV mean0 insolation self steps impute true pft log)
    as (r0 & xs & Hlog & _ & _ & Hok).
  rewrite Hlog in Hrun. injection Hrun as <- _.
  destruct r0 as [fc|e]; [|by eexists].
  destruct (Hok fc eq_refl) as (_ & _ & Hfc). by apply Hasm in Hfc.
Qed.

End KeepTimeDim.

Lemma predict_keep_time_dim_never_returns_on_separate_axes_witness :
  ∃ e, (Demo.run Demo.estimator_variable_level 5 true true false).1 = Raise e.
Proof.
  apply (predict_keep_time_dim_never_returns_on_separate_axes 0%Z Demo.zmean
           Demo.zsun Demo.estimator_variable_level 5 true false []
           (Demo.run Demo.estimator_variable_level 5 true true false).1
           (Demo.run Demo.estimator_variable_level 5 true true false).2 eq_refl).
  unfold Demo.run. apply surjective_pairing.
Defined.

(** ** The rolling buffer *)

Lemma index_of_None `{EqDecision A} (x : A) l : x ∉ l → index_of x l = None.
Proof.
  intros Hx. unfold index_of.
  destruct (list_find (x =.) l) as [[i y]|] eqn:E; [|done].
  apply list_find_Some in E as (Hi & <- & _).
  by apply list_elem_of_lookup_2 in Hi.
Qed.

Lemma filter_eq_NoDup `{EqDecision A} (x : A) (l : list A) :
  NoDup l → length (filter (x =.) l) ≤ 1.
Proof.
  intros Hnd. pose proof (NoDup_filter (x =.) l Hnd) as Hf.
  assert (∀ y, y ∈ filter (x =.) l → y = x) as Hall.
  { intros y [? _]%list_elem_of_filter. done. }
  destruct (filter (x =.) l) as [|a [|b k]]; simpl; [lia|lia|].
  rewrite (Hall a), (Hall b) in Hf by (repeat constructor).
  apply NoDup_cons in Hf as [Hf _]. exfalso. apply Hf. by left.
Qed.

Section Rolling.
Context {V : Type} (nanV : V) (insolation : Z → V).

Lemma insolation_write_single (a : DataArray (V:=V)) (es t n f sol : nat)
    (dt : Z) :
  0 < t → 0 < es →
  NoDup (da_varlev a) →
  index_of "SOL" (da_varlev a) = Some sol →
  length (da_sample a) = n → has_shape n t f (da_values a) →
  ∃ b,
    insolation_write insolation es t dt a = Ok b
    ∧ da_sample b = da_sample a ∧ da_time_step b = da_time_step a
    ∧ da_varlev b = da_varlev a
    ∧ ∀ i j k time, i < n → j < t → k < f → da_sample a !! i = Some time →
        cell (da_values b) i j k
        = if decide (n - es ≤ i ∧ k = sol)
          then Some (insolation (time + Z.of_nat j * dt)%Z)
          else cell (da_values a) i j k.
Proof.
  intros Ht Hes Hnd Hsol Hns [Hn Hx].
  unfold insolation_write. rewrite decide_False by lia. rewrite Hsol. simpl.
  rewrite decide_False by (pose proof (filter_eq_NoDup "SOL" _ Hnd); lia).
  eexists. split; [done|]. simpl. do 3 (split; [done|]).
  intros i j k time Hi Hj Hk Htime.
  unfold py_last. destruct (decide (es = 0)) as [|_]; [lia|].
  rewrite length_drop, Hn.
  replace (n - (n - (n - es))) with (n - es) by lia.
  destruct (lookup_lt_is_Some_2 (da_values a) i) as [smp Hsmp]; [lia|].
  destruct (proj1 (Forall_lookup _ _) Hx i smp Hsmp) as [Hl Hf].
  destruct (lookup_lt_is_Some_2 smp j) as [feats Hfeats]; [lia|].
  pose proof (proj1 (Forall_lookup _ _) Hf j feats Hfeats) as Hfl.
  simpl in Hfl.
  unfold cell. destruct (decide (n - es ≤ i)) as [Hge|Hlt].
  - rewrite lookup_app_r by (rewrite length_take; lia).
    rewrite length_take, Hn.
    replace ((n - es) `min` n) with (n - es) by lia.
    rewrite lookup_zip_with, !lookup_drop, Hns.
    replace (n - es + (i - (n - es))) with i by lia.
    rewrite Htime, Hsmp. simpl.
    rewrite list_lookup_imap, Hfeats. simpl.
    rewrite decide_True by done.
    destruct (decide (k = sol)) as [->|Hne].
    + rewrite decide_True by done.
      by rewrite list_lookup_insert_eq by lia.
    + rewrite decide_False by tauto.
      by rewrite list_lookup_insert_ne by done.
  - rewrite lookup_app_l by (rewrite length_take; lia).
    rewrite lookup_take_lt by lia. rewrite Hsmp. simpl. rewrite Hfeats. simpl.
    by rewrite decide_False by tauto.
Qed.

(** X19. When the sample times are regularly spaced by [dt], re-indexing
    to the times shifted by [es * dt] moves every sample [es] places towards
    the front: sample [i] of the new buffer is sample [i + es] of the old
    one, and the last [es] samples are all NaN. *)
Theorem reindex_shifts_regular_samples (a : DataArray (V:=V)) (s0 dt : Z)
    (n es : nat) :
  dt ≠ 0%Z →
  da_sample a = (λ i : nat, s0 + Z.of_nat i * dt)%Z <$> seq 0 n →
  length (da_values a) = n →
  ∃ b,
    reindex nanV ((λ t, t + Z.of_nat es * dt)%Z <$> da_sample a) a = Ok b
    ∧ da_sample b = (λ i : nat, s0 + Z.of_nat (i + es) * dt)%Z <$> seq 0 n
    ∧ da_time_step b = da_time_step a ∧ da_varlev b = da_varlev a
    ∧ ∀ i, i < n →
        da_values b !! i
        = if decide (i + es < n) then da_values a !! (i + es)
          else Some (replicate (length (da_time_step a))
                               (replicate (length (da_varlev a)) nanV)).
Proof.
  intros Hdt Hs Hlen.
  assert (NoDup (da_sample a)) as Hnd.
  { rewrite Hs. apply NoDup_fmap_2; [|apply NoDup_seq]. intros i j ?. nia. }
  assert ((λ t, t + Z.of_nat es * dt)%Z <$> da_sample a
          = (λ i : nat, s0 + Z.of_nat (i + es) * dt)%Z <$> seq 0 n) as Hshift.
  { rewrite Hs, <- list_fmap_compose. apply list_fmap_ext. intros; simpl. lia. }
  assert (∀ j, j < n → da_sample a !! j = Some (s0 + Z.of_nat j * dt)%Z) as Hlk.
  { intros j Hj. by rewrite Hs, list_lookup_fmap, lookup_seq_lt by done. }
  unfold reindex. case_decide as Hsame.
  { exists a. split; [done|]. split; [by rewrite <- Hsame|].
    do 2 (split; [done|]). intros i Hi.
    assert (es = 0) as ->.
    { pose proof (f_equal (.!! i) Hsame) as Hi'.
      rewrite list_lookup_fmap, (Hlk i Hi) in Hi'. simpl in Hi'.
      injection Hi' as Hi'. nia. }
    rewrite Nat.add_0_r. by rewrite decide_True. }
  rewrite decide_True by done. eexists. split; [done|]. simpl.
  split; [done|].
  do 2 (split; [done|]). intros i Hi.
  rewrite !list_lookup_fmap, (Hlk i Hi). simpl. case_decide as Hie.
  - rewrite (index_of_NoDup _ _ (i + es)); [|done|].
    + simpl. destruct (lookup_lt_is_Some_2 (da_values a) (i + es)) as [x ->];
        [lia|done].
    + rewrite (Hlk (i + es)) by done. f_equal. lia.
  - rewrite index_of_None; [done|]. rewrite Hs.
    intros (j & Hj & [_ ?]%elem_of_seq)%list_elem_of_fmap. nia.
Qed.

(** X20. On a buffer whose feature labels are distinct, the insolation
    write changes the ['SOL'] feature of the last [es] samples only: at
    time step [j] it becomes the insolation at the sample's time plus
    [j * dt]; every other cell keeps its value. *)
Theorem insolation_write_cells (a : DataArray (V:=V)) (es t n f sol : nat)
    (dt : Z) :
  0 < t → 0 < es →
  NoDup (da_varlev a) →
  index_of "SOL" (da_varlev a) = Some sol →
  length (da_sample a) = n → has_shape n t f (da_values a) →
  ∃ b,
    insolation_write insolation es t dt a = Ok b
    ∧ da_sample b = da_sample a ∧ da_time_step b = da_time_step a
    ∧ da_varlev b = da_varlev a
    ∧ ∀ i j k time, i < n → j < t → k < f → da_sample a !! i = Some time →
        cell (da_values b) i j k
        = if decide (n - es ≤ i ∧ k = sol)
          then Some (insolation (time + Z.of_nat j * dt)%Z)
          else cell (da_values a) i j k.
Proof. apply insolation_write_single. Qed.

End Rolling.

Lemma reindex_shifts_regular_samples_witness :
  ∃ b, reindex 0%Z [6; 12; 18]%Z demo_initial = Ok b
       ∧ da_values b !! 0 = da_values demo_initial !! 1
       ∧ da_values b !! 2 = Some [[0; 0]; [0; 0]]%Z.
Proof.
  destruct (reindex_shifts_regular_samples 0%Z demo_initial 0 6 3 1)
    as (b & Hb & _ & _ & _ & Hrows); [lia|reflexivity|reflexivity|].
  exists b. split; [exact Hb|]. split.
  - by rewrite (Hrows 0) by lia.
  - by rewrite (Hrows 2) by lia.
Defined.

Lemma insolation_write_cells_witness :
  ∃ b, insolation_write Demo.zsun 1 2 6
         (MkDataArray [6; 12; 18]%Z [-1; 0]%Z ["a"; "SOL"]
            (g_generate Demo.generator_varlev)) = Ok b
       ∧ cell (da_values b) 2 1 1 = Some (-24)%Z
       ∧ cell (da_values b) 1 1 1 = Some 6%Z.
Proof.
  destruct (insolation_write_cells Demo.zsun
              (MkDataArray [6; 12; 18]%Z [-1; 0]%Z ["a"; "SOL"]
                 (g_generate Demo.generator_varlev)) 1 2 3 2 1 6)
    as (b & Hb & _ & _ & _ & Hcell); try reflexivity; try lia.
  { compute_done. }
  { compute_done. }
  exists b. split; [exact Hb|]. split.
  - by rewrite (Hcell 2 1 1 18%Z) by (reflexivity || lia).
  - by rewrite (Hcell 1 1 1 12%Z) by (reflexivity || lia).
Defined.

(** ** The axes after unstacking *)

Global Instance string_le_total : Total string_le.
Proof. intros a b. apply String.leb_total. Qed.

Section UnstackOrder.
Context {V : Type} (nanV : V).


End UnstackOrder.


(** * The inputs of the forecast loop *)

Lemma shift_changes (l : list Z) (c : Z) :
  l ≠ [] → c ≠ 0%Z → (λ t, t + c)%Z <$> l ≠ l.
Proof.
  intros Hl Hc H. destruct l as [|x l]; [done|]. injection H as H _. lia.
Qed.

Section Inputs.
Context {V : Type} (nanV : V) (mean0 : list V → V) (insolation : Z → V).
Variable self : TimeSeriesEstimator (V:=V).
Variables (in_vl out_vl ov : list string) (n : nat).
Hypothesis Hvalid : valid_estimator self in_vl out_vl ov n.
Variables (pft impute : bool).

Abbreviation t_in := (_input_time_steps self).
Abbreviation t_out := (_output_time_steps self).
Abbreviation keep_inputs := (step_size t_in t_out pft).1.1.
Abbreviation es := (step_size t_in t_out pft).1.2.
Abbreviation in_times := (step_size t_in t_out pft).2.
Abbreviation shifted :=
  ((λ t, t + Z.of_nat es * _dt self)%Z <$> samples_used self).
Abbreviation batch_mean :=
  (mean_axis0 nanV mean0 t_in (length in_vl) (g_generate (generator self))).

Hypothesis Himpute : impute = true → es ≤ n.

Lemma reindex_cells (a : DataArray (V:=V)) (first : bool) :
  buffer_ok in_vl in_times n t_in a →
  da_sample a = (if first then samples_used self else shifted) →
  ∃ b, reindex nanV shifted a = Ok b
       ∧ da_sample b = shifted ∧ buffer_ok in_vl in_times n t_in b
       ∧ ∀ i j f, i < n → j < t_in → f < length in_vl →
           cell (da_values b) i j f
           = carried nanV self es first (da_values a) i j f.
Proof.
  intros Hbuf Hsamples. destruct Hvalid as [Hdt Hin Hout0 Hinsel Houtsel Hov Hndin Hndout Hndov Hovin Hovout Hn0 Hlen0 Hbatch Hsamp Hndsamp Hmodel Hsol0 Hunstack].
  pose proof (step_size_positive t_in t_out pft Hin Hout0) as Hes.
  destruct (reindex_ok nanV in_vl in_times n t_in a shifted Hbuf)
    as (b & Hb & Hs & Hbufb);
    [by apply NoDup_shift_samples|by rewrite length_fmap|].
  exists b. do 3 (split; [done|]).
  destruct Hbuf as (Hv & Ht & Hlen & Hnd & Hn & Hlx & Hx).
  intros i j f Hi Hj Hf. unfold carried, reindex in *.
  destruct first.
  - rewrite decide_False in Hb.
    2:{ rewrite Hsamples. apply shift_changes; [|lia].
        intros Hnil. rewrite Hnil in Hsamp. simpl in *. lia. }
    rewrite decide_True in Hb by done. injection Hb as <-. simpl.
    destruct (lookup_lt_is_Some_2 (samples_used self) i) as [time Htime];
      [lia|].
    unfold cell at 1. rewrite !list_lookup_fmap, Htime. simpl.
    rewrite Hsamples.
    destruct (index_of _ (samples_used self)) as [i'|] eqn:E; simpl.
    + apply index_of_Some in E. apply lookup_lt_Some in E.
      destruct (lookup_lt_is_Some_2 (da_values a) i') as [smp Hsmp]; [lia|].
      unfold cell. by rewrite Hsmp.
    + rewrite Ht, Hlen, Hv.
      rewrite lookup_replicate_2 by done. simpl.
      by rewrite lookup_replicate_2 by done.
  - rewrite decide_True in Hb by done. by injection Hb as <-.
Qed.

Lemma iteration_cells (p_da : DataArray (V:=V)) (first : bool)
    (res : list (list (list (list V)))) log :
  buffer_ok in_vl in_times n t_in p_da →
  da_sample p_da = (if first then samples_used self else shifted) →
  ∃ p' b0 b1 b2,
    iteration nanV insolation self keep_inputs pft impute es n batch_mean
              (p_da, res) log
    = (Ok (p', res ++ [m_predict (model self) (da_values p_da)]),
       log ++ [ModelPredict (da_values p_da)])
    ∧ buffer_ok in_vl in_times n t_in p'
    ∧ da_sample p' = shifted
    ∧ next_input nanV mean0 insolation self in_vl out_vl ov n pft impute first
                 (da_values p_da) (da_values p')
    ∧ one_pass nanV mean0 insolation self in_vl out_vl ov pft impute first
               (da_values p_da) (da_values p') b0 b1 b2
    ∧ ∀ i j f, i < n → j < t_in → f < length in_vl →
        cell (da_values b1) i j f
        = if decide (impute = true ∧ n - es ≤ i)
          then Some (mean0 ((λ smp : list (list V),
                               default nanV (r ← smp !! j; r !! f))
                              <$> g_generate (generator self)))
          else cell (da_values b0) i j f.
Proof.
  intros Hbuf Hsamples. destruct Hvalid as [Hdt Hin Hout0 Hinsel Houtsel Hov Hndin Hndout Hndov Hovin Hovout Hn0 Hlen0 Hbatch Hsamp Hndsamp Hmodel Hsol0 Hunstack].
  unfold iteration.
  pose proof (step_size_positive t_in t_out pft Hin Hout0) as Hes.
  rewrite io_bind_emit. rewrite Houtsel. simpl.
  unfold labelled. rewrite decide_False by lia. simpl.
  assert (has_shape n t_out (length out_vl)
            (m_predict (model self) (da_values p_da))) as Hout.
  { apply Hmodel. by destruct Hbuf as (_ & _ & _ & _ & _ & ?). }
  rewrite decide_True
    by (by rewrite !length_fmap, length_seq, Hsamp).
  rewrite io_bind_lift. simpl.
  destruct (reindex_cells p_da first Hbuf Hsamples)
    as (b0 & Hr0 & Hs0 & Hb0 & Hc0). rewrite Hr0.
  rewrite io_bind_lift.
  destruct (mean_axis0_shape nanV mean0 t_in (length in_vl)
              (g_generate (generator self))) as [Hml Hmr].
  assert (∃ b1, (if impute then impute_write es batch_mean b0 else Ok b0) = Ok b1
                ∧ da_sample b1 = shifted
                ∧ buffer_ok in_vl in_times n t_in b1
                ∧ ∀ i j f, i < n → j < t_in → f < length in_vl →
                    cell (da_values b1) i j f
                    = if decide (impute = true ∧ n - es ≤ i)
                      then Some (mean0 ((λ smp : list (list V),
                                           default nanV (r ← smp !! j; r !! f))
                                          <$> g_generate (generator self)))
                      else cell (da_values b0) i j f)
    as (b1 & Hr1 & Hs1 & Hb1 & Hc1).
  { destruct impute.
    - destruct (impute_ok in_vl in_times n t_in b0 es batch_mean)
        as (b1 & Hw & Hs1 & Hb1); auto.
      exists b1. split; [done|]. split; [by rewrite Hs1|]. split; [done|].
      destruct (impute_write_Ok _ _ _ _ Hw) as (_ & _ & _ & _ & _ & _ & Hrow).
      destruct Hb0 as (_ & _ & _ & _ & _ & Hl0 & _). rewrite Hl0 in Hrow.
      intros i j f Hi Hj Hf. unfold cell at 1. rewrite (Hrow i Hi).
      destruct (decide (n - es ≤ i)).
      + rewrite decide_True by done. simpl.
        by apply (mean_axis0_lookup nanV mean0).
      + rewrite decide_False by tauto. done.
    - exists b0. do 3 (split; [done|]). intros i j f _ _ _.
      rewrite decide_False; [done|]. by intros [? _]. }
  rewrite Hr1, io_bind_lift.
  assert (∃ b2, (if _add_insolation self
                 then insolation_write insolation es t_in (_dt self) b1
                 else Ok b1) = Ok b2
                ∧ da_sample b2 = shifted
                ∧ buffer_ok in_vl in_times n t_in b2
                ∧ ∀ i j f lbl, i < n → j < t_in → in_vl !! f = Some lbl →
                    cell (da_values b2) i j f
                    = if decide (_add_insolation self = true ∧ lbl = "SOL"
                                 ∧ n - es ≤ i)
                      then time ← samples_used self !! i;
                           Some (insolation (time + Z.of_nat es * _dt self
                                             + Z.of_nat j * _dt self)%Z)
                      else cell (da_values b1) i j f)
    as (b2 & Hr2 & Hs2 & Hb2 & Hc2).
  { destruct (_add_insolation self) eqn:Hins.
    - destruct (insolation_ok insolation in_vl in_times n t_in b1 es (_dt self))
        as (b2 & Hw & Hs2 & Hb2); auto.
      exists b2. split; [done|]. split; [by rewrite Hs2|]. split; [done|].
      destruct (index_of_elem "SOL" in_vl (Hsol0 eq_refl)) as [sol Hsol].
      destruct Hb1 as (Hv1 & Ht1 & Hlen1 & Hnd1 & Hn1 & Hx1).
      destruct (insolation_write_single insolation b1 es t_in n (length in_vl)
                  sol (_dt self)) as (b2' & Hw' & _ & _ & _ & Hcell);
        try done; try (by rewrite Hv1).
      rewrite Hw in Hw'. injection Hw' as <-.
      intros i j f lbl Hi Hj Hf.
      destruct (lookup_lt_is_Some_2 (samples_used self) i) as [time Htime];
        [lia|].
      rewrite (Hcell i j f (time + Z.of_nat es * _dt self)%Z); try done.
      + rewrite Htime. simpl. apply index_of_Some in Hsol.
        destruct (decide (n - es ≤ i ∧ f = sol)) as [[? ->]|Hno].
        * rewrite decide_True; [done|]. split; [done|]. split; [congruence|done].
        * rewrite decide_False; [done|]. intros (_ & -> & ?). apply Hno.
          split; [done|]. by apply (NoDup_lookup in_vl f sol "SOL").
      + by apply lookup_lt_Some in Hf.
      + by rewrite Hs1, list_lookup_fmap, Htime.
    - exists b1. do 3 (split; [done|]). intros i j f lbl _ _ _.
      rewrite decide_False; [done|]. by intros [? _]. }
  rewrite Hr2, io_bind_lift. rewrite Hov. simpl. rewrite io_bind_lift.
  destruct Hb2 as (Hv & Ht & Hlen & Hnd & Hn & Hx).
  destruct (step_size_and_feed_back nanV t_in t_out pft) as (_ & _ & Hfeed).
  destruct (Hfeed ov
              (MkDataArray shifted (Z.of_nat <$> seq 0 t_out) out_vl
                           (m_predict (model self) (da_values p_da)))
              b2 n)
    as (p' & Hr3 & Hps & Hpt & Hpv & Hpx & Hcell); simpl; try done;
    try (by rewrite Hv).
  rewrite Hr3.
  rewrite io_bind_lift. exists p', b0, b1, b2. split; [done|].
  split; [|split; [|split; [|split]]].
  - unfold buffer_ok. rewrite Hps, Hpt, Hpv. rewrite Hv in Hpx. done.
  - by rewrite Hps.
  - intros i j f lbl Hi Hj Hf. simpl in Hcell.
    rewrite (Hcell i j f lbl) by (by rewrite ?Hv).
    destruct (decide (lbl ∈ ov ∧ _)); [done|].
    rewrite (Hc2 i j f lbl) by done.
    destruct (decide (_add_insolation self = true ∧ _)); [done|].
    rewrite Hc1 by (try done; by apply lookup_lt_Some in Hf).
    destruct (decide (impute = true ∧ _)); [done|].
    apply Hc0; try done. by apply lookup_lt_Some in Hf.
  - unfold one_pass.
    destruct Hbuf as (Hpv0 & Hpt0 & _ & _ & _ & _).
    destruct (step_size t_in t_out pft) as [[keep e] times]. simpl in *.
    assert (p_da = MkDataArray
                     (if first then samples_used self
                      else (λ t, t + Z.of_nat e * _dt self)%Z <$> samples_used self)
                     times in_vl (da_values p_da)) as <-.
    { destruct p_da; simpl in *. by subst. }
    do 3 (split; [done|]). by exists p'.
  - exact Hc1.
Qed.

Lemma loop_inputs (k : nat) (first : bool) (p_da : DataArray (V:=V))
    (res : list (list (list (list V)))) log :
  buffer_ok in_vl in_times n t_in p_da →
  da_sample p_da = (if first then samples_used self else shifted) →
  ∃ p' xs,
    loop (iteration nanV insolation self keep_inputs pft impute es n batch_mean)
         k (p_da, res) log
    = (Ok (p', res ++ (m_predict (model self) <$> xs)),
       log ++ (ModelPredict <$> xs))
    ∧ length xs = k
    ∧ (0 < k → head xs = Some (da_values p_da))
    ∧ ∀ s x x', xs !! s = Some x → xs !! S s = Some x' →
        next_input nanV mean0 insolation self in_vl out_vl ov n pft impute
                   (first && bool_decide (s = 0)) x x'
        ∧ ∃ b0 b1 b2,
            one_pass nanV mean0 insolation self in_vl out_vl ov pft impute
                     (first && bool_decide (s = 0)) x x' b0 b1 b2
            ∧ ∀ i j f, i < n → j < t_in → f < length in_vl →
                cell (da_values b1) i j f
                = if decide (impute = true ∧ n - es ≤ i)
                  then Some (mean0 ((λ smp : list (list V),
                                       default nanV (r ← smp !! j; r !! f))
                                      <$> g_generate (generator self)))
                  else cell (da_values b0) i j f.
Proof.
  revert first p_da res log.
  induction k as [|k IH]; intros first p_da res log Hbuf Hsamples.
  - exists p_da, []. simpl. rewrite !app_nil_r. split; [done|].
    split; [done|]. split; [lia|]. by intros s x x' ?.
  - destruct (iteration_cells p_da first res log Hbuf Hsamples)
      as (p1 & b0 & b1 & b2 & Hit & Hb1 & Hs1 & Hnext & Hpass & Hcells).
    destruct (IH false p1 (res ++ [m_predict (model self) (da_values p_da)])
                 (log ++ [ModelPredict (da_values p_da)]) Hb1 Hs1)
      as (p' & xs & Hloop & Hlen & Hhd & Hchain).
    exists p', (da_values p_da :: xs). split; [|split; [|split]].
    + cbn [loop]. unfold mbind at 1, io_bind at 1. rewrite Hit, Hloop.
      by rewrite <- !app_assoc.
    + simpl. by rewrite Hlen.
    + done.
    + intros s x x' Hx Hx'. destruct s as [|s]; simpl in *.
      * injection Hx as <-. rewrite andb_true_r.
        destruct xs as [|x1 xs]; [done|]. simpl in Hx'. injection Hx' as <-.
        assert (Some x1 = Some (da_values p1)) as [= ->]
          by (apply Hhd; simpl in Hlen; lia).
        split; [done|]. by exists b0, b1, b2.
      * rewrite andb_false_r. apply (Hchain s x x' Hx Hx').
Qed.

Lemma predict_inputs (steps : Z) (ktd : bool) log :
  (1 ≤ steps)%Z →
  ∃ xs,
    predict nanV mean0 insolation self steps impute ktd pft log
    = (assemble nanV self (Z.to_nat steps) keep_inputs pft es ktd
                (m_predict (model self) <$> xs),
       log ++ Generate :: (ModelPredict <$> xs))
    ∧ length xs = Z.to_nat steps
    ∧ head xs = Some (g_generate (generator self))
    ∧ ∀ s x x', xs !! s = Some x → xs !! S s = Some x' →
        next_input nanV mean0 insolation self in_vl out_vl ov n pft impute
                   (bool_decide (s = 0)) x x'
        ∧ ∃ b0 b1 b2,
            one_pass nanV mean0 insolation self in_vl out_vl ov pft impute
                     (bool_decide (s = 0)) x x' b0 b1 b2
            ∧ ∀ i j f, i < n → j < t_in → f < length in_vl →
                cell (da_values b1) i j f
                = if decide (impute = true ∧ n - es ≤ i)
                  then Some (mean0 ((λ smp : list (list V),
                                       default nanV (r ← smp !! j; r !! f))
                                      <$> g_generate (generator self)))
                  else cell (da_values b0) i j f.
Proof.
  intros Hsteps. unfold predict. rewrite decide_False by lia.
  pose proof (loop_inputs (Z.to_nat steps) true) as Hloop.
  pose proof (length_step_size_times t_in t_out pft) as Htl.
  destruct Hvalid as [Hdt Hin Hout0 Hinsel Houtsel Hov Hndin Hndout Hndov Hovin
                      Hovout Hn0 Hlen0 Hbatch Hsamp Hndsamp Hmodel Hsol0
                      Hunstack].
  destruct (step_size t_in t_out pft) as [[keep e] times]. simpl in *.
  rewrite io_bind_emit. rewrite Hinsel. simpl.
  unfold labelled. rewrite decide_False by lia. simpl.
  rewrite decide_True by (by rewrite Hlen0, Hsamp, Htl).
  rewrite io_bind_lift. simpl.
  destruct (Hloop (MkDataArray (samples_used self) times in_vl
                               (g_generate (generator self)))
                  [] (log ++ [Generate]))
    as (p' & xs & Hrun & Hlen & Hhd & Hchain).
  { unfold buffer_ok. simpl. do 5 (split; [done|]). done. }
  { done. }
  unfold mbind at 1, io_bind at 1. rewrite Hlen0, Hrun. simpl.
  exists xs. split; [by rewrite <- app_assoc|]. split; [done|].
  split; [apply Hhd; lia|]. exact Hchain.
Qed.

End Inputs.

Lemma step_size_es t_in t_out pft :
  (step_size t_in t_out pft).1.2
  = if decide (t_out ≤ t_in) then t_out else if pft then t_in else t_out.
Proof. unfold step_size. case_decide; [done|]. by destruct pft. Qed.

Section LoopClaims.
Context {V : Type} (nanV : V) (mean0 : list V → V) (insolation : Z → V).

(** C2. In [predict] on a well-formed estimator the effective step is
    [OUT] when [OUT <= IN], and otherwise [IN] with [prefer_first_times]
    and [OUT] without; the forecast hours advance by it.  Every model input
    after the first is seeded by the output of the call before it: for each
    overlap label, in keep-inputs mode ([OUT <= IN]) the [OUT] output time
    steps fill the newest [OUT] input time steps, while the older ones are
    what re-indexing carried over; otherwise the first [IN] output time
    steps fill the input with [prefer_first_times], and the last [IN]
    without. *)
Theorem effective_step_and_seeding (self : TimeSeriesEstimator (V:=V))
    in_vl out_vl ov n (steps : Z) (impute ktd pft : bool) log :
  valid_estimator self in_vl out_vl ov n →
  (1 ≤ steps)%Z →
  let t_in := _input_time_steps self in
  let t_out := _output_time_steps self in
  let es := if decide (t_out ≤ t_in) then t_out
            else if pft then t_in else t_out in
  (impute = true → es ≤ n) →
  _uses_varlev self = true ∨ ktd = false →
  ∃ fc xs,
    predict nanV mean0 insolation self steps impute ktd pft log
    = (Ok fc, log ++ Generate :: (ModelPredict <$> xs))
    ∧ length xs = Z.to_nat steps
    ∧ f_hour_of fc
      = (if ktd
         then (λ s : nat, (Z.of_nat s * Z.of_nat es + 1) * _dt self)%Z
                <$> seq 0 (Z.to_nat steps)
         else (λ i : nat, (Z.of_nat i + 1) * _dt self)%Z
                <$> seq 0 (Z.to_nat steps * es))
    ∧ ∀ s x x', xs !! s = Some x → xs !! S s = Some x' →
        ∀ i j f lbl, i < n → j < t_in → in_vl !! f = Some lbl → lbl ∈ ov →
          ((t_out ≤ t_in → t_in - t_out ≤ j) →
           ∃ k, out_vl !! k = Some lbl
                ∧ cell x' i j f
                  = cell (m_predict (model self) x) i
                         (if decide (t_out ≤ t_in) then j - (t_in - t_out)
                          else if pft then j else t_out - t_in + j) k)
          ∧ (t_out ≤ t_in → j < t_in - t_out → i < n - es →
             cell x' i j f
             = carried nanV self es (bool_decide (s = 0)) x i j f).
Proof.
  intros Hvalid Hsteps t_in t_out es Himp Hcase.
  pose proof (step_size_es t_in t_out pft) as Hes. fold es in Hes.
  rewrite <- Hes in Himp.
  destruct (predict_inputs nanV mean0 insolation self in_vl out_vl ov n Hvalid
              pft impute Himp steps ktd log Hsteps)
    as (xs & Hrun & Hlen & _ & Hchain).
  destruct (assemble_ok nanV self in_vl out_vl ov n pft ktd
              (m_predict (model self) <$> xs) Hvalid Hcase)
    as (fc & Hfc & _ & _ & Hhours).
  rewrite length_fmap, Hlen in Hfc, Hhours.
  exists fc, xs. split; [by rewrite Hrun, Hfc|]. split; [done|]. split.
  { destruct ktd.
    - destruct Hcase as [Hvl|]; [|done].
      destruct (assemble_varlev_inv nanV self (Z.to_nat steps) pft true
                  (m_predict (model self) <$> xs) fc Hvl)
        as (o & _ & Hkeep & _); [by rewrite length_fmap|done|].
      rewrite (Hkeep eq_refl). simpl. by rewrite <- Hes.
    - rewrite (Hhours eq_refl). by rewrite <- Hes. }
  intros s x x' Hx Hx' i j f lbl Hi Hj Hf Hov.
  destruct (Hchain s x x' Hx Hx') as [Hnext _].
  specialize (Hnext i j f lbl Hi Hj Hf). cbv zeta in Hnext.
  fold t_in t_out in Hnext. rewrite Hes in Hnext.
  destruct Hvalid as [Hdt Hin Hout0 Hinsel Houtsel Hovs Hndin Hndout Hndov Hovin
                      Hovout Hn0 Hlen0 Hbatch Hsamp Hndsamp Hmodel Hsol0
                      Hunstack].
  split.
  - intros Hnew. rewrite decide_True in Hnext by done.
    destruct (index_of_elem lbl out_vl (Hovout lbl Hov)) as [k Hk].
    rewrite Hk in Hnext. simpl in Hnext.
    exists k. split; [by apply index_of_Some in Hk|]. exact Hnext.
  - intros Hle Hold Hearly.
    rewrite decide_False in Hnext by (intros [_ ?]; lia).
    rewrite decide_False in Hnext by (intros (_ & _ & ?); lia).
    rewrite decide_False in Hnext by (intros [_ ?]; lia).
    exact Hnext.
Qed.

(** C3, amended.  In [predict] with [impute=True] on a well-formed
    estimator, every pass of the loop that is followed by another runs, on
    the buffer holding the model input, re-indexing, then the imputation
    write, then the insolation write, then the feedback, whose result is
    the next model input.  The imputation write replaces the last [es]
    entries of the sample axis, at every time step and feature, by the mean
    over the sample axis of the batch the generator gave before the loop,
    and leaves every earlier sample as re-indexing made it.  What of this
    reaches the next model input at the last [es] samples is the mean at
    every cell that neither the feedback nor the insolation writes. *)
Theorem imputation_overwrites_last_samples (self : TimeSeriesEstimator (V:=V))
    in_vl out_vl ov n (steps : Z) (ktd pft : bool) log :
  valid_estimator self in_vl out_vl ov n →
  (1 ≤ steps)%Z →
  let t_in := _input_time_steps self in
  let t_out := _output_time_steps self in
  let es := (step_size t_in t_out pft).1.2 in
  let batch := g_generate (generator self) in
  let later := (λ t, t + Z.of_nat es * _dt self)%Z <$> samples_used self in
  es ≤ n →
  _uses_varlev self = true ∨ ktd = false →
  ∃ fc xs,
    predict nanV mean0 insolation self steps true ktd pft log
    = (Ok fc, log ++ Generate :: (ModelPredict <$> xs))
    ∧ length xs = Z.to_nat steps
    ∧ head xs = Some batch
    ∧ ∀ s x x', xs !! s = Some x → xs !! S s = Some x' →
        ∃ b0 b1 b2 b3,
          reindex nanV later
                  (MkDataArray (if decide (s = 0) then samples_used self else later)
                               (step_size t_in t_out pft).2 in_vl x) = Ok b0
          ∧ impute_write es (mean_axis0 nanV mean0 t_in (length in_vl) batch) b0
            = Ok b1
          ∧ (if _add_insolation self
             then insolation_write insolation es t_in (_dt self) b1
             else Ok b1) = Ok b2
          ∧ feed_back nanV (step_size t_in t_out pft).1.1 pft es t_in ov
                      (MkDataArray later (Z.of_nat <$> seq 0 t_out) out_vl
                                   (m_predict (model self) x)) b2 = Ok b3
          ∧ da_values b3 = x'
          ∧ (∀ i j f, i < n → j < t_in → f < length in_vl →
               cell (da_values b1) i j f
               = if decide (n - es ≤ i)
                 then Some (mean0 ((λ smp : list (list V),
                                      default nanV (r ← smp !! j; r !! f))
                                     <$> batch))
                 else cell (da_values b0) i j f)
          ∧ (∀ i j f lbl, n - es ≤ i → i < n → j < t_in →
               in_vl !! f = Some lbl →
               ¬ (lbl ∈ ov ∧ (t_out ≤ t_in → t_in - t_out ≤ j)) →
               ¬ (_add_insolation self = true ∧ lbl = "SOL") →
               cell x' i j f
               = Some (mean0 ((λ smp : list (list V),
                                 default nanV (r ← smp !! j; r !! f))
                                <$> batch))).
Proof.
  intros Hvalid Hsteps t_in t_out es batch later Himp Hcase.
  destruct (predict_inputs nanV mean0 insolation self in_vl out_vl ov n Hvalid
              pft true (λ _, Himp) steps ktd log Hsteps)
    as (xs & Hrun & Hlen & Hhd & Hchain).
  destruct (assemble_ok nanV self in_vl out_vl ov n pft ktd
              (m_predict (model self) <$> xs) Hvalid Hcase)
    as (fc & Hfc & _).
  rewrite length_fmap, Hlen in Hfc.
  exists fc, xs. split; [by rewrite Hrun, Hfc|]. do 2 (split; [done|]).
  intros s x x' Hx Hx'.
  destruct (Hchain s x x' Hx Hx') as (Hnext & b0 & b1 & b2 & Hpass & Hcells).
  unfold one_pass in Hpass. unfold next_input in Hnext.
  subst es later batch t_in t_out.
  destruct (step_size (_input_time_steps self) (_output_time_steps self) pft)
    as [[keep e] times]. simpl in *.
  destruct Hpass as (H0 & H1 & H2 & b3 & H3 & Hx3).
  exists b0, b1, b2, b3. split.
  { rewrite <- H0. do 2 f_equal. by destruct s. }
  do 4 (split; [done|]). split.
  - intros i j f Hi Hj Hf. rewrite (Hcells i j f Hi Hj Hf).
    apply decide_ext. tauto.
  - intros i j f lbl Hge Hi Hj Hf Hnf Hns.
    rewrite (Hnext i j f lbl Hi Hj Hf).
    rewrite decide_False by done.
    rewrite decide_False by tauto.
    by rewrite decide_True.
Qed.

End LoopClaims.

(** Three steps of the demo estimator: the second model input holds, at
    the newest time step of feature [b], what the model put out for the
    first. *)
Lemma effective_step_and_seeding_witness :
  ∃ fc x0 x1 x2,
    Demo.run Demo.estimator_varlev 3 false false true
    = (Ok fc, [Generate; ModelPredict x0; ModelPredict x1; ModelPredict x2])
    ∧ f_hour_of fc = [6; 12; 18]%Z
    ∧ cell (m_predict Demo.model_2_1 x0) 0 0 0 = Some 1005%Z
    ∧ cell x1 0 1 1 = Some 1005%Z.
Proof.
  destruct (effective_step_and_seeding 0%Z Demo.zmean Demo.zsun
              Demo.estimator_varlev ["a"; "b"] ["b"] ["b"] 3 3 false false true []
              demo_valid)
    as (fc & xs & Hrun & Hlen & Hfh & Hseed); [lia|discriminate|by left|].
  destruct xs as [|x0 [|x1 [|x2 [|]]]]; try discriminate.
  exists fc, x0, x1, x2. split; [exact Hrun|]. split; [exact Hfh|].
  assert (x0 = g_generate Demo.generator_varlev) as Hx0.
  { unfold Demo.run in Hrun. vm_compute in Hrun. by injection Hrun as _ <- _ _. }
  split; [by rewrite Hx0|].
  destruct (Hseed 0 x0 x1 eq_refl eq_refl 0 1 1 "b") as [Hnew _];
    [lia|simpl; lia|reflexivity|left|].
  destruct Hnew as (k & Hk & Hc); [simpl; lia|].
  destruct k as [|k]; [|done]. rewrite Hc, Hx0. reflexivity.
Defined.

(** Three steps of the demo estimator with [impute=True]: feature [a] of
    the last sample is the batch mean in the second and in the third model
    input. *)
Lemma imputation_overwrites_last_samples_witness :
  ∃ fc x0 x1 x2,
    Demo.run Demo.estimator_varlev 3 true false true
    = (Ok fc, [Generate; ModelPredict x0; ModelPredict x1; ModelPredict x2])
    ∧ x0 = g_generate Demo.generator_varlev
    ∧ cell x1 2 0 0 = Some (Demo.zmean [1; 3; 9]%Z)
    ∧ cell x2 2 0 0 = Some (Demo.zmean [1; 3; 9]%Z).
Proof.
  destruct (imputation_overwrites_last_samples 0%Z Demo.zmean Demo.zsun
              Demo.estimator_varlev ["a"; "b"] ["b"] ["b"] 3 3 false true []
              demo_valid)
    as (fc & xs & Hrun & Hlen & Hhd & Hpass); [lia|simpl; lia|by right|].
  destruct xs as [|x0 [|x1 [|x2 [|]]]]; try discriminate.
  exists fc, x0, x1, x2. split; [exact Hrun|].
  split; [by injection Hhd|].
  split.
  - destruct (Hpass 0 x0 x1 eq_refl eq_refl)
      as (b0 & b1 & b2 & b3 & _ & _ & _ & _ & _ & _ & Hmean).
    apply (Hmean 2 0 0 "a"); simpl; try lia; try reflexivity;
      try (intros [Hin _]; try apply list_elem_of_singleton in Hin; discriminate).
  - destruct (Hpass 1 x1 x2 eq_refl eq_refl)
      as (b0 & b1 & b2 & b3 & _ & _ & _ & _ & _ & _ & Hmean).
    apply (Hmean 2 0 0 "a"); simpl; try lia; try reflexivity;
      try (intros [Hin _]; try apply list_elem_of_singleton in Hin; discriminate).
Defined.
